(** * sitemap.js: the in-memory document builder and the streaming emitter

    A shallow embedding of [src/lib/sitemap.ts]: the entry normalizer
    ([Sitemap.normalizeURL], [Sitemap.normalizeURLs]), the document class
    [Sitemap] with its cache slot, and the transform [SitemapStream].

    Conventions.
    - A JavaScript exception is a value of [exn]; a call that may throw
      returns a [result].
    - An object the caller hands in and that the code writes to is threaded
      explicitly: the functions return the object as it is after the call.
    - [Date.now()] is an explicit argument.
    - What sitemap.ts imports (the WHATWG URL class, fs.statSync, Date,
      xmlbuilder nodes, ./utils, ./sitemap-item) is the interface [Imports]. *)

From Stdlib Require Import List String Ascii ZArith Bool Lia.
Import ListNotations.
Local Open Scope string_scope.
Local Open Scope Z_scope.

(* ================================================================== *)
(** ** Exceptions and results *)

(** The check of xmlbuilder that failed. xmlbuilder throws a plain Error
    whose message starts with the words "Invalid character in string",
    "Invalid character in name" or "Invalid processing instruction value",
    which the offending text may follow. *)
Inductive XMLCheck : Type :=
| InvalidCharacter
| InvalidName
| InvalidInstructionValue.

Inductive exn : Type :=
| TypeError_InvalidURL (input : string)      (* new URL(...) *)
| TypeError_Undefined                        (* method call on undefined *)
| RangeError_InvalidTime                     (* Date.prototype.toISOString *)
| ENOENT (path : string)                     (* fs.statSync *)
| ValidationError (kind : string)            (* ./utils, ./sitemap-item *)
| XMLBuilderError (check : XMLCheck)         (* xmlbuilder's validation *)
| UndefinedTargetFolder.                     (* sitemap-index *)

Inductive result (A : Type) : Type :=
| Ok (a : A)
| Throw (e : exn).
Arguments Ok {A} a.
Arguments Throw {A} e.

Definition result_bind {A B} (r : result A) (k : A -> result B) : result B :=
  match r with
  | Ok a => k a
  | Throw e => Throw e
  end.

Definition is_ok {A} (r : result A) : bool :=
  match r with Ok _ => true | Throw _ => false end.

(** [Array.prototype.map] with a callback that may throw: the first
    exception aborts the traversal. *)
Fixpoint mapR {A B} (f : A -> result B) (l : list A) : result (list B) :=
  match l with
  | [] => Ok []
  | x :: xs =>
      result_bind (f x) (fun y =>
      result_bind (mapR f xs) (fun ys => Ok (y :: ys)))
  end.

(* ================================================================== *)
(** ** JavaScript truthiness of the values the code tests *)

Definition truthy_string (s : string) : bool :=
  match s with EmptyString => false | String _ _ => true end.

Definition truthy_ostring (o : option string) : bool :=
  match o with Some s => truthy_string s | None => false end.

Definition truthy_number (n : Z) : bool := negb (n =? 0).

(* ================================================================== *)
(** ** String helpers *)

Definition dq : string := String (ascii_of_nat 34) EmptyString.
Definition sq : string := String (ascii_of_nat 39) EmptyString.
Definition quoted (s : string) : string := dq ++ s ++ dq.

(** [String.prototype.split] with a one-character separator. *)
Fixpoint split (sep : ascii) (s : string) : list string :=
  match s with
  | EmptyString => [EmptyString]
  | String c s' =>
      if Ascii.eqb c sep then EmptyString :: split sep s'
      else match split sep s' with
           | [] => [String c EmptyString]
           | w :: ws => String c w :: ws
           end
  end.

Definition is_quote (c : ascii) : bool :=
  Ascii.eqb c (ascii_of_nat 34) || Ascii.eqb c (ascii_of_nat 39).

Fixpoint strip_trailing_quote (s : string) : string :=
  match s with
  | EmptyString => EmptyString
  | String c EmptyString => if is_quote c then EmptyString else s
  | String c s' => String c (strip_trailing_quote s')
  end.

(** [v.replace(/^['dq]|['dq]$/g, '')]: one quote off each end. *)
Definition strip_quotes (s : string) : string :=
  match s with
  | EmptyString => EmptyString
  | String c s' =>
      if is_quote c then strip_trailing_quote s' else strip_trailing_quote s
  end.

Definition is_alpha (c : ascii) : bool :=
  let n := nat_of_ascii c in
  ((65 <=? n)%nat && (n <=? 90)%nat) || ((97 <=? n)%nat && (n <=? 122)%nat).

Definition is_scheme_char (c : ascii) : bool :=
  let n := nat_of_ascii c in
  is_alpha c || ((48 <=? n)%nat && (n <=? 57)%nat)
  || (n =? 43)%nat || (n =? 45)%nat || (n =? 46)%nat.

Fixpoint scheme_rest (s : string) : bool :=
  match s with
  | EmptyString => false
  | String c s' =>
      if Ascii.eqb c ":"%char then true
      else if is_scheme_char c then scheme_rest s' else false
  end.

(** A URL string is absolute when it starts with a scheme and a colon. *)
Definition is_absolute (s : string) : bool :=
  match s with
  | EmptyString => false
  | String c s' => is_alpha c && scheme_rest s'
  end.

(* ================================================================== *)
(** ** The ES2015 [Map] with string keys

    Entries are kept in insertion order; [set] on a key that is present
    overwrites the value where it stands, [set] on a new key appends. *)

Module JSMap.
Section WithValue.
Context {V : Type}.

Definition t : Type := list (string * V).

Definition empty : t := [].

Fixpoint set (k : string) (v : V) (m : t) : t :=
  match m with
  | [] => [(k, v)]
  | (k', v') :: m' =>
      if String.eqb k k' then (k, v) :: m' else (k', v') :: set k v m'
  end.

Fixpoint get (k : string) (m : t) : option V :=
  match m with
  | [] => None
  | (k', v') :: m' => if String.eqb k k' then Some v' else get k m'
  end.

Definition has (k : string) (m : t) : bool :=
  match get k m with Some _ => true | None => false end.

Definition remove (k : string) (m : t) : t :=
  filter (fun kv => negb (String.eqb k (fst kv))) m.

(** [Map.prototype.delete] answers whether the key was there. *)
Definition delete (k : string) (m : t) : t * bool := (remove k m, has k m).

Definition size (m : t) : Z := Z.of_nat (List.length m).

Definition values (m : t) : list V := map snd m.

Definition keys (m : t) : list string := map fst m.

(** Representation invariant: a key occurs once. *)
Definition wf (m : t) : Prop := NoDup (keys m).

End WithValue.
Arguments t V : clear implicits.
End JSMap.

(* ================================================================== *)
(** ** The types of ./types *)

(** Modelled from the spec: the type declarations of [src/lib/types.ts],
    which is not among the sources. The records below carry the properties
    sitemap.ts reads or writes, under the names it uses, with the shapes of
    spec section 3; what an object carries besides (change frequency,
    priority, the protocol extensions of an entry; duration, restriction,
    platform, price of a video) is copied as it is by the object spreads and
    stands here as one opaque component [ext]. *)
Class JSTypes : Type := {
  number : Type;       (* the JavaScript number *)
  ItemExt : Type;      (* remaining properties of an entry *)
  ItemExt_none : ItemExt;   (* none of them set *)
  VideoExt : Type;     (* remaining properties of a video *)
  XMLNode : Type       (* an xmlbuilder element *)
}.

(** Modelled from the spec: the enumeration [ErrorLevel] of ./types, with
    the three levels of spec section 4.2; sitemap.ts names [WARN] only. *)
Inductive ErrorLevel : Type := SILENT | WARN | ERROR.

Inductive EnumYesNo : Type := yes | no.

(** [boolean | EnumYesNo] *)
Inductive YesNoLoose : Type :=
| YNBool (b : bool)
| YNEnum (e : EnumYesNo).

(** [string | number] *)
Inductive StrOrNum {T : JSTypes} : Type :=
| IsStr (s : string)
| IsNum (n : number).

(** [string | string[]] *)
Inductive TagLoose : Type :=
| TagOne (s : string)
| TagMany (l : list string).

Module Img.
Record t : Type := mk {
  url : string;
  caption : option string;
  title : option string;
  geoLocation : option string;
  license : option string
}.
(** The object literal [{url: s}]. *)
Definition of_url (s : string) : t := mk s None None None None.
(** [{...el, url: u}] *)
Definition with_url (el : t) (u : string) : t :=
  mk u (caption el) (title el) (geoLocation el) (license el).
End Img.

Module Link.
Record t : Type := mk {
  lang : string;
  url : string
}.
(** [{...link, url: u}] *)
Definition with_url (link : t) (u : string) : t := mk (lang link) u.
End Link.

Module VideoLoose.
Record t {T : JSTypes} : Type := mk {
  thumbnail_loc : string;
  title : string;
  description : string;
  content_loc : option string;
  player_loc : option string;
  family_friendly : option YesNoLoose;
  live : option YesNoLoose;
  requires_subscription : option YesNoLoose;
  tag : option TagLoose;
  rating : option StrOrNum;
  view_count : option StrOrNum;
  ext : VideoExt
}.
Arguments mk {T}.
End VideoLoose.

Module Video.
Record t {T : JSTypes} : Type := mk {
  thumbnail_loc : string;
  title : string;
  description : string;
  content_loc : option string;
  player_loc : option string;
  family_friendly : option EnumYesNo;
  live : option EnumYesNo;
  requires_subscription : option EnumYesNo;
  tag : list string;
  rating : option number;
  view_count : option string;
  ext : VideoExt
}.
Arguments mk {T}.
End Video.

(** [string | ISitemapImg] *)
Inductive ImgLoose : Type :=
| ImgStr (s : string)
| ImgObj (i : Img.t).

(** [string | ISitemapImg | (string | ISitemapImg)[]] *)
Inductive ImgField : Type :=
| ImgOne (x : ImgLoose)
| ImgMany (l : list ImgLoose).

(** [IVideoItemLoose | IVideoItemLoose[]] *)
Inductive VideoField {T : JSTypes} : Type :=
| VideoOne (v : VideoLoose.t)
| VideoMany (l : list VideoLoose.t).

(** [ISitemapItemOptionsLoose] *)
Module Loose.
Record t {T : JSTypes} : Type := mk {
  url : string;
  img : option ImgField;
  video : option VideoField;
  links : option (list Link.t);
  lastmod : option string;
  lastmodISO : option string;
  lastmodfile : option string;
  ext : ItemExt
}.
Arguments mk {T}.

Section Updates.
Context {T : JSTypes}.
(** The object literal [{url: s}]. *)
Definition of_url (s : string) : t :=
  mk s None None None None None None ItemExt_none.
(** [o.img = v] *)
Definition set_img (v : ImgField) (o : t) : t :=
  mk (url o) (Some v) (video o) (links o)
     (lastmod o) (lastmodISO o) (lastmodfile o) (ext o).
(** [o.video = v] *)
Definition set_video (v : VideoField) (o : t) : t :=
  mk (url o) (img o) (Some v) (links o)
     (lastmod o) (lastmodISO o) (lastmodfile o) (ext o).
End Updates.
End Loose.

(** [SitemapItemOptions], the strict entry. *)
Module Smi.
Record t {T : JSTypes} : Type := mk {
  url : string;
  img : list Img.t;
  video : list Video.t;
  links : list Link.t;
  lastmod : option string;
  lastmodISO : option string;
  lastmodfile : option string;
  ext : ItemExt
}.
Arguments mk {T}.
End Smi.

(** [string | ISitemapItemOptionsLoose] *)
Inductive Elem {T : JSTypes} : Type :=
| ElemStr (s : string)
| ElemObj (o : Loose.t).

(* ================================================================== *)
(** ** What sitemap.ts imports *)

Class Imports {T : JSTypes} : Type := {
(** [(new URL(input, base)).toString()]; throws on an input that does not
    parse. *)
URL_toString : string -> option string -> result string;
(** [statSync(path).mtime] as a time value; throws when the path cannot be
    statted. *)
statSync_mtime : string -> result Z;
(** The time value of [new Date(s)]; [None] is the invalid date. *)
Date_parse : string -> option Z;
(** [toISOString] of a valid date. *)
Date_toISOString : Z -> string;
parseFloat : string -> number;
(** ['' + n] *)
number_toString : number -> string;
(** ./utils; throws or returns. *)
validateSMIOptions : Smi.t -> option ErrorLevel -> result unit;
(** ./sitemap-item: the url element [buildXML] appends to the root. *)
buildXML : Smi.t -> XMLNode;
(** xmlbuilder writer on such an element, by the pretty flag. *)
XMLNode_toString : bool -> XMLNode -> string;
(** [SitemapItem.justItem] *)
justItem : Smi.t -> ErrorLevel -> result string
}.

(* ================================================================== *)
(** ** EntryNormalizer: [Sitemap.normalizeURL] and [Sitemap.normalizeURLs] *)

Section Normalizer.
Context {T : JSTypes} {I : Imports}.

Definition boolToYESNO (b : option YesNoLoose) : option EnumYesNo :=
  match b with
  | None => None
  | Some (YNBool b) => Some (if b then yes else no)
  | Some (YNEnum e) => Some e
  end.

(** *** Computations that read and write the caller's object [smiLoose]
    and may throw *)

Definition M (A : Type) : Type := Loose.t -> Loose.t * result A.

Definition ret {A} (a : A) : M A := fun o => (o, Ok a).

Definition bind {A B} (m : M A) (k : A -> M B) : M B :=
  fun o =>
    match m o with
    | (o', Ok a) => k a o'
    | (o', Throw e) => (o', Throw e)
    end.

Definition get : M Loose.t := fun o => (o, Ok o).

Definition modify (f : Loose.t -> Loose.t) : M unit := fun o => (f o, Ok tt).

Definition lift {A} (r : result A) : M A := fun o => (o, r).

Notation "x <- m ;; k" := (bind m (fun x => k))
  (at level 61, m at next level, right associativity).
Notation "m ;;; k" := (bind m (fun _ => k))
  (at level 61, right associativity).

(** [if (smiLoose.img)] *)
Definition truthy_img (i : option ImgField) : bool :=
  match i with
  | None => false
  | Some (ImgOne (ImgStr s)) => truthy_string s
  | Some _ => true
  end.

(** Lines 237-243: a string or a single object in [smiLoose.img] is
    replaced, in the caller's object, by a one-element array. *)
Definition arrayify_img : M unit :=
  smiLoose <- get ;;
  match Loose.img smiLoose with
  | Some (ImgOne (ImgStr s)) =>
      modify (Loose.set_img (ImgMany [ImgObj (Img.of_url s)]))
  | Some (ImgOne (ImgObj i)) =>
      modify (Loose.set_img (ImgMany [ImgObj i]))
  | _ => ret tt
  end.

(** [typeof el === 'string' ? {url: el} : el] *)
Definition img_of_el (el : ImgLoose) : Img.t :=
  match el with
  | ImgStr s => Img.of_url s
  | ImgObj i => i
  end.

Definition img_elements (i : option ImgField) : list ImgLoose :=
  match i with
  | Some (ImgMany l) => l
  | _ => []
  end.

(** Lines 261-264: a single video in [smiLoose.video] is replaced, in
    the caller's object, by a one-element array. *)
Definition arrayify_video : M unit :=
  smiLoose <- get ;;
  match Loose.video smiLoose with
  | Some (VideoOne v) => modify (Loose.set_video (VideoMany [v]))
  | _ => ret tt
  end.

Definition video_elements (v : option VideoField) : list VideoLoose.t :=
  match v with
  | Some (VideoMany l) => l
  | _ => []
  end.

(** The callback of [smiLoose.video.map], lines 265-294. *)
Definition normalize_video (video : VideoLoose.t) : Video.t :=
  Video.mk
    (VideoLoose.thumbnail_loc video)
    (VideoLoose.title video)
    (VideoLoose.description video)
    (VideoLoose.content_loc video)
    (VideoLoose.player_loc video)
    (boolToYESNO (VideoLoose.family_friendly video))
    (boolToYESNO (VideoLoose.live video))
    (boolToYESNO (VideoLoose.requires_subscription video))
    (match VideoLoose.tag video with
     | None => []
     | Some (TagOne s) => [s]
     | Some (TagMany l) => l
     end)
    (match VideoLoose.rating video with
     | None => None
     | Some (IsStr s) => Some (parseFloat s)
     | Some (IsNum n) => Some n
     end)
    (match VideoLoose.view_count video with
     | None => None
     | Some (IsStr s) => Some s
     | Some (IsNum n) => Some (number_toString n)
     end)
    (VideoLoose.ext video).

(** [(new Date(s)).toISOString()] *)
Definition Date_of_string_toISOString (s : string) : result string :=
  match Date_parse s with
  | Some t => Ok (Date_toISOString t)
  | None => Throw RangeError_InvalidTime
  end.

(** The value of an optional string under a truthiness test. *)
Definition string_of (o : option string) : string :=
  match o with Some s => s | None => EmptyString end.

(** Lines 297-308: the [lastmod] the normalizer sets on [smi], if any. *)
Definition computed_lastmod (smiLoose : Loose.t) : result (option string) :=
  if truthy_ostring (Loose.lastmodfile smiLoose) then
    result_bind (statSync_mtime (string_of (Loose.lastmodfile smiLoose)))
      (fun mtime => Ok (Some (Date_toISOString mtime)))
  else if truthy_ostring (Loose.lastmodISO smiLoose) then
    result_bind (Date_of_string_toISOString (string_of (Loose.lastmodISO smiLoose)))
      (fun iso => Ok (Some iso))
  else if truthy_ostring (Loose.lastmod smiLoose) then
    result_bind (Date_of_string_toISOString (string_of (Loose.lastmod smiLoose)))
      (fun iso => Ok (Some iso))
  else Ok None.

(** [{...el, url: (new URL(el.url, hostname)).toString()}] *)
Definition resolve_img (hostname : option string) (el : Img.t) : result Img.t :=
  result_bind (URL_toString (Img.url el) hostname)
    (fun u => Ok (Img.with_url el u)).

(** [{...link, url: (new URL(link.url, hostname)).toString()}] *)
Definition resolve_link (hostname : option string) (link : Link.t)
  : result Link.t :=
  result_bind (URL_toString (Link.url link) hostname)
    (fun u => Ok (Link.with_url link u)).

(** The body of [normalizeURL] once [smiLoose] is an object. *)
Definition normalizeURL_obj (hostname : option string) : M Smi.t :=
  smiLoose <- get ;;
  url <- lift (URL_toString (Loose.url smiLoose) hostname) ;;
  img <- (if truthy_img (Loose.img smiLoose) then
            arrayify_img ;;;
            smiLoose <- get ;;
            ret (map img_of_el (img_elements (Loose.img smiLoose)))
          else ret []) ;;
  smi_img <- lift (mapR (resolve_img hostname) img) ;;
  smi_links <- lift (mapR (resolve_link hostname)
                 (match Loose.links smiLoose with
                  | Some links => links
                  | None => []
                  end)) ;;
  smi_video <- (match Loose.video smiLoose with
                | Some _ =>
                    arrayify_video ;;;
                    smiLoose <- get ;;
                    ret (map normalize_video
                           (video_elements (Loose.video smiLoose)))
                | None => ret []
                end) ;;
  smi_lastmod <- lift (computed_lastmod smiLoose) ;;
  smiLoose <- get ;;
(* smi = {...smiLoose, ...smi} *)
ret (Smi.mk url smi_img smi_video smi_links
       (match smi_lastmod with
        | Some iso => Some iso
        | None => Loose.lastmod smiLoose
        end)
       (Loose.lastmodISO smiLoose)
       (Loose.lastmodfile smiLoose)
       (Loose.ext smiLoose)).

(** [Sitemap.normalizeURL(elem, root, hostname)]; [root] is not used by
    the body. The first component is the caller's [elem] after the call. *)
Definition normalizeURL (elem : Elem) (hostname : option string)
  : Elem * result Smi.t :=
  match elem with
  | ElemStr s => (ElemStr s, snd (normalizeURL_obj hostname (Loose.of_url s)))
  | ElemObj o =>
      let (o', r) := normalizeURL_obj hostname o in (ElemObj o', r)
  end.

(** The [forEach] of [normalizeURLs], from an accumulated map. *)
Fixpoint normalizeURLs_into (urlMap : JSMap.t Smi.t) (urls : list Elem)
    (hostname : option string) : list Elem * result (JSMap.t Smi.t) :=
  match urls with
  | [] => ([], Ok urlMap)
  | elem :: rest =>
      match normalizeURL elem hostname with
      | (elem', Ok smio) =>
          let (rest', r) :=
            normalizeURLs_into (JSMap.set (Smi.url smio) smio urlMap)
              rest hostname in
          (elem' :: rest', r)
      | (elem', Throw e) => (elem' :: rest, Throw e)
      end
  end.

Definition normalizeURLs (urls : list Elem) (hostname : option string)
  : list Elem * result (JSMap.t Smi.t) :=
  normalizeURLs_into JSMap.empty urls hostname.

End Normalizer.

(* ================================================================== *)
(** ** The xmlbuilder root element, as far as sitemap.ts drives it

    [create('urlset', {encoding: 'UTF-8'})] makes a document holding the XML
    declaration and the root element; the methods are called on the root.
    The root has its attributes (an object keyed by attribute name, hence
    ordered by first insertion) and its child nodes, and knows the document
    it was created in, whose child nodes are kept here in [document].

    xmlbuilder validates what it is given (version 1.0 of XML): a name has
    to be an XML name, attribute values and instruction values must be free
    of the control characters XML excludes, and an instruction value must
    not hold the closing mark of a processing instruction. A value that
    does not pass makes the call throw. Characters are taken as code points
    0 to 255. *)

Module XMLElement.
(** The child nodes of the document. *)
Inductive DocNode : Type :=
| XMLDeclaration
| XMLProcessingInstruction (target value : string)
| RootElement.

Record t {T : JSTypes} : Type := mk {
  attribs : JSMap.t string;
  children : list XMLNode;
  document : list DocNode
}.
Arguments mk {T}.

Definition instruction_of (n : DocNode) : list (string * string) :=
  match n with
  | XMLProcessingInstruction target value => [(target, value)]
  | _ => []
  end.

Definition is_root (n : DocNode) : bool :=
  match n with RootElement => true | _ => false end.

(** [assertLegalChar]: none of the characters 0-8, 11, 12, 14-31. *)
Definition legal_char (c : ascii) : bool :=
  let n := nat_of_ascii c in
  negb ((n <=? 8)%nat || (n =? 11)%nat || (n =? 12)%nat
        || ((14 <=? n)%nat && (n <=? 31)%nat)).

Fixpoint legal_chars (s : string) : bool :=
  match s with
  | EmptyString => true
  | String c s' => legal_char c && legal_chars s'
  end.

(** The first character of an XML name: colon, letter, underscore, or one
    of 192-214, 216-246, 248-255. *)
Definition legal_name_start (c : ascii) : bool :=
  let n := nat_of_ascii c in
  (n =? 58)%nat || ((65 <=? n)%nat && (n <=? 90)%nat) || (n =? 95)%nat
  || ((97 <=? n)%nat && (n <=? 122)%nat)
  || ((192 <=? n)%nat && (n <=? 214)%nat)
  || ((216 <=? n)%nat && (n <=? 246)%nat)
  || (248 <=? n)%nat.

(** A further character of an XML name: also hyphen, full stop, digit and
    183. *)
Definition legal_name_part (c : ascii) : bool :=
  let n := nat_of_ascii c in
  legal_name_start c || (n =? 45)%nat || (n =? 46)%nat
  || ((48 <=? n)%nat && (n <=? 57)%nat) || (n =? 183)%nat.

Fixpoint legal_name_rest (s : string) : bool :=
  match s with
  | EmptyString => true
  | String c s' => legal_name_part c && legal_name_rest s'
  end.

(** The closing mark of a processing instruction occurs in the string. *)
Fixpoint has_instruction_end (s : string) : bool :=
  match s with
  | EmptyString => false
  | String c s' =>
      match s' with
      | String c' _ =>
          (Ascii.eqb c "?" && Ascii.eqb c' ">") || has_instruction_end s'
      | EmptyString => false
      end
  end.

Section Methods.
Context {T : JSTypes} {I : Imports}.

Definition instructions (root : t) : list (string * string) :=
  flat_map instruction_of (document root).

(** [create('urlset', {encoding: 'UTF-8'})] *)
Definition create : t := mk JSMap.empty [] [XMLDeclaration; RootElement].

Definition assertLegalChar (s : string) : result unit :=
  if legal_chars s then Ok tt
  else Throw (XMLBuilderError InvalidCharacter).

Definition assertLegalName (s : string) : result unit :=
  result_bind (assertLegalChar s) (fun _ =>
    match s with
    | String c s' =>
        if legal_name_start c && legal_name_rest s' then Ok tt
        else Throw (XMLBuilderError InvalidName)
    | EmptyString => Throw (XMLBuilderError InvalidName)
    end).

Definition escape_char (c : ascii) : string :=
  if Ascii.eqb c "&"%char then "&amp;"
  else if Ascii.eqb c "<"%char then "&lt;"
  else if Ascii.eqb c (ascii_of_nat 34) then "&quot;"
  else if Ascii.eqb c (ascii_of_nat 9) then "&#x9;"
  else if Ascii.eqb c (ascii_of_nat 10) then "&#xA;"
  else if Ascii.eqb c (ascii_of_nat 13) then "&#xD;"
  else String c EmptyString.

Fixpoint attEscape (s : string) : string :=
  match s with
  | EmptyString => EmptyString
  | String c s' => escape_char c ++ attEscape s'
  end.

(** The checks on the value of a processing instruction. *)
Definition insValue (value : string) : result unit :=
  if has_instruction_end value
  then Throw (XMLBuilderError InvalidInstructionValue)
  else assertLegalChar value.

(** [root.att(name, value)], also spelled [root.attribute]: name and
    escaped value are checked, then the attribute is stored. The first
    component is the root after the call. *)
Definition att (name value : string) (root : t) : t * result unit :=
  match result_bind (assertLegalName name)
          (fun _ => assertLegalChar (attEscape value)) with
  | Ok _ =>
      (mk (JSMap.set name value (attribs root)) (children root) (document root),
       Ok tt)
  | Throw e => (root, Throw e)
  end.

(** One call after the other on the same root; an exception ends it. *)
Definition and_then (m1 m2 : t -> t * result unit) (root : t) : t * result unit :=
  match m1 root with
  | (root1, Ok _) => m2 root1
  | (root1, Throw e) => (root1, Throw e)
  end.

(** [root.children = []] *)
Definition clear_children (root : t) : t :=
  mk (attribs root) [] (document root).

(** What [buildXML] does to the root: one more child. *)
Definition push_child (n : XMLNode) (root : t) : t :=
  mk (attribs root) (children root ++ [n]) (document root).

(** [children.splice(children.indexOf(root))] on the nodes of the document:
    the nodes kept and the nodes taken out, which are the root and what
    follows it, or, when the root is not among the nodes, the last node. *)
Fixpoint splice_at_root (nodes : list DocNode)
  : option (list DocNode * list DocNode) :=
  match nodes with
  | [] => None
  | n :: rest =>
      if is_root n then Some ([], n :: rest)
      else match splice_at_root rest with
           | Some (kept, removed) => Some (n :: kept, removed)
           | None => None
           end
  end.

Definition splice (nodes : list DocNode) : list DocNode * list DocNode :=
  match splice_at_root nodes with
  | Some kr => kr
  | None =>
      (removelast nodes,
       match rev nodes with
       | [] => []
       | n :: _ => [n]
       end)
  end.

(** [root.instructionBefore(target, value)]: the root and what follows it
    are taken out of the document, the instruction is made and appended,
    and the nodes taken out are put back after it. Target and value are
    checked when the instruction is made, so that an exception leaves the
    document without the nodes taken out. *)
Definition instructionBefore (target value : string) (root : t)
  : t * result unit :=
  let (kept, removed) := splice (document root) in
  match result_bind (assertLegalChar target) (fun _ => insValue value) with
  | Ok _ =>
      (mk (attribs root) (children root)
          (kept ++ [XMLProcessingInstruction target value] ++ removed),
       Ok tt)
  | Throw e => (mk (attribs root) (children root) kept, Throw e)
  end.

Definition newline : string := String (ascii_of_nat 10) EmptyString.

Definition xml_declaration : string :=
  "<?xml version=" ++ quoted "1.0" ++ " encoding=" ++ quoted "UTF-8" ++ "?>".

Definition write_attribute (a : string * string) : string :=
  " " ++ fst a ++ "=" ++ quoted (attEscape (snd a)).

Definition write_instruction (nl : string) (pi : string * string) : string :=
  "<?" ++ fst pi ++ " " ++ snd pi ++ "?>" ++ nl.

(** The root element as text. *)
Definition write_root (pretty : bool) (root : t) : string :=
  let nl := if pretty then newline else EmptyString in
  "<urlset"
  ++ String.concat EmptyString (map write_attribute (attribs root))
  ++ match children root with
     | [] => "/>"
     | cs => ">" ++ nl
             ++ String.concat EmptyString (map (XMLNode_toString pretty) cs)
             ++ "</urlset>"
     end.

Definition write_node (pretty : bool) (root : t) (n : DocNode) : string :=
  match n with
  | XMLDeclaration => xml_declaration
  | XMLProcessingInstruction target value =>
      write_instruction EmptyString (target, value)
  | RootElement => write_root pretty root
  end.

(** [root.end(opts)]: the whole document as a string, node after node,
    each on a line of its own when pretty. *)
Definition end_ (pretty : bool) (root : t) : string :=
  String.concat (if pretty then newline else EmptyString)
    (map (write_node pretty root) (document root)).
End Methods.
End XMLElement.

(* ================================================================== *)
(** ** DocumentBuilder: the class [Sitemap] *)

(** [ISitemapOptions] *)
Module Options.
Record t {T : JSTypes} : Type := mk {
  urls : option (list Elem);
  hostname : option string;
  cacheTime : option Z;
  xslUrl : option string;
  xmlNs : option string;
  level : option ErrorLevel
}.
Arguments mk {T}.
End Options.

Module Sitemap.
Record t {T : JSTypes} : Type := mk {
  limit : Z;
  xmlNs : string;
  cacheSetTimestamp : Z;
  urls : JSMap.t Smi.t;
  cacheTime : Z;
  cache : string;
  root : XMLElement.t;
  hostname : option string;
  xslUrl : option string
}.
Arguments mk {T}.

Section Methods.
Context {T : JSTypes} {I : Imports}.

Definition with_urls (m : JSMap.t Smi.t) (this : t) : t :=
  mk (limit this) (xmlNs this) (cacheSetTimestamp this) m
     (cacheTime this) (cache this) (root this) (hostname this)
     (xslUrl this).

Definition with_root (r : XMLElement.t) (this : t) : t :=
  mk (limit this) (xmlNs this) (cacheSetTimestamp this) (urls this)
     (cacheTime this) (cache this) r (hostname this) (xslUrl this).

Definition with_cache (c : string) (this : t) : t :=
  mk (limit this) (xmlNs this) (cacheSetTimestamp this) (urls this)
     (cacheTime this) c (root this) (hostname this) (xslUrl this).

Definition with_cacheSetTimestamp (ts : Z) (this : t) : t :=
  mk (limit this) (xmlNs this) ts (urls this)
     (cacheTime this) (cache this) (root this) (hostname this)
     (xslUrl this).

(** The loop over [xmlNs.split(' ')] in the constructor; an item with no
    equals sign leaves [v] undefined and [v.replace] throws. *)
Fixpoint xmlNs_attributes (ns : list string) (root : XMLElement.t)
  : result XMLElement.t :=
  match ns with
  | [] => Ok root
  | attr :: rest =>
      match split "="%char attr with
      | k :: v :: _ =>
          match XMLElement.att k (strip_quotes v) root with
          | (root1, Ok _) => xmlNs_attributes rest root1
          | (_, Throw e) => Throw e
          end
      | _ => Throw TypeError_Undefined
      end
  end.

(** The closing loop of the constructor. *)
Fixpoint validate_all (l : list Smi.t) (level : ErrorLevel) : result unit :=
  match l with
  | [] => Ok tt
  | url :: rest =>
      result_bind (validateSMIOptions url (Some level))
        (fun _ => validate_all rest level)
  end.

(** [new Sitemap(opts)]. The first component is the caller's array of
    entries after the call. *)
Definition new (opts : Options.t) : list Elem * result t :=
  let urls0 := match Options.urls opts with Some l => l | None => [] end in
  let cacheTime0 := match Options.cacheTime opts with Some c => c | None => 0 end in
  let level0 := match Options.level opts with Some l => l | None => WARN end in
  let xmlNs0 := match Options.xmlNs opts with
                | Some s => if truthy_string s then s else EmptyString
                | None => EmptyString
                end in
  match (if truthy_string xmlNs0
         then xmlNs_attributes (split " "%char xmlNs0) XMLElement.create
         else Ok XMLElement.create) with
  | Throw e => (urls0, Throw e)
  | Ok root0 =>
      match normalizeURLs urls0 (Options.hostname opts) with
      | (urls1, Throw e) => (urls1, Throw e)
      | (urls1, Ok urlMap) =>
          match validate_all (JSMap.values urlMap) level0 with
          | Throw e => (urls1, Throw e)
          | Ok _ =>
              (urls1,
               Ok (mk 5000 xmlNs0 0 urlMap cacheTime0 EmptyString root0
                      (Options.hostname opts) (Options.xslUrl opts)))
          end
      end
  end.

Definition clearCache (this : t) : t := with_cache EmptyString this.

(** [isCacheValid()], with [Date.now()] as [currTimestamp]. *)
Definition isCacheValid (currTimestamp : Z) (this : t) : bool :=
  truthy_number (cacheTime this) && truthy_string (cache this)
  && (cacheSetTimestamp this + cacheTime this >=? currTimestamp).

(** [setCache(newCache)], with [Date.now()] as [now]. *)
Definition setCache (newCache : string) (now : Z) (this : t) : t * string :=
  (with_cacheSetTimestamp now (with_cache newCache this), newCache).

Definition _normalizeURL (url : Elem) (this : t) : Elem * result Smi.t :=
  normalizeURL url (hostname this).

Definition add (url : Elem) (level : option ErrorLevel) (this : t)
  : Elem * t * result Z :=
  match _normalizeURL url this with
  | (url', Throw e) => (url', this, Throw e)
  | (url', Ok smi) =>
      match validateSMIOptions smi level with
      | Throw e => (url', this, Throw e)
      | Ok _ =>
          let m := JSMap.set (Smi.url smi) smi (urls this) in
          (url', with_urls m this, Ok (JSMap.size m))
      end
  end.

Definition contains (url : Elem) (this : t) : Elem * t * result bool :=
  match _normalizeURL url this with
  | (url', Throw e) => (url', this, Throw e)
  | (url', Ok smi) => (url', this, Ok (JSMap.has (Smi.url smi) (urls this)))
  end.

Definition del (url : Elem) (this : t) : Elem * t * result bool :=
  match _normalizeURL url this with
  | (url', Throw e) => (url', this, Throw e)
  | (url', Ok smi) =>
      let (m, existed) := JSMap.delete (Smi.url smi) (urls this) in
      (url', with_urls m this, Ok existed)
  end.

(** The six [root.att] calls of [toString]. *)
Definition default_namespaces : XMLElement.t -> XMLElement.t * result unit :=
  XMLElement.and_then
    (XMLElement.att "xmlns" "http://www.sitemaps.org/schemas/sitemap/0.9")
  (XMLElement.and_then
    (XMLElement.att "xmlns:news" "http://www.google.com/schemas/sitemap-news/0.9")
  (XMLElement.and_then
    (XMLElement.att "xmlns:xhtml" "http://www.w3.org/1999/xhtml")
  (XMLElement.and_then
    (XMLElement.att "xmlns:mobile" "http://www.google.com/schemas/sitemap-mobile/1.0")
  (XMLElement.and_then
    (XMLElement.att "xmlns:image" "http://www.google.com/schemas/sitemap-image/1.1")
    (XMLElement.att "xmlns:video" "http://www.google.com/schemas/sitemap-video/1.1"))))).

(** Lines 337-351: what [toString] does to the root before it looks at
    the cache. The first component is the root as these lines leave it, the
    second tells whether they threw. *)
Definition prepare_root (this : t) : XMLElement.t * result unit :=
  XMLElement.and_then
    (fun r => (match XMLElement.children r with
               | [] => r
               | _ => XMLElement.clear_children r
               end, Ok tt))
  (XMLElement.and_then
    (fun r => if truthy_string (xmlNs this) then (r, Ok tt)
              else default_namespaces r)
    (fun r => if truthy_ostring (xslUrl this)
              then XMLElement.instructionBefore "xml-stylesheet"
                     ("type=" ++ quoted "text/xsl" ++ " href="
                      ++ quoted (string_of (xslUrl this))) r
              else (r, Ok tt)))
    (root this).

(** The loop of lines 359-361. *)
Definition build_children (root : XMLElement.t) (this : t) : XMLElement.t :=
  fold_left (fun r smi => XMLElement.push_child (buildXML smi) r)
    (JSMap.values (urls this)) root.

(** [toString(pretty)]; [now] is the clock read by [isCacheValid] and
    [now'] the clock read by [setCache]. An exception of xmlbuilder leaves
    the method where it is thrown, with the root as it is then. *)
Definition toString (pretty : bool) (now now' : Z) (this : t)
  : t * result string :=
  match prepare_root this with
  | (r, Throw e) => (with_root r this, Throw e)
  | (r, Ok _) =>
      let this1 := with_root r this in
      if isCacheValid now this1 then (this1, Ok (cache this1))
      else
        let this2 := with_root (build_children (root this1) this1) this1 in
        let (this3, xml) :=
          setCache (XMLElement.end_ pretty (root this2)) now' this2 in
        (this3, Ok xml)
  end.

(** [toXML(pretty)] *)
Definition toXML (pretty : bool) (now now' : Z) (this : t) : t * result string :=
  toString pretty now now' this.

End Methods.
End Sitemap.

(* ================================================================== *)
(** ** StreamingEmitter: the transform [SitemapStream] *)

Definition preamble : string :=
  "<?xml version=" ++ quoted "1.0" ++ " encoding=" ++ quoted "UTF-8"
  ++ "?><urlset xmlns=" ++ quoted "http://www.sitemaps.org/schemas/sitemap/0.9"
  ++ " xmlns:news=" ++ quoted "http://www.google.com/schemas/sitemap-news/0.9"
  ++ " xmlns:xhtml=" ++ quoted "http://www.w3.org/1999/xhtml"
  ++ " xmlns:mobile=" ++ quoted "http://www.google.com/schemas/sitemap-mobile/1.0"
  ++ " xmlns:image=" ++ quoted "http://www.google.com/schemas/sitemap-image/1.1"
  ++ " xmlns:video=" ++ quoted "http://www.google.com/schemas/sitemap-video/1.1"
  ++ ">".

Definition closetag : string := "</urlset>".

Module SitemapStream.
(** The instance, together with the chunks handed to [this.push] so far
    (the readable side of the transform), oldest first. *)
Record t : Type := mk {
  hostname : option string;
  level : ErrorLevel;
  hasHeadOutput : bool;
  pushed : list string
}.

(** [new SitemapStream(opts)]; [opts.level || ErrorLevel.WARN]. *)
Definition new (opts_hostname : option string) (opts_level : option ErrorLevel) : t :=
  mk opts_hostname
     (match opts_level with Some l => l | None => WARN end)
     false [].

Definition push (chunk : string) (this : t) : t :=
  mk (hostname this) (level this) (hasHeadOutput this) (pushed this ++ [chunk]).

Definition set_hasHeadOutput (b : bool) (this : t) : t :=
  mk (hostname this) (level this) b (pushed this).

Section Methods.
Context {T : JSTypes} {I : Imports}.

Definition _transform (item : Elem) (this : t) : Elem * t * result unit :=
  let this1 := if negb (hasHeadOutput this)
               then push preamble (set_hasHeadOutput true this)
               else this in
  match normalizeURL item (hostname this1) with
  | (item', Throw e) => (item', this1, Throw e)
  | (item', Ok smi) =>
      match justItem smi (level this1) with
      | Throw e => (item', this1, Throw e)
      | Ok fragment => (item', push fragment this1, Ok tt)
      end
  end.

Definition _flush (this : t) : t := push closetag this.

(** The writable side: each entry written goes through [_transform], in
    order; an exception stops the stream. *)
Fixpoint write_all (items : list Elem) (this : t) : list Elem * t * result unit :=
  match items with
  | [] => ([], this, Ok tt)
  | item :: rest =>
      match _transform item this with
      | (item', this1, Throw e) => (item' :: rest, this1, Throw e)
      | (item', this1, Ok _) =>
          match write_all rest this1 with
          | (rest', this2, r) => (item' :: rest', this2, r)
          end
      end
  end.

(** Entries written one after the other, then the end of the stream,
    where [_flush] runs. *)
Definition run (items : list Elem) (this : t) : list Elem * t * result unit :=
  match write_all items this with
  | (items', this1, Ok _) => (items', _flush this1, Ok tt)
  | (items', this1, Throw e) => (items', this1, Throw e)
  end.

(** The fragment one entry contributes. *)
Definition fragment_of (hostname : option string) (level : ErrorLevel)
    (item : Elem) : result string :=
  result_bind (snd (normalizeURL item hostname)) (fun smi => justItem smi level).
End Methods.
End SitemapStream.

(* ================================================================== *)
(** ** IndexOrchestrator: [createSitemapIndex] *)

(** Modelled from the spec: the file-system collaborator of spec section 6,
    as the directories that exist and the files written, oldest first. *)
Module FileSystem.
Record t : Type := mk {
  directories : list string;
  files : list (string * string)
}.

Definition isDirectory (path : string) (fs : t) : bool :=
  existsb (String.eqb path) (directories fs).

Definition writeFile (path content : string) (fs : t) : t :=
  mk (directories fs) (files fs ++ [(path, content)]).
End FileSystem.

(** Modelled from the spec: the kinds of failure spec section 7 tells
    apart (bad input data, bad configuration, collaborator failure). *)
Inductive ErrorKind : Type :=
| BadInputData
| BadConfiguration
| CollaboratorFailure.

Definition error_kind (e : exn) : ErrorKind :=
  match e with
  | TypeError_InvalidURL _ => BadInputData
  | TypeError_Undefined => BadInputData
  | RangeError_InvalidTime => BadInputData
  | ValidationError _ => BadInputData
  | XMLBuilderError _ => BadInputData
  | ENOENT _ => CollaboratorFailure
  | UndefinedTargetFolder => BadConfiguration
  end.

Fixpoint string_of_nat_aux (fuel n : nat) (acc : string) : string :=
  let d := String (ascii_of_nat (48 + Nat.modulo n 10)) acc in
  match fuel with
  | O => d
  | S fuel' =>
      match Nat.div n 10 with
      | O => d
      | n' => string_of_nat_aux fuel' n' d
      end
  end.

Definition string_of_nat (n : nat) : string := string_of_nat_aux n n EmptyString.

Module SitemapIndex.
(** Modelled from the spec: the options of [createSitemapIndex], as the
    test passes them. *)
Record conf {T : JSTypes} : Type := mk {
  urls : list Elem;
  targetFolder : option string;
  hostname : option string;
  cacheTime : option Z;
  sitemapName : string;
  sitemapSize : nat;
  xslUrl : option string;
  gzip : bool
}.
Arguments mk {T}.

Section Orchestrator.
Context {T : JSTypes} {I : Imports}.
(** The compression collaborator and the index-document builder. *)
Variable gzipSync : string -> string.
Variable buildSitemapIndex : list string -> option string -> string.

Fixpoint chunk_aux {A} (fuel size : nat) (l : list A) : list (list A) :=
  match fuel, l with
  | S fuel', _ :: _ => firstn size l :: chunk_aux fuel' size (skipn size l)
  | _, _ => []
  end.

(** Consecutive chunks of at most [size] entries, in the original order. *)
Definition chunk {A} (size : nat) (l : list A) : list (list A) :=
  match size with
  | O => []
  | _ => chunk_aux (List.length l) size l
  end.

Definition target_configured (c : conf) (fs : FileSystem.t) : bool :=
  match targetFolder c with
  | Some dir => FileSystem.isDirectory dir fs
  | None => false
  end.

Definition chunk_file_name (c : conf) (index : nat) : string :=
  sitemapName c ++ "-" ++ string_of_nat index ++ ".xml"
  ++ (if gzip c then ".gz" else EmptyString).

(** One document per chunk, each handed to the file system; the names of
    the documents written are accumulated for the index. *)
Fixpoint write_chunks (c : conf) (dir : string) (now : Z) (index : nat)
    (chunks : list (list Elem)) (fs : FileSystem.t)
  : FileSystem.t * result (list string) :=
  match chunks with
  | [] => (fs, Ok [])
  | ch :: rest =>
      match Sitemap.new (Options.mk (Some ch) (hostname c) (cacheTime c)
                           (xslUrl c) None None) with
      | (_, Throw e) => (fs, Throw e)
      | (_, Ok sm) =>
          match snd (Sitemap.toString false now now sm) with
          | Throw e => (fs, Throw e)
          | Ok xml =>
              let name := chunk_file_name c index in
              let fs1 := FileSystem.writeFile (dir ++ "/" ++ name)
                           (if gzip c then gzipSync xml else xml) fs in
              match write_chunks c dir now (S index) rest fs1 with
              | (fs2, Ok names) =>
                  (fs2, Ok ((string_of (hostname c) ++ "/" ++ name) :: names))
              | (fs2, Throw e) => (fs2, Throw e)
              end
          end
      end
  end.

(** Modelled from the spec: [createSitemapIndex] lives in the
    sitemap-index module, which is not among the sources; only its test
    is. Spec section 4.5: the target location is checked first and the
    call fails with the configuration error when it is not there; then
    the entries are cut into chunks of at most [sitemapSize], each chunk
    becomes a document handed to the file system, and the index document
    referencing them is written last. The test expects the failure to be
    [UndefinedTargetFolder] and the files [name-i.xml(.gz)] and
    [name-index.xml]. *)
Definition createSitemapIndex (c : conf) (now : Z) (fs : FileSystem.t)
  : FileSystem.t * result bool :=
  if negb (target_configured c fs) then (fs, Throw UndefinedTargetFolder)
  else
    let dir := string_of (targetFolder c) in
    match write_chunks c dir now 0 (chunk (sitemapSize c) (urls c)) fs with
    | (fs1, Throw e) => (fs1, Throw e)
    | (fs1, Ok names) =>
        (FileSystem.writeFile (dir ++ "/" ++ sitemapName c ++ "-index.xml")
           (buildSitemapIndex names (xslUrl c)) fs1,
         Ok true)
    end.
End Orchestrator.
End SitemapIndex.

(* ================================================================== *)
(** ** A small concrete platform

    An instance of the interfaces on which the definitions above evaluate.
    It agrees with Node on the inputs used below: an absolute URL with a
    path is its own serialization, a path starting with a slash resolved
    against an origin is the origin followed by the path, and anything else
    does not parse. It is kept small: an entry is rendered by its [loc]
    alone, whatever the pretty flag, a number is its numeral, and the clock
    and the disk know a handful of dates and one file. The theorems do not
    depend on it; they hold for every platform. *)

Module Sample.

#[export] Instance types : JSTypes := {|
  number := string;            (* a number, by its decimal numeral *)
  ItemExt := option string;    (* changefreq *)
  ItemExt_none := None;
  VideoExt := unit;
  XMLNode := string
|}.

Definition url_href (input : string) (base : option string) : result string :=
  if is_absolute input then Ok input
  else match base with
       | Some b =>
           if is_absolute b then Ok (b ++ input)
           else Throw (TypeError_InvalidURL input)
       | None => Throw (TypeError_InvalidURL input)
       end.

(** One file exists, last modified on 2019-07-01. *)
Definition stat_mtime (path : string) : result Z :=
  if String.eqb path "/srv/www/index.html" then Ok 1561939200000
  else Throw (ENOENT path).

Definition parse_date (s : string) : option Z :=
  if String.eqb s "2018-11-26" then Some 1543190400000
  else if String.eqb s "2018-11-26T00:00:00.000Z" then Some 1543190400000
  else if String.eqb s "2019-07-01" then Some 1561939200000
  else if String.eqb s "1970-01-01" then Some 0
  else None.

Definition iso_of_time (t : Z) : string :=
  if t =? 1543190400000 then "2018-11-26T00:00:00.000Z"
  else if t =? 1561939200000 then "2019-07-01T00:00:00.000Z"
  else "1970-01-01T00:00:00.000Z".

Definition loc_element (url : string) : string :=
  "<url><loc>" ++ url ++ "</loc></url>".

(** Strict level rejects an entry with a video that has no title. *)
Definition validate (smi : Smi.t) (level : option ErrorLevel)
  : result unit :=
  match level with
  | Some ERROR =>
      if existsb (fun v => negb (truthy_string (Video.title v))) (Smi.video smi)
      then Throw (ValidationError "InvalidVideoTitle")
      else Ok tt
  | _ => Ok tt
  end.

#[export] Instance imports : Imports := {|
  URL_toString := url_href;
  statSync_mtime := stat_mtime;
  Date_parse := parse_date;
  Date_toISOString := iso_of_time;
  parseFloat := fun s => s;
  number_toString := fun n => n;
  validateSMIOptions := validate;
  buildXML := fun smi => loc_element (Smi.url smi);
  XMLNode_toString := fun _ n => n;
  justItem := fun smi _ => Ok (loc_element (Smi.url smi))
|}.

Definition host : option string := Some "http://example.com".

(** [{url: '/a', img: 'pic.jpg' ...}] and the like. *)
Definition entry (url : string) (img : option ImgField)
    (video : option VideoField) (lastmod : option string) : Loose.t :=
  Loose.mk url img video None lastmod None None None.

Definition clip : VideoLoose.t :=
  VideoLoose.mk "/thumb.jpg" "A clip" "What the clip shows" None None
    (Some (YNBool true)) None None (Some (TagOne "demo"))
    (Some (IsStr "4.5")) None tt.

(** An entry with an image, a video and an alternate link. *)
Definition page_with_clip : Elem :=
  ElemObj (Loose.mk "/a" (Some (ImgOne (ImgStr "/pic.jpg")))
             (Some (VideoOne clip))
             (Some [Link.mk "de" "/de/a"]) None None None None).

(** [new Sitemap({hostname: 'http://example.com', cacheTime, xslUrl})] *)
Definition sitemap_options (urls : list Elem) (cacheTime : Z)
    (xslUrl : option string) : Options.t :=
  Options.mk (Some urls) host (Some cacheTime) xslUrl None None.

Definition empty_sitemap : Sitemap.t :=
  Sitemap.mk 5000 EmptyString 0 JSMap.empty 0 EmptyString XMLElement.create
    host None.

(** [new Sitemap({urls: ['/a'], hostname, cacheTime, xslUrl: '/style.xsl'})] *)
Definition styled_sitemap (cacheTime : Z) : Sitemap.t :=
  match snd (Sitemap.new (sitemap_options [ElemStr "/a"] cacheTime
                            (Some "/style.xsl"))) with
  | Ok sm => sm
  | Throw _ => empty_sitemap
  end.

(** The call of the sitemap-index test: two entries, one per document. *)
Definition index_conf (targetFolder : option string) : SitemapIndex.conf :=
  SitemapIndex.mk [ElemStr "http://ya.ru/"; ElemStr "http://ya2.ru/"]
    targetFolder (Some "https://www.sitemap.org") (Some 600000)
    "sm-test" 1 None false.

(** A disk on which /tmp exists and /tmp2 does not. *)
Definition disk : FileSystem.t := FileSystem.mk ["/tmp"] [].

Definition index_document (names : list string) (xslUrl : option string) : string :=
  "<sitemapindex>"
  ++ String.concat EmptyString
       (map (fun n => "<sitemap><loc>" ++ n ++ "</loc></sitemap>") names)
  ++ "</sitemapindex>".

(** The strict entry of an entry that normalizes under [host]. *)
Definition strict_of (e : Elem) : Smi.t :=
  match snd (normalizeURL e host) with
  | Ok smi => smi
  | Throw _ => Smi.mk EmptyString [] [] [] None None None None
  end.

(** An entry with all three last-modified sources. *)
Definition page_dated (lastmodfile lastmodISO lastmod : option string) : Elem :=
  ElemObj (Loose.mk "/a" None None None lastmod lastmodISO lastmodfile None).

End Sample.

(* ================================================================== *)
(** ** Vocabulary of the statements *)

Section Vocabulary.
Context {T : JSTypes}.

(** The URL an entry is given by. *)
Definition Elem_url (e : Elem) : string :=
  match e with
  | ElemStr s => s
  | ElemObj o => Loose.url o
  end.

(** The object [normalizeURL] works on: the entry itself, or [{url: elem}]
    for a bare string. *)
Definition Elem_loose (e : Elem) : Loose.t :=
  match e with
  | ElemStr s => Loose.of_url s
  | ElemObj o => o
  end.

(** The array form lines 237-243 leave in [img]. *)
Definition img_as_array (i : option ImgField) : option ImgField :=
  match i with
  | Some (ImgOne (ImgStr s)) =>
      if truthy_string s then Some (ImgMany [ImgObj (Img.of_url s)]) else i
  | Some (ImgOne (ImgObj x)) => Some (ImgMany [ImgObj x])
  | _ => i
  end.

(** The array form lines 261-264 leave in [video]. *)
Definition video_as_array (v : option VideoField) : option VideoField :=
  match v with
  | Some (VideoOne x) => Some (VideoMany [x])
  | _ => v
  end.

(** The image descriptors of a loose entry, as the normalizer reads them. *)
Definition loose_images (i : option ImgField) : list Img.t :=
  match img_as_array i with
  | Some (ImgMany l) =>
      map (fun el => match el with ImgStr s => Img.of_url s | ImgObj x => x end) l
  | _ => []
  end.

Definition loose_links (l : option (list Link.t)) : list Link.t :=
  match l with Some links => links | None => [] end.

Definition loose_videos (v : option VideoField) : list VideoLoose.t :=
  match v with
  | Some (VideoOne x) => [x]
  | Some (VideoMany l) => l
  | None => []
  end.

(** The caller's object once lines 236-246 have run. *)
Definition Loose_after_img (o : Loose.t) : Loose.t :=
  Loose.mk (Loose.url o) (img_as_array (Loose.img o)) (Loose.video o)
    (Loose.links o) (Loose.lastmod o) (Loose.lastmodISO o)
    (Loose.lastmodfile o) (Loose.ext o).

(** The caller's object once lines 260-264 have run as well. *)
Definition Loose_after (o : Loose.t) : Loose.t :=
  Loose.mk (Loose.url o) (img_as_array (Loose.img o))
    (video_as_array (Loose.video o))
    (Loose.links o) (Loose.lastmod o) (Loose.lastmodISO o)
    (Loose.lastmodfile o) (Loose.ext o).

Definition Elem_after (e : Elem) : Elem :=
  match e with
  | ElemStr s => ElemStr s
  | ElemObj o => ElemObj (Loose_after o)
  end.

(** An optional string property is given when it is set to a string that
    the test [if (x)] accepts, that is, to a non-empty string. *)
Definition given (o : option string) : Prop := truthy_ostring o = true.

(** The URLs a video descriptor carries. *)
Definition video_urls (v : Video.t) : list string :=
  (Video.thumbnail_loc v
   :: match Video.content_loc v with Some u => [u] | None => [] end
   ++ match Video.player_loc v with Some u => [u] | None => [] end)%list.

(** The URLs a loose video descriptor carries. *)
Definition loose_video_urls (v : VideoLoose.t) : list string :=
  (VideoLoose.thumbnail_loc v
   :: match VideoLoose.content_loc v with Some u => [u] | None => [] end
   ++ match VideoLoose.player_loc v with Some u => [u] | None => [] end)%list.

(** Every URL of a strict entry. *)
Definition strict_urls (smi : Smi.t) : list string :=
  (Smi.url smi :: map Img.url (Smi.img smi)
   ++ map Link.url (Smi.links smi)
   ++ flat_map video_urls (Smi.video smi))%list.

Definition all_absolute (l : list string) : bool := forallb is_absolute l.
End Vocabulary.

Section DocumentVocabulary.
Context {T : JSTypes} {I : Imports}.

(** What [toString] comes to when it does not answer from the cache: the
    document built from the root as lines 337-351 leave it, or the
    exception these lines throw. *)
Definition fresh_xml (pretty : bool) (this : Sitemap.t) : result string :=
  match Sitemap.prepare_root this with
  | (r, Ok _) => Ok (XMLElement.end_ pretty (Sitemap.build_children r this))
  | (_, Throw e) => Throw e
  end.

(** The attributes of a root after the six [root.att] calls. *)
Definition default_namespace_attribs (m : JSMap.t string) : JSMap.t string :=
  XMLElement.attribs (fst (Sitemap.default_namespaces (XMLElement.mk m [] []))).

(** The length of the string a call returned, 0 when it threw. *)
Definition returned_length (r : result string) : nat :=
  match r with
  | Ok xml => String.length xml
  | Throw _ => 0
  end.

(** The value of the stylesheet instruction passes xmlbuilder's checks, or
    the document has no stylesheet URL. *)
Definition stylesheet_legal (this : Sitemap.t) : bool :=
  if truthy_ostring (Sitemap.xslUrl this)
  then is_ok (XMLElement.insValue
                ("type=" ++ quoted "text/xsl" ++ " href="
                 ++ quoted (string_of (Sitemap.xslUrl this))))
  else true.

(** The document of the root is as xmlbuilder keeps it while no call has
    thrown: the declaration, the processing instructions, the root. *)
Definition intact (root : XMLElement.t) : Prop :=
  XMLElement.document root
  = (XMLElement.XMLDeclaration
     :: map (fun pi => XMLElement.XMLProcessingInstruction (fst pi) (snd pi))
          (XMLElement.instructions root)
     ++ [XMLElement.RootElement])%list.

(** The processing instruction [toString] asks for. *)
Definition stylesheet_instruction (href : string) : string * string :=
  ("xml-stylesheet", "type=" ++ quoted "text/xsl" ++ " href=" ++ quoted href).

(** The cache slot of a document. *)
Definition cache_slot (this : Sitemap.t) : string * Z * Z :=
  (Sitemap.cache this, Sitemap.cacheSetTimestamp this, Sitemap.cacheTime this).
End DocumentVocabulary.

(* ================================================================== *)
(** ** The remaining functions of sitemap.ts *)

Section Remaining.
Context {T : JSTypes} {I : Imports}.

(** [createSitemap(conf)], the shortcut for [new Sitemap(conf)]. *)
Definition createSitemap (conf : Options.t) : list Elem * result Sitemap.t :=
  Sitemap.new conf.


(** zlib's [gzipSync], on strings of bytes. *)
Variable gzipSync : string -> string.

End Remaining.

(* ================================================================== *)
(** ** Further vocabulary *)

Section MoreVocabulary.
Context {T : JSTypes} {I : Imports}.

(** A strict video descriptor read as a loose one: flags already yes/no,
    tags already a list, rating already a number, view count already a
    string. *)
Definition Video_as_loose (v : Video.t) : VideoLoose.t :=
  VideoLoose.mk (Video.thumbnail_loc v) (Video.title v) (Video.description v)
    (Video.content_loc v) (Video.player_loc v)
    (option_map YNEnum (Video.family_friendly v))
    (option_map YNEnum (Video.live v))
    (option_map YNEnum (Video.requires_subscription v))
    (Some (TagMany (Video.tag v)))
    (option_map IsNum (Video.rating v))
    (option_map IsStr (Video.view_count v))
    (Video.ext v).

(** Every entry of the collection is stored under its own URL. *)
Definition keyed_by_url (m : JSMap.t Smi.t) : Prop :=
  Forall (fun kv => fst kv = Smi.url (snd kv)) m.

(** The collection of a document: distinct keys, each the URL of its entry. *)
Definition urls_invariant (this : Sitemap.t) : Prop :=
  JSMap.wf (Sitemap.urls this) /\ keyed_by_url (Sitemap.urls this).

(** The strict entries of a list of entries, in order, when all normalize. *)
Definition strict_entries (urls : list Elem) (hostname : option string)
  : result (list Smi.t) :=
  mapR (fun elem => snd (normalizeURL elem hostname)) urls.

(** The collection obtained by storing strict entries one after the other. *)
Definition collect (smis : list Smi.t) (m : JSMap.t Smi.t) : JSMap.t Smi.t :=
  fold_left (fun acc smi => JSMap.set (Smi.url smi) smi acc) smis m.

(** The character occurs in the string. *)
Fixpoint occurs (c : ascii) (s : string) : bool :=
  match s with
  | EmptyString => false
  | String c' s' => Ascii.eqb c' c || occurs c s'
  end.

(** The string [k1="v1" k2="v2" ...] for a list of attributes. *)
Definition xmlNs_of (kvs : list (string * string)) : string :=
  String.concat " " (map (fun kv => fst kv ++ "=" ++ quoted (snd kv)) kvs).

(** Every character of the string passes the test. *)
Fixpoint all_chars (p : ascii -> bool) (s : string) : bool :=
  match s with
  | EmptyString => true
  | String c s' => p c && all_chars p s'
  end.

(** A visible ASCII character other than the equals sign. *)
Definition plain_char (c : ascii) : bool :=
  let n := nat_of_ascii c in
  (33 <=? n)%nat && (n <=? 126)%nat && negb (Ascii.eqb c "=").

(** An attribute value of visible ASCII characters, none an equals sign. *)
Definition plain (s : string) : bool := all_chars plain_char s.

Definition name_start_char (c : ascii) : bool :=
  is_alpha c || Ascii.eqb c "_" || Ascii.eqb c ":".

Definition name_char (c : ascii) : bool :=
  let n := nat_of_ascii c in
  name_start_char c || ((48 <=? n)%nat && (n <=? 57)%nat)
  || Ascii.eqb c "-" || Ascii.eqb c ".".

(** An XML name in ASCII, the names xmlbuilder takes for an attribute. *)
Definition xml_name (s : string) : bool :=
  match s with
  | EmptyString => false
  | String c s' => name_start_char c && all_chars name_char s'
  end.

(** The root after [root.attribute(k, v)] for each attribute in turn. *)
Definition with_attributes (kvs : list (string * string)) (root : XMLElement.t)
  : XMLElement.t :=
  fold_left (fun r kv => fst (XMLElement.att (fst kv) (snd kv) r)) kvs root.

(** One list is the beginning of the other. *)
Definition is_prefix {A} (l l' : list A) : Prop := exists rest, l' = (l ++ rest)%list.
End MoreVocabulary.

Section MoreSamples.
Import Sample.

(** An entry with an absolute URL and a relative image URL: without a
    hostname the image URL does not parse. *)
Definition page_relative_image : Elem :=
  ElemObj (Loose.mk "http://example.com/a" (Some (ImgOne (ImgStr "/pic.jpg")))
             (Some (VideoOne Sample.clip)) None None None None None).

(** An entry with an absolute URL, an image and a video, and a last-modified
    date that is no date. *)
Definition page_bad_date : Elem :=
  ElemObj (Loose.mk "http://example.com/a"
             (Some (ImgOne (ImgStr "http://example.com/pic.jpg")))
             (Some (VideoOne Sample.clip)) None (Some "yesterday") None None
             None).

(** A document holding /a and /b, in that order. *)
Definition two_pages : Sitemap.t :=
  match snd (Sitemap.new (Sample.sitemap_options [ElemStr "/a"; ElemStr "/b"]
                            1000 None)) with
  | Ok sm => sm
  | Throw _ => Sample.empty_sitemap
  end.

(** [new Sitemap({urls: ['/a'], hostname, cacheTime: 1000, xslUrl: 'a?>b'})]:
    a stylesheet URL that holds the closing mark of a processing
    instruction. *)
Definition broken_stylesheet_sitemap : Sitemap.t :=
  match snd (Sitemap.new (Sample.sitemap_options [ElemStr "/a"] 1000
                            (Some "a?>b"))) with
  | Ok sm => sm
  | Throw _ => Sample.empty_sitemap
  end.
End MoreSamples.

(* ================================================================== *)
(** * Properties *)

(** ** The keyed collection *)

Section JSMapFacts.
Context {V : Type}.
Implicit Types (m : JSMap.t V) (k : string) (v : V).

Lemma JSMap_get_set_same k v m : JSMap.get k (JSMap.set k v m) = Some v.
Proof.
  induction m as [|[k' v'] m IH]; simpl.
  - now rewrite String.eqb_refl.
  - destruct (String.eqb k k') eqn:E; simpl.
    + now rewrite String.eqb_refl.
    + now rewrite E.
Qed.

Lemma JSMap_get_set_other k k' v m :
  k <> k' -> JSMap.get k (JSMap.set k' v m) = JSMap.get k m.
Proof.
  intros Hne. induction m as [|[k0 v0] m IH]; simpl.
  - apply String.eqb_neq in Hne. now rewrite Hne.
  - destruct (String.eqb k' k0) eqn:E; simpl.
    + apply String.eqb_eq in E; subst k0.
      apply String.eqb_neq in Hne. now rewrite Hne.
    + now rewrite IH.
Qed.

Lemma JSMap_has_set_same k v m : JSMap.has k (JSMap.set k v m) = true.
Proof. unfold JSMap.has. now rewrite JSMap_get_set_same. Qed.

Lemma JSMap_size_set_present k v m :
  JSMap.has k m = true -> JSMap.size (JSMap.set k v m) = JSMap.size m.
Proof.
  unfold JSMap.has, JSMap.size. intros H. f_equal.
  induction m as [|[k' v'] m IH]; simpl in *; [discriminate|].
  destruct (String.eqb k k'); simpl; [reflexivity|].
  now rewrite IH.
Qed.

Lemma JSMap_size_set_absent k v m :
  JSMap.has k m = false -> JSMap.size (JSMap.set k v m) = JSMap.size m + 1.
Proof.
  unfold JSMap.has, JSMap.size. intros H.
  assert (List.length (JSMap.set k v m) = S (List.length m)) as ->; [|lia].
  induction m as [|[k' v'] m IH]; simpl in *; [reflexivity|].
  destruct (String.eqb k k'); simpl; [discriminate|].
  now rewrite IH.
Qed.

Lemma JSMap_keys_set_present k v m :
  JSMap.has k m = true -> JSMap.keys (JSMap.set k v m) = JSMap.keys m.
Proof.
  unfold JSMap.has, JSMap.keys.
  induction m as [|[k' v'] m IH]; simpl; [discriminate|].
  destruct (String.eqb k k') eqn:E; simpl; intros H.
  - apply String.eqb_eq in E. now subst.
  - now rewrite IH.
Qed.

Lemma JSMap_keys_set_absent k v m :
  JSMap.has k m = false -> JSMap.keys (JSMap.set k v m) = (JSMap.keys m ++ [k])%list.
Proof.
  unfold JSMap.has, JSMap.keys.
  induction m as [|[k' v'] m IH]; simpl; [reflexivity|].
  destruct (String.eqb k k') eqn:E; simpl; intros H; [discriminate|].
  now rewrite IH.
Qed.

Lemma JSMap_has_keys k m : JSMap.has k m = true <-> In k (JSMap.keys m).
Proof.
  unfold JSMap.has, JSMap.keys.
  induction m as [|[k' v'] m IH]; simpl.
  - split; [discriminate|tauto].
  - destruct (String.eqb k k') eqn:E.
    + apply String.eqb_eq in E. subst. tauto.
    + apply String.eqb_neq in E. rewrite IH. split; [tauto|].
      intros [H|H]; [congruence|assumption].
Qed.

Lemma JSMap_get_remove_same k m : JSMap.get k (JSMap.remove k m) = None.
Proof.
  unfold JSMap.remove.
  induction m as [|[k' v'] m IH]; simpl; [reflexivity|].
  destruct (String.eqb k k') eqn:E; simpl; [assumption|].
  now rewrite E.
Qed.

Lemma JSMap_has_remove_same k m : JSMap.has k (JSMap.remove k m) = false.
Proof. unfold JSMap.has. now rewrite JSMap_get_remove_same. Qed.

Lemma JSMap_get_remove_other k k' m :
  k <> k' -> JSMap.get k (JSMap.remove k' m) = JSMap.get k m.
Proof.
  intros Hne. unfold JSMap.remove.
  induction m as [|[k0 v0] m IH]; simpl; [reflexivity|].
  destruct (String.eqb k' k0) eqn:E; simpl.
  - apply String.eqb_eq in E; subst k0.
    apply String.eqb_neq in Hne. now rewrite Hne.
  - now rewrite IH.
Qed.

Lemma JSMap_wf_empty : JSMap.wf (@JSMap.empty V).
Proof. constructor. Qed.

Lemma JSMap_wf_set k v m : JSMap.wf m -> JSMap.wf (JSMap.set k v m).
Proof.
  unfold JSMap.wf. intros Hwf.
  destruct (JSMap.has k m) eqn:E.
  - now rewrite JSMap_keys_set_present.
  - rewrite JSMap_keys_set_absent by assumption.
    apply NoDup_app; [assumption|repeat constructor; intros []|].
    intros x Hx [<-|[]]. apply JSMap_has_keys in Hx. congruence.
Qed.

Lemma JSMap_wf_remove k m : JSMap.wf m -> JSMap.wf (JSMap.remove k m).
Proof.
  unfold JSMap.wf, JSMap.keys, JSMap.remove.
  induction m as [|[k' v'] m IH]; simpl; intros Hwf; [constructor|].
  inversion Hwf as [|? ? Hnin Hnd]; subst.
  destruct (String.eqb k k'); simpl; [auto|].
  constructor; [|auto].
  intros Hin. apply Hnin. apply in_map_iff in Hin as [[k0 v0] [<- Hin]].
  apply filter_In in Hin as [Hin _]. now apply (in_map fst) in Hin.
Qed.

(** On a well-formed map, removing a key takes away exactly one entry
    when the key was there and nothing otherwise. *)
Lemma JSMap_size_remove k m :
  JSMap.wf m ->
  JSMap.size (JSMap.remove k m)
  = if JSMap.has k m then JSMap.size m - 1 else JSMap.size m.
Proof.
  unfold JSMap.wf, JSMap.keys, JSMap.remove, JSMap.has, JSMap.size.
  induction m as [|[k' v'] m IH]; intros Hwf; [reflexivity|].
  inversion Hwf as [|? ? Hnin Hnd]; subst.
  specialize (IH Hnd).
  cbn [filter fst JSMap.get].
  destruct (String.eqb k k') eqn:E; cbn [negb List.length];
    rewrite ?Nat2Z.inj_succ.
  - apply String.eqb_eq in E; subst k'.
    assert (JSMap.has k m = false) as Hno.
    { destruct (JSMap.has k m) eqn:Hh; [|reflexivity].
      apply JSMap_has_keys in Hh. contradiction. }
    unfold JSMap.has in Hno.
    destruct (JSMap.get k m); [discriminate|]. lia.
  - destruct (JSMap.get k m); lia.
Qed.
End JSMapFacts.

(** ** The normalizer, step by step *)

Section NormalizerFacts.
Context {T : JSTypes} {I : Imports}.

(** [normalizeURL_obj] read off as nested case distinctions: which
    exception leaves which writes behind, and what the strict entry is. *)
Lemma normalizeURL_obj_eq (h : option string) (o : Loose.t) :
  normalizeURL_obj h o =
  match URL_toString (Loose.url o) h with
  | Throw e => (o, Throw e)
  | Ok url =>
      match mapR (resolve_img h) (loose_images (Loose.img o)) with
      | Throw e => (Loose_after_img o, Throw e)
      | Ok imgs =>
          match mapR (resolve_link h) (loose_links (Loose.links o)) with
          | Throw e => (Loose_after_img o, Throw e)
          | Ok links =>
              match computed_lastmod o with
              | Throw e => (Loose_after o, Throw e)
              | Ok lm =>
                  (Loose_after o,
                   Ok (Smi.mk url imgs
                         (map normalize_video (loose_videos (Loose.video o)))
                         links
                         (match lm with
                          | Some iso => Some iso
                          | None => Loose.lastmod o
                          end)
                         (Loose.lastmodISO o) (Loose.lastmodfile o)
                         (Loose.ext o)))
              end
          end
      end
  end.
Proof.
  remember (computed_lastmod o) as lm eqn:Hlm.
  destruct o as [url img video links lastmod lastmodISO lastmodfile ext].
  unfold normalizeURL_obj, bind, get, lift, ret, Loose_after_img, Loose_after.
  cbn [Loose.url Loose.img Loose.video Loose.links Loose.lastmod
       Loose.lastmodISO Loose.lastmodfile Loose.ext].
  rewrite <- Hlm. clear Hlm.
  destruct (URL_toString url h) as [u|e]; [|reflexivity].
  destruct img as [[[[|c s]|x]|l]|];
    unfold loose_images, img_as_array, truthy_img, truthy_string,
      arrayify_img, bind, get, modify, ret, Loose.set_img;
    cbn [Loose.url Loose.img Loose.video Loose.links Loose.lastmod
         Loose.lastmodISO Loose.lastmodfile Loose.ext map img_elements
         img_of_el mapR result_bind];
    try (destruct (resolve_img h _) as [?|?]; cbn [result_bind]; [|reflexivity]);
    try (destruct (mapR (resolve_img h) _) as [?|?]; [|reflexivity]);
    unfold loose_links; cbn [Loose.links];
    (destruct (mapR (resolve_link h) _) as [?|?]; [|reflexivity]);
    (destruct video as [[v|vs]|];
     unfold arrayify_video, bind, get, modify, ret, Loose.set_video,
       video_as_array, loose_videos;
     cbn [Loose.url Loose.img Loose.video Loose.links Loose.lastmod
          Loose.lastmodISO Loose.lastmodfile Loose.ext video_elements];
     destruct lm as [?|?]; reflexivity).
Qed.
End NormalizerFacts.

Section NormalizeURLFacts.
Context {T : JSTypes} {I : Imports}.

Lemma img_as_array_idem (i : option ImgField) :
  img_as_array (img_as_array i) = img_as_array i.
Proof. destruct i as [[[[|c s]|x]|l]|]; reflexivity. Qed.

Lemma video_as_array_idem (v : option VideoField) :
  video_as_array (video_as_array v) = video_as_array v.
Proof. destruct v as [[x|l]|]; reflexivity. Qed.

Lemma loose_images_as_array (i : option ImgField) :
  loose_images (img_as_array i) = loose_images i.
Proof. unfold loose_images. now rewrite img_as_array_idem. Qed.

Lemma loose_videos_as_array (v : option VideoField) :
  loose_videos (video_as_array v) = loose_videos v.
Proof. destruct v as [[x|l]|]; reflexivity. Qed.

Lemma Loose_after_idem (o : Loose.t) : Loose_after (Loose_after o) = Loose_after o.
Proof.
  unfold Loose_after; cbn.
  now rewrite img_as_array_idem, video_as_array_idem.
Qed.

Lemma Loose_after_img_after (o : Loose.t) :
  Loose_after_img (Loose_after o) = Loose_after o.
Proof. unfold Loose_after_img, Loose_after; cbn. now rewrite img_as_array_idem. Qed.

Lemma Loose_after_arrays (o : Loose.t) :
  img_as_array (Loose.img o) = Loose.img o ->
  video_as_array (Loose.video o) = Loose.video o ->
  Loose_after o = o.
Proof.
  destruct o; unfold Loose_after; cbn. now intros -> ->.
Qed.

Lemma computed_lastmod_after (o : Loose.t) :
  computed_lastmod (Loose_after o) = computed_lastmod o.
Proof. reflexivity. Qed.

(** A bare string has no metadata: only its URL can fail to resolve. *)
Lemma normalizeURL_string (s : string) (h : option string) :
  normalizeURL (ElemStr s) h =
  (ElemStr s,
   result_bind (URL_toString s h)
     (fun url => Ok (Smi.mk url [] [] [] None None None ItemExt_none))).
Proof.
  unfold normalizeURL. rewrite normalizeURL_obj_eq. cbn.
  destruct (URL_toString s h); reflexivity.
Qed.

(** The URL an entry is given by is never written. *)
Lemma normalizeURL_keeps_url (elem : Elem) (h : option string) :
  Elem_url (fst (normalizeURL elem h)) = Elem_url elem.
Proof.
  destruct elem as [s|o]; [reflexivity|].
  unfold normalizeURL. rewrite normalizeURL_obj_eq.
  destruct (URL_toString _ _); [|reflexivity].
  destruct (mapR (resolve_img h) _); [|reflexivity].
  destruct (mapR (resolve_link h) _); [|reflexivity].
  destruct (computed_lastmod o); reflexivity.
Qed.

(** A successful normalization, taken apart. *)
Lemma normalizeURL_ok_inv (elem elem' : Elem) (h : option string) (smi : Smi.t) :
  normalizeURL elem h = (elem', Ok smi) ->
  let o := Elem_loose elem in
  elem' = Elem_after elem
  /\ URL_toString (Loose.url o) h = Ok (Smi.url smi)
  /\ mapR (resolve_img h) (loose_images (Loose.img o)) = Ok (Smi.img smi)
  /\ mapR (resolve_link h) (loose_links (Loose.links o)) = Ok (Smi.links smi)
  /\ Smi.video smi = map normalize_video (loose_videos (Loose.video o))
  /\ (exists lm, computed_lastmod o = Ok lm
                 /\ Smi.lastmod smi = match lm with
                                      | Some iso => Some iso
                                      | None => Loose.lastmod o
                                      end)
  /\ Smi.lastmodISO smi = Loose.lastmodISO o
  /\ Smi.lastmodfile smi = Loose.lastmodfile o
  /\ Smi.ext smi = Loose.ext o.
Proof.
  intros H o. subst o.
  destruct elem as [s|o].
  - rewrite normalizeURL_string in H. cbn.
    destruct (URL_toString s h) as [u|e]; cbn in H; inversion H; subst; cbn.
    repeat split; try reflexivity. now exists None.
  - unfold normalizeURL in H. rewrite normalizeURL_obj_eq in H. cbn.
    destruct (URL_toString (Loose.url o) h) as [u|e]; [|discriminate].
    destruct (mapR (resolve_img h) _) as [imgs|e]; [|discriminate].
    destruct (mapR (resolve_link h) _) as [links|e]; [|discriminate].
    destruct (computed_lastmod o) as [lm|e] eqn:Elm; [|discriminate].
    inversion H; subst; cbn.
    repeat split; try reflexivity. now exists lm.
Qed.

(** When every URL resolves and the last-modified source is readable,
    normalization returns. *)
Lemma normalizeURL_succeeds (elem : Elem) (h : option string)
    (url : string) (imgs : list Img.t) (links : list Link.t)
    (lm : option string) :
  let o := Elem_loose elem in
  URL_toString (Loose.url o) h = Ok url ->
  mapR (resolve_img h) (loose_images (Loose.img o)) = Ok imgs ->
  mapR (resolve_link h) (loose_links (Loose.links o)) = Ok links ->
  computed_lastmod o = Ok lm ->
  exists smi, normalizeURL elem h = (Elem_after elem, Ok smi).
Proof.
  intros o Hu Hi Hl Hm. subst o.
  destruct elem as [s|o].
  - rewrite normalizeURL_string. cbn in Hu |- *. rewrite Hu. cbn. eauto.
  - unfold normalizeURL, Elem_after. cbn in Hu, Hi, Hl, Hm.
    rewrite normalizeURL_obj_eq, Hu, Hi, Hl, Hm. eauto.
Qed.

(** Normalizing the object again, as the first call left it, gives the
    same strict entry and writes nothing more. *)
Lemma normalizeURL_again (elem elem' : Elem) (h : option string) (smi : Smi.t) :
  normalizeURL elem h = (elem', Ok smi) ->
  normalizeURL elem' h = (elem', Ok smi).
Proof.
  intros H. pose proof (normalizeURL_ok_inv _ _ _ _ H) as Hinv.
  cbn in Hinv. destruct Hinv as (-> & _).
  destruct elem as [s|o]; [exact H|].
  unfold normalizeURL, Elem_after in H |- *.
  rewrite normalizeURL_obj_eq in H |- *.
  rewrite computed_lastmod_after.
  change (Loose.url (Loose_after o)) with (Loose.url o).
  change (Loose.img (Loose_after o)) with (img_as_array (Loose.img o)).
  change (Loose.video (Loose_after o)) with (video_as_array (Loose.video o)).
  change (Loose.links (Loose_after o)) with (Loose.links o).
  change (Loose.lastmod (Loose_after o)) with (Loose.lastmod o).
  change (Loose.lastmodISO (Loose_after o)) with (Loose.lastmodISO o).
  change (Loose.lastmodfile (Loose_after o)) with (Loose.lastmodfile o).
  change (Loose.ext (Loose_after o)) with (Loose.ext o).
  rewrite loose_images_as_array, loose_videos_as_array.
  rewrite Loose_after_idem, Loose_after_img_after.
  destruct (URL_toString (Loose.url o) h); [|discriminate].
  destruct (mapR (resolve_img h) _); [|discriminate].
  destruct (mapR (resolve_link h) _); [|discriminate].
  destruct (computed_lastmod o); [|discriminate].
  exact H.
Qed.
End NormalizeURLFacts.

(* ================================================================== *)
(** ** EntryNormalizer: what the call leaves in the caller's object *)

Section InputAfterNormalization.
Context {T : JSTypes} {I : Imports}.

Lemma normalizeURL_post_state (elem : Elem) (h : option string) :
  match elem with
  | ElemStr _ => fst (normalizeURL elem h) = elem
  | ElemObj o =>
      fst (normalizeURL elem h) = ElemObj o
      \/ fst (normalizeURL elem h) = ElemObj (Loose_after_img o)
      \/ fst (normalizeURL elem h) = ElemObj (Loose_after o)
  end.
Proof.
  destruct elem as [s|o]; [reflexivity|].
  unfold normalizeURL. rewrite normalizeURL_obj_eq.
  destruct (URL_toString _ _); [|now left].
  destruct (mapR (resolve_img h) _); [|right; now left].
  destruct (mapR (resolve_link h) _); [|right; now left].
  destruct (computed_lastmod o); right; now right.
Qed.

(** C8 (as amended). Normalization writes to the object it is given in two
    places only: an [img] given as a non-empty string or as a single object
    is replaced by a one-element array of image objects, and a [video]
    given as a single object is replaced by a one-element array. Every
    other property is left as it was; a string input is left as it was; an
    object whose [img] and [video] are arrays, or absent, is left as it
    was; and when normalization returns, both writes have taken place. *)
Theorem normalizeURL_input_after (elem : Elem) (h : option string) :
  let elem' := fst (normalizeURL elem h) in
  let o := Elem_loose elem in
  let o' := Elem_loose elem' in
  (Loose.url o' = Loose.url o
   /\ Loose.links o' = Loose.links o
   /\ Loose.lastmod o' = Loose.lastmod o
   /\ Loose.lastmodISO o' = Loose.lastmodISO o
   /\ Loose.lastmodfile o' = Loose.lastmodfile o
   /\ Loose.ext o' = Loose.ext o)
  /\ (Loose.img o' = Loose.img o \/ Loose.img o' = img_as_array (Loose.img o))
  /\ (Loose.video o' = Loose.video o
      \/ Loose.video o' = video_as_array (Loose.video o))
  /\ (is_ok (snd (normalizeURL elem h)) = true -> elem' = Elem_after elem)
  /\ ((exists s, elem = ElemStr s) -> elem' = elem)
  /\ (img_as_array (Loose.img o) = Loose.img o ->
      video_as_array (Loose.video o) = Loose.video o ->
      elem' = elem).
Proof.
  cbn zeta.
  pose proof (normalizeURL_post_state elem h) as Hpost.
  split; [|split; [|split; [|split; [|split]]]].
  - destruct elem as [s|o]; [rewrite Hpost; cbn; tauto|].
    destruct Hpost as [-> | [-> | ->]]; cbn; tauto.
  - destruct elem as [s|o]; [rewrite Hpost; cbn; tauto|].
    destruct Hpost as [-> | [-> | ->]]; cbn; tauto.
  - destruct elem as [s|o]; [rewrite Hpost; cbn; tauto|].
    destruct Hpost as [-> | [-> | ->]]; cbn; tauto.
  - destruct (normalizeURL elem h) as [e' [smi|e]] eqn:E; cbn; [|discriminate].
    intros _. now apply normalizeURL_ok_inv in E as [-> _].
  - intros [s ->]. reflexivity.
  - intros Hi Hv.
    destruct elem as [s|o]; [exact Hpost|]. cbn in Hi, Hv.
    assert (Loose_after o = o) as Ha by now apply Loose_after_arrays.
    assert (Loose_after_img o = o) as Hb.
    { destruct o; unfold Loose_after_img; cbn in *. now rewrite Hi. }
    rewrite Ha, Hb in Hpost. tauto.
Qed.
End InputAfterNormalization.

Section InputWritten.
Import Sample.

(** C8, the claim as written fails: an entry whose [img] is a string comes
    back from [normalizeURL] with [img] turned into an array. *)
Lemma normalizeURL_input_unchanged_counterexample :
  let elem := ElemObj (Sample.entry "/a" (Some (ImgOne (ImgStr "/pic.jpg")))
                         None None) in
  is_ok (snd (normalizeURL elem Sample.host)) = true
  /\ fst (normalizeURL elem Sample.host) <> elem
  /\ fst (normalizeURL elem Sample.host)
     = ElemObj (Sample.entry "/a"
                  (Some (ImgMany [ImgObj (Img.of_url "/pic.jpg")])) None None).
Proof.
  cbn zeta. split; [reflexivity|]. split; [|reflexivity].
  intros H. vm_compute in H. discriminate H.
Qed.
End InputWritten.

(* ================================================================== *)
(** ** EntryNormalizer: URL resolution *)

Lemma mapR_Forall2 {A B} (f : A -> result B) (l : list A) (l' : list B) :
  mapR f l = Ok l' -> Forall2 (fun a b => f a = Ok b) l l'.
Proof.
  revert l'. induction l as [|a l IH]; cbn; intros l' H.
  - inversion H. constructor.
  - destruct (f a) as [b|e] eqn:Ea; cbn in H; [|discriminate].
    destruct (mapR f l) as [bs|e]; cbn in H; [|discriminate].
    inversion H; subst. constructor; auto.
Qed.

Lemma mapR_ok_iff {A B} (f : A -> result B) (l : list A) :
  is_ok (mapR f l) = forallb (fun a => is_ok (f a)) l.
Proof.
  induction l as [|a l IH]; cbn; [reflexivity|].
  destruct (f a); cbn; [|reflexivity].
  rewrite <- IH. destruct (mapR f l); reflexivity.
Qed.

Lemma scheme_rest_app (b x : string) :
  scheme_rest b = true -> scheme_rest (b ++ x) = true.
Proof.
  induction b as [|c b IH]; cbn; [discriminate|].
  destruct (Ascii.eqb c ":"); [reflexivity|].
  destruct (is_scheme_char c); [assumption|discriminate].
Qed.

Lemma is_absolute_app (b x : string) :
  is_absolute b = true -> is_absolute (b ++ x) = true.
Proof.
  destruct b as [|c b]; cbn; [discriminate|].
  intros H. apply andb_true_iff in H as [-> H]. now apply scheme_rest_app.
Qed.

(** On the sample platform a URL that parses serializes to an absolute one. *)
Lemma Sample_url_href_absolute (input : string) (base : option string) (s : string) :
  Sample.url_href input base = Ok s -> is_absolute s = true.
Proof.
  unfold Sample.url_href.
  destruct (is_absolute input) eqn:Ei.
  - intros H. inversion H. now subst.
  - destruct base as [b|]; [|discriminate].
    destruct (is_absolute b) eqn:Eb; [|discriminate].
    intros H. inversion H. now apply is_absolute_app.
Defined.

Section URLResolution.
Context {T : JSTypes} {I : Imports}.

(** The URL class serializes to an absolute URL whenever it parses. *)
Hypothesis URL_toString_absolute :
  forall input base s, URL_toString input base = Ok s -> is_absolute s = true.

(** C5 (as amended). When normalization returns, the entry's URL is its
    given URL resolved against the hostname; every image and every
    alternate link is the given descriptor with its URL resolved the same
    way, one by one and in order; all these URLs are absolute. The URLs
    inside the video descriptors are carried over as they were given. *)
Theorem normalizeURL_resolves_urls
    (elem elem' : Elem) (h : option string) (smi : Smi.t) :
  normalizeURL elem h = (elem', Ok smi) ->
  let o := Elem_loose elem in
  URL_toString (Loose.url o) h = Ok (Smi.url smi)
  /\ Forall2 (fun el r => URL_toString (Img.url el) h = Ok (Img.url r)
                          /\ r = Img.with_url el (Img.url r))
       (loose_images (Loose.img o)) (Smi.img smi)
  /\ Forall2 (fun link r => URL_toString (Link.url link) h = Ok (Link.url r)
                            /\ r = Link.with_url link (Link.url r))
       (loose_links (Loose.links o)) (Smi.links smi)
  /\ all_absolute (Smi.url smi :: map Img.url (Smi.img smi)
                   ++ map Link.url (Smi.links smi))%list = true
  /\ flat_map video_urls (Smi.video smi)
     = flat_map loose_video_urls (loose_videos (Loose.video o)).
Proof.
  intros H o.
  apply normalizeURL_ok_inv in H. cbn zeta in H. fold o in H.
  destruct H as (_ & Hu & Hi & Hl & Hv & _).
  apply mapR_Forall2 in Hi, Hl.
  assert (Forall2 (fun el r => URL_toString (Img.url el) h = Ok (Img.url r)
                               /\ r = Img.with_url el (Img.url r))
            (loose_images (Loose.img o)) (Smi.img smi)) as Hi'.
  { eapply Forall2_impl; [|exact Hi]. intros el r Hr. unfold resolve_img in Hr.
    destruct (URL_toString (Img.url el) h) as [u|e]; cbn in Hr; [|discriminate].
    inversion Hr; subst. cbn. auto. }
  assert (Forall2 (fun link r => URL_toString (Link.url link) h = Ok (Link.url r)
                                 /\ r = Link.with_url link (Link.url r))
            (loose_links (Loose.links o)) (Smi.links smi)) as Hl'.
  { eapply Forall2_impl; [|exact Hl]. intros l r Hr. unfold resolve_link in Hr.
    destruct (URL_toString (Link.url l) h) as [u|e]; cbn in Hr; [|discriminate].
    inversion Hr; subst. cbn. auto. }
  repeat split; try assumption.
  - unfold all_absolute. cbn [forallb].
    rewrite (URL_toString_absolute _ _ _ Hu). cbn.
    rewrite forallb_app. apply andb_true_iff. split; apply forallb_forall.
    + intros u Hin. apply in_map_iff in Hin as (r & <- & Hin).
      clear - Hi' Hin URL_toString_absolute.
      induction Hi' as [|el r' ? ? [Hr _] ? IH]; [destruct Hin|].
      destruct Hin as [->|Hin]; eauto.
    + intros u Hin. apply in_map_iff in Hin as (r & <- & Hin).
      clear - Hl' Hin URL_toString_absolute.
      induction Hl' as [|l r' ? ? [Hr _] ? IH]; [destruct Hin|].
      destruct Hin as [->|Hin]; eauto.
  - rewrite Hv. clear.
    induction (loose_videos (Loose.video o)) as [|v vs IH]; [reflexivity|].
    cbn [map flat_map]. now rewrite IH.
Qed.
End URLResolution.

Section URLResolutionExamples.
Import Sample.

Lemma normalizeURL_resolves_urls_witness :
  URL_toString "/a" Sample.host = Ok "http://example.com/a"
  /\ all_absolute ["http://example.com/a"; "http://example.com/pic.jpg";
                   "http://example.com/de/a"] = true.
Proof.
  pose proof (normalizeURL_resolves_urls Sample_url_href_absolute
                page_with_clip (Elem_after page_with_clip) Sample.host
                (Smi.mk "http://example.com/a"
                   [Img.of_url "http://example.com/pic.jpg"]
                   [normalize_video Sample.clip]
                   [Link.mk "de" "http://example.com/de/a"]
                   None None None None)
                eq_refl) as H.
  cbn zeta in H. destruct H as (Hu & _ & _ & Habs & _).
  split; [exact Hu | exact Habs].
Defined.

(** C5, the claim as written fails: the entry below normalizes, with its
    URL, image and link resolved against the hostname, and the strict entry
    still carries the thumbnail of its video as the relative URL it was
    given with. *)
Lemma normalizeURL_all_absolute_counterexample :
  exists smi,
    snd (normalizeURL page_with_clip Sample.host) = Ok smi
    /\ Smi.url smi = "http://example.com/a"
    /\ In "/thumb.jpg" (strict_urls smi)
    /\ is_absolute "/thumb.jpg" = false
    /\ all_absolute (strict_urls smi) = false.
Proof.
  eexists. split; [reflexivity|]. cbn.
  repeat split; try reflexivity. tauto.
Qed.
End URLResolutionExamples.

(* ================================================================== *)
(** ** EntryNormalizer: the last-modified date *)

Section LastModified.
Context {T : JSTypes} {I : Imports}.

Lemma given_string_of (o : option string) :
  given o -> exists s, o = Some s /\ string_of o = s /\ s <> EmptyString.
Proof.
  unfold given. destruct o as [[|c s]|]; cbn; try discriminate.
  intros _. eexists. repeat split. discriminate.
Qed.

(** [computed_lastmod] by cases, in the order the source tests them. *)
Lemma computed_lastmod_cases (o : Loose.t) :
  computed_lastmod o =
  if truthy_ostring (Loose.lastmodfile o) then
    match statSync_mtime (string_of (Loose.lastmodfile o)) with
    | Ok mtime => Ok (Some (Date_toISOString mtime))
    | Throw e => Throw e
    end
  else if truthy_ostring (Loose.lastmodISO o) then
    match Date_parse (string_of (Loose.lastmodISO o)) with
    | Some t => Ok (Some (Date_toISOString t))
    | None => Throw RangeError_InvalidTime
    end
  else if truthy_ostring (Loose.lastmod o) then
    match Date_parse (string_of (Loose.lastmod o)) with
    | Some t => Ok (Some (Date_toISOString t))
    | None => Throw RangeError_InvalidTime
    end
  else Ok None.
Proof.
  unfold computed_lastmod, Date_of_string_toISOString.
  destruct (truthy_ostring (Loose.lastmodfile o)).
  - destruct (statSync_mtime _); reflexivity.
  - destruct (truthy_ostring (Loose.lastmodISO o)).
    + destruct (Date_parse _); reflexivity.
    + destruct (truthy_ostring (Loose.lastmod o)); [|reflexivity].
      destruct (Date_parse _); reflexivity.
Qed.

(** C4. The last-modified value of the strict entry is taken from the first
    of [lastmodfile], [lastmodISO], [lastmod] that is given: from
    [lastmodfile], the modification time of that file, in ISO-8601; failing
    that from [lastmodISO], parsed as a date, in ISO-8601; failing that from
    [lastmod], parsed as a date, in ISO-8601. With none of the three present
    the strict entry has no last-modified value. *)
Theorem normalizeURL_lastmod_precedence
    (elem elem' : Elem) (h : option string) (smi : Smi.t) :
  normalizeURL elem h = (elem', Ok smi) ->
  let o := Elem_loose elem in
  (given (Loose.lastmodfile o) ->
     exists mtime,
       statSync_mtime (string_of (Loose.lastmodfile o)) = Ok mtime
       /\ Smi.lastmod smi = Some (Date_toISOString mtime))
  /\ (~ given (Loose.lastmodfile o) -> given (Loose.lastmodISO o) ->
     exists t,
       Date_parse (string_of (Loose.lastmodISO o)) = Some t
       /\ Smi.lastmod smi = Some (Date_toISOString t))
  /\ (~ given (Loose.lastmodfile o) -> ~ given (Loose.lastmodISO o) ->
      given (Loose.lastmod o) ->
     exists t,
       Date_parse (string_of (Loose.lastmod o)) = Some t
       /\ Smi.lastmod smi = Some (Date_toISOString t))
  /\ (Loose.lastmodfile o = None -> Loose.lastmodISO o = None ->
      Loose.lastmod o = None ->
      Smi.lastmod smi = None).
Proof.
  intros H o.
  apply normalizeURL_ok_inv in H. cbn zeta in H. fold o in H.
  destruct H as (_ & _ & _ & _ & _ & (lm & Hlm & Hsmi) & _).
  rewrite computed_lastmod_cases in Hlm. unfold given.
  repeat split.
  - intros Hf. rewrite Hf in Hlm.
    destruct (statSync_mtime _) as [mtime|e]; [|discriminate].
    inversion Hlm; subst lm. eauto.
  - intros Hf Hi. apply not_true_is_false in Hf. rewrite Hf, Hi in Hlm.
    destruct (Date_parse _) as [t|]; [|discriminate].
    inversion Hlm; subst lm. eauto.
  - intros Hf Hi Hl. apply not_true_is_false in Hf, Hi.
    rewrite Hf, Hi, Hl in Hlm.
    destruct (Date_parse _) as [t|]; [|discriminate].
    inversion Hlm; subst lm. eauto.
  - intros Hf Hi Hl. rewrite Hf, Hi, Hl in Hlm. cbn in Hlm.
    inversion Hlm; subst lm. now rewrite Hsmi.
Qed.

(** The sources that are not consulted do not matter, not even when they
    could not be read: the value depends on the first given source alone. *)
Lemma computed_lastmod_first_given (o : Loose.t) :
  (given (Loose.lastmodfile o) ->
     computed_lastmod o
     = result_bind (statSync_mtime (string_of (Loose.lastmodfile o)))
         (fun mtime => Ok (Some (Date_toISOString mtime))))
  /\ (~ given (Loose.lastmodfile o) -> given (Loose.lastmodISO o) ->
     computed_lastmod o
     = result_bind (Date_of_string_toISOString (string_of (Loose.lastmodISO o)))
         (fun iso => Ok (Some iso)))
  /\ (~ given (Loose.lastmodfile o) -> ~ given (Loose.lastmodISO o) ->
      given (Loose.lastmod o) ->
     computed_lastmod o
     = result_bind (Date_of_string_toISOString (string_of (Loose.lastmod o)))
         (fun iso => Ok (Some iso)))
  /\ (~ given (Loose.lastmodfile o) -> ~ given (Loose.lastmodISO o) ->
      ~ given (Loose.lastmod o) ->
     computed_lastmod o = Ok None).
Proof.
  unfold given, computed_lastmod. repeat split.
  - now intros ->.
  - intros Hf ->. apply not_true_is_false in Hf. now rewrite Hf.
  - intros Hf Hi ->. apply not_true_is_false in Hf, Hi. now rewrite Hf, Hi.
  - intros Hf Hi Hl. apply not_true_is_false in Hf, Hi, Hl.
    now rewrite Hf, Hi, Hl.
Qed.
End LastModified.

Section LastModifiedExamples.
Import Sample.

Lemma normalizeURL_lastmod_precedence_witness :
  Smi.lastmod
    (Smi.mk "http://example.com/a" [] [] []
       (Some "2019-07-01T00:00:00.000Z")
       (Some "2018-11-26") (Some "/srv/www/index.html") None)
  = Some (Date_toISOString 1561939200000).
Proof.
  pose proof (normalizeURL_lastmod_precedence
                (Sample.page_dated (Some "/srv/www/index.html")
                   (Some "2018-11-26") (Some "1970-01-01"))
                (Sample.page_dated (Some "/srv/www/index.html")
                   (Some "2018-11-26") (Some "1970-01-01"))
                Sample.host
                (Smi.mk "http://example.com/a" [] [] []
                   (Some "2019-07-01T00:00:00.000Z")
                   (Some "2018-11-26") (Some "/srv/www/index.html") None)
                eq_refl) as H.
  cbn zeta in H. destruct H as (Hfile & _).
  destruct (Hfile eq_refl) as (mtime & Hm & Hs).
  cbn in Hm. unfold Sample.stat_mtime in Hm. cbn in Hm.
  inversion Hm; subst mtime. exact Hs.
Defined.

(** Each of the four cases, evaluated: file first, then ISO, then plain,
    then none. *)
Example lastmod_precedence_evaluated :
  let lastmod_of e := match snd (normalizeURL e Sample.host) with
                      | Ok smi => Smi.lastmod smi
                      | Throw _ => None
                      end in
  lastmod_of (Sample.page_dated (Some "/srv/www/index.html")
                (Some "2018-11-26") (Some "1970-01-01"))
  = Some "2019-07-01T00:00:00.000Z"
  /\ lastmod_of (Sample.page_dated None (Some "2018-11-26") (Some "1970-01-01"))
     = Some "2018-11-26T00:00:00.000Z"
  /\ lastmod_of (Sample.page_dated None None (Some "1970-01-01"))
     = Some "1970-01-01T00:00:00.000Z"
  /\ lastmod_of (Sample.page_dated None None None) = None.
Proof. cbn zeta. repeat split; reflexivity. Qed.
End LastModifiedExamples.

(* ================================================================== *)
(** ** DocumentBuilder: add, contains, del *)

Section DocumentEntries.
Context {T : JSTypes} {I : Imports}.

Lemma add_ok_inv (url url' : Elem) (level : option ErrorLevel)
    (this this' : Sitemap.t) (n : Z) :
  Sitemap.add url level this = (url', this', Ok n) ->
  exists smi,
    normalizeURL url (Sitemap.hostname this) = (url', Ok smi)
    /\ validateSMIOptions smi level = Ok tt
    /\ this' = Sitemap.with_urls
                 (JSMap.set (Smi.url smi) smi (Sitemap.urls this)) this
    /\ n = JSMap.size (JSMap.set (Smi.url smi) smi (Sitemap.urls this)).
Proof.
  unfold Sitemap.add, Sitemap._normalizeURL.
  destruct (normalizeURL url (Sitemap.hostname this)) as [u' [smi|e]];
    [|discriminate].
  destruct (validateSMIOptions smi level) as [[]|e] eqn:Ev; [|discriminate].
  intros H. inversion H; subst. eauto.
Qed.

Lemma add_ok (url url' : Elem) (level : option ErrorLevel)
    (this : Sitemap.t) (smi : Smi.t) :
  normalizeURL url (Sitemap.hostname this) = (url', Ok smi) ->
  validateSMIOptions smi level = Ok tt ->
  Sitemap.add url level this
  = (url',
     Sitemap.with_urls (JSMap.set (Smi.url smi) smi (Sitemap.urls this)) this,
     Ok (JSMap.size (JSMap.set (Smi.url smi) smi (Sitemap.urls this)))).
Proof.
  intros Hn Hv. unfold Sitemap.add, Sitemap._normalizeURL.
  now rewrite Hn, Hv.
Qed.

(** An entry whose resolved URL is in the document takes the place of the
    one that was there: same count, same order of keys. *)
Lemma add_present_replaces (url url' : Elem) (level : option ErrorLevel)
    (this this' : Sitemap.t) (n : Z) (smi : Smi.t) :
  normalizeURL url (Sitemap.hostname this) = (url', Ok smi) ->
  JSMap.has (Smi.url smi) (Sitemap.urls this) = true ->
  Sitemap.add url level this = (url', this', Ok n) ->
  n = JSMap.size (Sitemap.urls this)
  /\ JSMap.size (Sitemap.urls this') = JSMap.size (Sitemap.urls this)
  /\ JSMap.keys (Sitemap.urls this') = JSMap.keys (Sitemap.urls this)
  /\ JSMap.get (Smi.url smi) (Sitemap.urls this') = Some smi.
Proof.
  intros Hn Hhas Hadd.
  apply add_ok_inv in Hadd as (smi' & Hn' & _ & -> & ->).
  rewrite Hn in Hn'. inversion Hn'; subst smi'.
  unfold Sitemap.with_urls; cbn [Sitemap.urls].
  rewrite JSMap_size_set_present, JSMap_keys_set_present, JSMap_get_set_same
    by assumption.
  auto.
Qed.

(** An entry whose resolved URL is new goes to the end. *)
Lemma add_absent_appends (url url' : Elem) (level : option ErrorLevel)
    (this this' : Sitemap.t) (n : Z) (smi : Smi.t) :
  normalizeURL url (Sitemap.hostname this) = (url', Ok smi) ->
  JSMap.has (Smi.url smi) (Sitemap.urls this) = false ->
  Sitemap.add url level this = (url', this', Ok n) ->
  n = JSMap.size (Sitemap.urls this) + 1
  /\ JSMap.keys (Sitemap.urls this')
     = (JSMap.keys (Sitemap.urls this) ++ [Smi.url smi])%list.
Proof.
  intros Hn Hhas Hadd.
  apply add_ok_inv in Hadd as (smi' & Hn' & _ & -> & ->).
  rewrite Hn in Hn'. inversion Hn'; subst smi'.
  unfold Sitemap.with_urls; cbn [Sitemap.urls].
  now rewrite JSMap_size_set_absent, JSMap_keys_set_absent by assumption.
Qed.

(** C1. Adding a URL a second time, with whatever metadata, replaces the
    entry of the first add: the count returned by the second add is the
    count returned by the first, the keys of the document are the same in
    the same order, and the entry found under the resolved URL is the one
    the second add normalized. *)
Theorem add_twice_replaces
    (x1 x2 x1' x2' : Elem) (l1 l2 : option ErrorLevel)
    (this this1 this2 : Sitemap.t) (n1 n2 : Z) :
  URL_toString (Elem_url x1) (Sitemap.hostname this)
  = URL_toString (Elem_url x2) (Sitemap.hostname this) ->
  Sitemap.add x1 l1 this = (x1', this1, Ok n1) ->
  Sitemap.add x2 l2 this1 = (x2', this2, Ok n2) ->
  n2 = n1
  /\ JSMap.size (Sitemap.urls this2) = JSMap.size (Sitemap.urls this1)
  /\ JSMap.keys (Sitemap.urls this2) = JSMap.keys (Sitemap.urls this1)
  /\ exists smi2,
       normalizeURL x2 (Sitemap.hostname this) = (x2', Ok smi2)
       /\ JSMap.get (Smi.url smi2) (Sitemap.urls this2) = Some smi2.
Proof.
  intros Hsame H1 H2.
  pose proof H1 as H1'.
  apply add_ok_inv in H1' as (smi1 & Hn1 & _ & Hthis1 & Hsize1).
  pose proof H2 as H2'.
  apply add_ok_inv in H2' as (smi2 & Hn2 & _ & _ & _).
  assert (Sitemap.hostname this1 = Sitemap.hostname this) as Hh
    by now rewrite Hthis1.
  rewrite Hh in Hn2.
  assert (Smi.url smi2 = Smi.url smi1) as Hurl.
  { pose proof (normalizeURL_ok_inv _ _ _ _ Hn1) as (_ & Hu1 & _).
    pose proof (normalizeURL_ok_inv _ _ _ _ Hn2) as (_ & Hu2 & _).
    assert (forall e, Loose.url (Elem_loose e) = Elem_url e) as Hel
      by (intros [s|o]; reflexivity).
    rewrite Hel in Hu1, Hu2. rewrite Hsame, Hu2 in Hu1. congruence. }
  assert (JSMap.has (Smi.url smi2) (Sitemap.urls this1) = true) as Hhas.
  { rewrite Hurl, Hthis1. cbn. apply JSMap_has_set_same. }
  rewrite <- Hh in Hn2.
  destruct (add_present_replaces _ _ _ _ _ _ _ Hn2 Hhas H2)
    as (Hn & Hsz & Hk & Hg).
  rewrite Hh in Hn2.
  repeat split; try assumption.
  - rewrite Hn, Hsize1, Hthis1. reflexivity.
  - eauto.
Qed.

(** C6. For an entry that normalizes: once [add] has taken it, [contains]
    on it answers true; once [del] has taken it, [contains] on it answers
    false; and [del] answers whether an entry with the entry's resolved URL
    was in the document before the call. All three resolve the entry with
    the same normalizer and hostname. *)
Theorem contains_after_add_and_del
    (x x' : Elem) (level : option ErrorLevel) (this : Sitemap.t) (smi : Smi.t) :
  normalizeURL x (Sitemap.hostname this) = (x', Ok smi) ->
  (validateSMIOptions smi level = Ok tt ->
   exists this1 n,
     Sitemap.add x level this = (x', this1, Ok n)
     /\ Sitemap.contains x' this1 = (x', this1, Ok true))
  /\ (exists this2,
        Sitemap.del x this
        = (x', this2, Ok (JSMap.has (Smi.url smi) (Sitemap.urls this)))
        /\ Sitemap.contains x' this2 = (x', this2, Ok false)).
Proof.
  intros Hn. pose proof (normalizeURL_again _ _ _ _ Hn) as Hn'.
  split.
  - intros Hv.
    exists (Sitemap.with_urls
              (JSMap.set (Smi.url smi) smi (Sitemap.urls this)) this),
           (JSMap.size (JSMap.set (Smi.url smi) smi (Sitemap.urls this))).
    split; [apply add_ok; assumption|].
    unfold Sitemap.contains, Sitemap._normalizeURL, Sitemap.with_urls.
    cbn [Sitemap.hostname Sitemap.urls].
    now rewrite Hn', JSMap_has_set_same.
  - exists (Sitemap.with_urls
              (JSMap.remove (Smi.url smi) (Sitemap.urls this)) this).
    split.
    + unfold Sitemap.del, Sitemap._normalizeURL, JSMap.delete.
      now rewrite Hn.
    + unfold Sitemap.contains, Sitemap._normalizeURL, Sitemap.with_urls.
      cbn [Sitemap.hostname Sitemap.urls].
      now rewrite Hn', JSMap_has_remove_same.
Qed.

(** The keys of a document stay distinct. *)
Lemma add_preserves_wf (url : Elem) (level : option ErrorLevel) (this : Sitemap.t) :
  JSMap.wf (Sitemap.urls this) ->
  JSMap.wf (Sitemap.urls (snd (fst (Sitemap.add url level this)))).
Proof.
  intros Hwf. unfold Sitemap.add.
  destruct (Sitemap._normalizeURL url this) as [u' [smi|e]]; [|exact Hwf].
  destruct (validateSMIOptions smi level); [|exact Hwf].
  cbn. now apply JSMap_wf_set.
Qed.

Lemma del_preserves_wf (url : Elem) (this : Sitemap.t) :
  JSMap.wf (Sitemap.urls this) ->
  JSMap.wf (Sitemap.urls (snd (fst (Sitemap.del url this)))).
Proof.
  intros Hwf. unfold Sitemap.del.
  destruct (Sitemap._normalizeURL url this) as [u' [smi|e]]; [|exact Hwf].
  cbn. now apply JSMap_wf_remove.
Qed.

Lemma normalizeURLs_into_wf (urls : list Elem) (h : option string)
    (m m' : JSMap.t Smi.t) (urls' : list Elem) :
  JSMap.wf m ->
  normalizeURLs_into m urls h = (urls', Ok m') -> JSMap.wf m'.
Proof.
  revert m urls'. induction urls as [|e urls IH]; cbn; intros m urls' Hwf H.
  - inversion H. now subst.
  - destruct (normalizeURL e h) as [e' [smio|ex]]; [|discriminate].
    destruct (normalizeURLs_into _ urls h) as [rest' r] eqn:E.
    inversion H; subst. eapply IH; [|exact E]. now apply JSMap_wf_set.
Qed.

Lemma new_wf (opts : Options.t) (urls' : list Elem) (this : Sitemap.t) :
  Sitemap.new opts = (urls', Ok this) -> JSMap.wf (Sitemap.urls this).
Proof.
  unfold Sitemap.new, normalizeURLs.
  destruct (if truthy_string _ then _ else _) as [root0|e]; [|discriminate].
  destruct (normalizeURLs_into _ _ _) as [urls1 [m|e]] eqn:E; [|discriminate].
  destruct (Sitemap.validate_all _ _); [|discriminate].
  intros H. inversion H; subst. cbn.
  eapply normalizeURLs_into_wf; [|exact E]. apply JSMap_wf_empty.
Qed.
End DocumentEntries.

Section DocumentEntriesExamples.
Import Sample.

Lemma add_twice_replaces_witness :
  let this1 := snd (fst (Sitemap.add (ElemStr "/a") None Sample.empty_sitemap)) in
  let this2 := snd (fst (Sitemap.add Sample.page_with_clip None this1)) in
  1 = 1
  /\ JSMap.size (Sitemap.urls this2) = JSMap.size (Sitemap.urls this1)
  /\ JSMap.keys (Sitemap.urls this2) = JSMap.keys (Sitemap.urls this1)
  /\ exists smi2,
       normalizeURL Sample.page_with_clip (Sitemap.hostname Sample.empty_sitemap)
       = (Elem_after Sample.page_with_clip, Ok smi2)
       /\ JSMap.get (Smi.url smi2) (Sitemap.urls this2) = Some smi2.
Proof.
  exact (add_twice_replaces (ElemStr "/a") Sample.page_with_clip
           (ElemStr "/a") (Elem_after Sample.page_with_clip) None None
           Sample.empty_sitemap
           (snd (fst (Sitemap.add (ElemStr "/a") None Sample.empty_sitemap)))
           (snd (fst (Sitemap.add Sample.page_with_clip None
                        (snd (fst (Sitemap.add (ElemStr "/a") None
                                     Sample.empty_sitemap))))))
           1 1 eq_refl eq_refl eq_refl).
Defined.

(** Two adds of the same URL, evaluated: one entry, carrying the image of
    the second add. *)
Example add_twice_evaluated :
  let this1 := snd (fst (Sitemap.add (ElemStr "/a") None Sample.empty_sitemap)) in
  let this2 := snd (fst (Sitemap.add Sample.page_with_clip None this1)) in
  snd (Sitemap.add Sample.page_with_clip None this1) = Ok 1
  /\ JSMap.keys (Sitemap.urls this2) = ["http://example.com/a"]
  /\ option_map Smi.img (JSMap.get "http://example.com/a" (Sitemap.urls this1))
     = Some []
  /\ option_map Smi.img (JSMap.get "http://example.com/a" (Sitemap.urls this2))
     = Some [Img.of_url "http://example.com/pic.jpg"].
Proof. cbn zeta. repeat split; reflexivity. Qed.

(** The constructor folds its entries into the same keyed collection: of
    two initial entries with one URL, the later one is kept, in the place of
    the earlier. *)
Example new_with_duplicates_evaluated :
  match snd (Sitemap.new (Sample.sitemap_options
                            [ElemStr "/a"; ElemStr "/b"; Sample.page_with_clip]
                            0 None)) with
  | Ok this =>
      JSMap.keys (Sitemap.urls this)
      = ["http://example.com/a"; "http://example.com/b"]
      /\ option_map Smi.img (JSMap.get "http://example.com/a" (Sitemap.urls this))
         = Some [Img.of_url "http://example.com/pic.jpg"]
  | Throw _ => False
  end.
Proof. cbn. split; reflexivity. Qed.

Lemma contains_after_add_and_del_witness :
  (exists this1 n,
     Sitemap.add Sample.page_with_clip None Sample.empty_sitemap
     = (Elem_after Sample.page_with_clip, this1, Ok n)
     /\ Sitemap.contains (Elem_after Sample.page_with_clip) this1
        = (Elem_after Sample.page_with_clip, this1, Ok true))
  /\ (exists this2,
        Sitemap.del Sample.page_with_clip Sample.empty_sitemap
        = (Elem_after Sample.page_with_clip, this2, Ok false)
        /\ Sitemap.contains (Elem_after Sample.page_with_clip) this2
           = (Elem_after Sample.page_with_clip, this2, Ok false)).
Proof.
  assert (normalizeURL Sample.page_with_clip
            (Sitemap.hostname Sample.empty_sitemap)
          = (Elem_after Sample.page_with_clip,
             Ok (Sample.strict_of Sample.page_with_clip))) as Hn
    by reflexivity.
  destruct (contains_after_add_and_del Sample.page_with_clip
              (Elem_after Sample.page_with_clip) None Sample.empty_sitemap
              (Sample.strict_of Sample.page_with_clip) Hn) as [Hadd Hdel].
  split; [exact (Hadd eq_refl) | exact Hdel].
Defined.
End DocumentEntriesExamples.

(* ================================================================== *)
(** ** DocumentBuilder: the cache slot *)

Section DocumentCache.
Context {T : JSTypes} {I : Imports}.

Lemma add_cache_slot (x : Elem) (level : option ErrorLevel) (this : Sitemap.t) :
  cache_slot (snd (fst (Sitemap.add x level this))) = cache_slot this.
Proof.
  unfold Sitemap.add.
  destruct (Sitemap._normalizeURL x this) as [x' [smi|e]]; [|reflexivity].
  destruct (validateSMIOptions smi level); reflexivity.
Qed.

Lemma del_cache_slot (x : Elem) (this : Sitemap.t) :
  cache_slot (snd (fst (Sitemap.del x this))) = cache_slot this.
Proof.
  unfold Sitemap.del.
  destruct (Sitemap._normalizeURL x this) as [x' [smi|e]]; reflexivity.
Qed.

Lemma contains_state (x : Elem) (this : Sitemap.t) :
  snd (fst (Sitemap.contains x this)) = this.
Proof.
  unfold Sitemap.contains.
  destruct (Sitemap._normalizeURL x this) as [x' [smi|e]]; reflexivity.
Qed.

(** Whether the cache answers depends on the cache slot and the clock. *)
Lemma isCacheValid_cache_slot (this this' : Sitemap.t) (now : Z) :
  cache_slot this' = cache_slot this ->
  Sitemap.isCacheValid now this' = Sitemap.isCacheValid now this.
Proof.
  unfold cache_slot, Sitemap.isCacheValid. intros H. inversion H as [[Hc Ht Hl]].
  now rewrite Hc, Ht, Hl.
Qed.

(** The six default declarations pass xmlbuilder's checks. *)
Lemma default_namespaces_eq (r : XMLElement.t) :
  Sitemap.default_namespaces r
  = (XMLElement.mk (default_namespace_attribs (XMLElement.attribs r))
       (XMLElement.children r) (XMLElement.document r), Ok tt).
Proof. destruct r as [a c d]. reflexivity. Qed.

(** Lines 337-351 read off: the children are gone, the attributes are the
    given ones or have the defaults set, and the stylesheet instruction is
    in the document in front of the root, unless its value does not pass,
    in which case the call throws with the root taken out of the document. *)
Lemma prepare_root_eq (this : Sitemap.t) :
  Sitemap.prepare_root this
  = let a := if truthy_string (Sitemap.xmlNs this)
             then XMLElement.attribs (Sitemap.root this)
             else default_namespace_attribs
                    (XMLElement.attribs (Sitemap.root this)) in
    let d := XMLElement.document (Sitemap.root this) in
    if truthy_ostring (Sitemap.xslUrl this)
    then match XMLElement.insValue
                 (snd (stylesheet_instruction (string_of (Sitemap.xslUrl this))))
         with
         | Ok _ =>
             (XMLElement.mk a []
                (fst (XMLElement.splice d)
                 ++ [XMLElement.XMLProcessingInstruction "xml-stylesheet"
                       (snd (stylesheet_instruction
                               (string_of (Sitemap.xslUrl this))))]
                 ++ snd (XMLElement.splice d))%list, Ok tt)
         | Throw e => (XMLElement.mk a [] (fst (XMLElement.splice d)), Throw e)
         end
    else (XMLElement.mk a [] d, Ok tt).
Proof.
  unfold Sitemap.prepare_root, XMLElement.and_then, stylesheet_instruction.
  cbn [snd]. cbn zeta.
  destruct (Sitemap.root this) as [a c d]. cbn [XMLElement.children
    XMLElement.attribs XMLElement.document].
  assert (forall r : XMLElement.t,
            (if truthy_string (Sitemap.xmlNs this) then (r, Ok tt)
             else Sitemap.default_namespaces r)
            = (XMLElement.mk
                 (if truthy_string (Sitemap.xmlNs this)
                  then XMLElement.attribs r
                  else default_namespace_attribs (XMLElement.attribs r))
                 (XMLElement.children r) (XMLElement.document r), Ok tt)) as Hns.
  { intros r. destruct (truthy_string _); [now destruct r|].
    apply default_namespaces_eq. }
  assert ((match c with
           | [] => XMLElement.mk a c d
           | _ :: _ => XMLElement.clear_children (XMLElement.mk a c d)
           end) = XMLElement.mk a [] d) as -> by now destruct c.
  rewrite Hns. cbn [XMLElement.children XMLElement.attribs XMLElement.document].
  destruct (truthy_ostring (Sitemap.xslUrl this)); [|reflexivity].
  unfold XMLElement.instructionBefore.
  cbn [XMLElement.children XMLElement.attribs XMLElement.document].
  destruct (XMLElement.splice d) as [kept removed]. cbn [fst snd].
  change (XMLElement.assertLegalChar "xml-stylesheet") with (Ok tt).
  cbn [result_bind].
  destruct (XMLElement.insValue _) as [[]|e]; reflexivity.
Qed.

(** Lines 337-351 throw exactly when the document has a stylesheet URL
    whose instruction value does not pass xmlbuilder's checks. *)
Lemma prepare_root_ok (this : Sitemap.t) :
  is_ok (snd (Sitemap.prepare_root this)) = stylesheet_legal this.
Proof.
  rewrite prepare_root_eq. unfold stylesheet_legal, stylesheet_instruction.
  cbn zeta. cbn [snd].
  destruct (truthy_ostring (Sitemap.xslUrl this)); [|reflexivity].
  destruct (XMLElement.insValue _); reflexivity.
Qed.

Lemma fresh_xml_ok (pretty : bool) (this : Sitemap.t) :
  is_ok (fresh_xml pretty this) = stylesheet_legal this.
Proof.
  rewrite <- prepare_root_ok. unfold fresh_xml.
  destruct (Sitemap.prepare_root this) as [r [[]|e]]; reflexivity.
Qed.

(** [toString] when lines 337-351 throw. *)
Lemma toString_throw (pretty : bool) (now now' : Z) (this : Sitemap.t)
    (r : XMLElement.t) (e : exn) :
  Sitemap.prepare_root this = (r, Throw e) ->
  Sitemap.toString pretty now now' this = (Sitemap.with_root r this, Throw e).
Proof. intros H. unfold Sitemap.toString. now rewrite H. Qed.

(** [toString] when the cache answers. *)
Lemma toString_cached (pretty : bool) (now now' : Z) (this : Sitemap.t)
    (r : XMLElement.t) :
  Sitemap.prepare_root this = (r, Ok tt) ->
  Sitemap.isCacheValid now this = true ->
  Sitemap.toString pretty now now' this
  = (Sitemap.with_root r this, Ok (Sitemap.cache this)).
Proof.
  intros Hp H. unfold Sitemap.toString. rewrite Hp.
  change (Sitemap.isCacheValid now (Sitemap.with_root r this))
    with (Sitemap.isCacheValid now this).
  now rewrite H.
Qed.

(** [toString] when it does not. *)
Lemma toString_fresh (pretty : bool) (now now' : Z) (this : Sitemap.t)
    (r : XMLElement.t) :
  Sitemap.prepare_root this = (r, Ok tt) ->
  Sitemap.isCacheValid now this = false ->
  Sitemap.toString pretty now now' this
  = (Sitemap.mk (Sitemap.limit this) (Sitemap.xmlNs this) now'
       (Sitemap.urls this) (Sitemap.cacheTime this)
       (XMLElement.end_ pretty (Sitemap.build_children r this))
       (Sitemap.build_children r this)
       (Sitemap.hostname this) (Sitemap.xslUrl this),
     Ok (XMLElement.end_ pretty (Sitemap.build_children r this))).
Proof.
  intros Hp H. unfold Sitemap.toString. rewrite Hp.
  change (Sitemap.isCacheValid now (Sitemap.with_root r this))
    with (Sitemap.isCacheValid now this).
  now rewrite H.
Qed.

(** A [toString] that does not answer from the cache comes to [fresh_xml];
    what it returns is what it stores, with the time of the call, and an
    exception leaves the cache slot as it was. *)
Lemma toString_not_cached (pretty : bool) (now now' : Z) (this : Sitemap.t) :
  Sitemap.isCacheValid now this = false ->
  snd (Sitemap.toString pretty now now' this) = fresh_xml pretty this
  /\ (forall xml, fresh_xml pretty this = Ok xml ->
        cache_slot (fst (Sitemap.toString pretty now now' this))
        = (xml, now', Sitemap.cacheTime this))
  /\ (is_ok (fresh_xml pretty this) = false ->
        cache_slot (fst (Sitemap.toString pretty now now' this))
        = cache_slot this).
Proof.
  intros Hinv. unfold fresh_xml.
  destruct (Sitemap.prepare_root this) as [r [[]|e]] eqn:Hp.
  - rewrite (toString_fresh _ _ _ _ _ Hp Hinv). cbn.
    split; [reflexivity|]. split; [|discriminate].
    intros xml H. inversion H. reflexivity.
  - rewrite (toString_throw _ _ _ _ _ _ Hp). cbn.
    split; [reflexivity|]. split; [discriminate|reflexivity].
Qed.

Lemma isCacheValid_clearCache (now : Z) (this : Sitemap.t) :
  Sitemap.isCacheValid now (Sitemap.clearCache this) = false.
Proof.
  unfold Sitemap.isCacheValid, Sitemap.clearCache; cbn.
  now rewrite andb_false_r.
Qed.

(** C7. [add] and [del], whether they return or throw, leave the cached
    string, its timestamp and the TTL as they were, so the cache answers
    after them exactly when it answered before; a cache that answers stops
    answering once the clock has passed timestamp plus TTL; [clearCache]
    empties the cached string, after which the cache does not answer at any
    time and the next [toString] builds the document anew: it returns the
    document built and stores it with the time of the call, or, where the
    stylesheet URL of the document does not pass xmlbuilder's checks, throws
    as every [toString] of that document does, and leaves the cache empty.
    With no stylesheet URL, or one that passes, it returns. *)
Theorem cache_slot_frame (this : Sitemap.t) (x : Elem) (level : option ErrorLevel) :
  cache_slot (snd (fst (Sitemap.add x level this))) = cache_slot this
  /\ cache_slot (snd (fst (Sitemap.del x this))) = cache_slot this
  /\ (forall now,
        Sitemap.isCacheValid now (snd (fst (Sitemap.add x level this)))
        = Sitemap.isCacheValid now this)
  /\ (forall now,
        Sitemap.isCacheValid now (snd (fst (Sitemap.del x this)))
        = Sitemap.isCacheValid now this)
  /\ (forall now,
        Sitemap.cacheSetTimestamp this + Sitemap.cacheTime this < now ->
        Sitemap.isCacheValid now this = false)
  /\ Sitemap.cache (Sitemap.clearCache this) = EmptyString
  /\ (forall now, Sitemap.isCacheValid now (Sitemap.clearCache this) = false)
  /\ (forall pretty now now',
        snd (Sitemap.toString pretty now now' (Sitemap.clearCache this))
        = fresh_xml pretty this
        /\ (forall xml, fresh_xml pretty this = Ok xml ->
              cache_slot (fst (Sitemap.toString pretty now now'
                                 (Sitemap.clearCache this)))
              = (xml, now', Sitemap.cacheTime this))
        /\ (is_ok (fresh_xml pretty this) = false ->
              cache_slot (fst (Sitemap.toString pretty now now'
                                 (Sitemap.clearCache this)))
              = (EmptyString, Sitemap.cacheSetTimestamp this,
                 Sitemap.cacheTime this))
        /\ is_ok (fresh_xml pretty this) = stylesheet_legal this).
Proof.
  split; [apply add_cache_slot|].
  split; [apply del_cache_slot|].
  split; [intros now; apply isCacheValid_cache_slot, add_cache_slot|].
  split; [intros now; apply isCacheValid_cache_slot, del_cache_slot|].
  split.
  { intros now Hlt. unfold Sitemap.isCacheValid.
    rewrite Z.geb_leb.
    assert ((now <=? Sitemap.cacheSetTimestamp this + Sitemap.cacheTime this)
            = false) as ->
      by (apply Z.leb_gt; lia).
    apply andb_false_r. }
  split; [reflexivity|].
  split; [intros now; apply isCacheValid_clearCache|].
  intros pretty now now'.
  destruct (toString_not_cached pretty now now' (Sitemap.clearCache this)
              (isCacheValid_clearCache now this)) as (Hs & Hok & Hthrow).
  change (fresh_xml pretty (Sitemap.clearCache this))
    with (fresh_xml pretty this) in Hs, Hok, Hthrow.
  split; [exact Hs|]. split; [exact Hok|]. split; [exact Hthrow|].
  apply fresh_xml_ok.
Qed.
End DocumentCache.

(* ================================================================== *)
(** ** DocumentBuilder: serialization and the cache rule *)

Section Serialization.
Context {T : JSTypes} {I : Imports}.

Lemma JSMap_set_same_value {V} (k : string) (v : V) (m : JSMap.t V) :
  JSMap.get k m = Some v -> JSMap.set k v m = m.
Proof.
  induction m as [|[k' v'] m IH]; cbn; [discriminate|].
  destruct (String.eqb k k') eqn:E.
  - apply String.eqb_eq in E. intros H. inversion H. now subst.
  - intros H. now rewrite IH.
Qed.

Lemma default_namespace_attribs_eq (m : JSMap.t string) :
  default_namespace_attribs m
  = JSMap.set "xmlns:video" "http://www.google.com/schemas/sitemap-video/1.1"
      (JSMap.set "xmlns:image" "http://www.google.com/schemas/sitemap-image/1.1"
      (JSMap.set "xmlns:mobile" "http://www.google.com/schemas/sitemap-mobile/1.0"
      (JSMap.set "xmlns:xhtml" "http://www.w3.org/1999/xhtml"
      (JSMap.set "xmlns:news" "http://www.google.com/schemas/sitemap-news/0.9"
      (JSMap.set "xmlns" "http://www.sitemaps.org/schemas/sitemap/0.9" m))))).
Proof. reflexivity. Qed.

Lemma default_namespace_attribs_idem (m : JSMap.t string) :
  default_namespace_attribs (default_namespace_attribs m)
  = default_namespace_attribs m.
Proof.
  rewrite !default_namespace_attribs_eq.
  do 6 (rewrite JSMap_set_same_value;
        [|solve [repeat first [ apply JSMap_get_set_same
                              | rewrite JSMap_get_set_other by discriminate ]]]).
  reflexivity.
Qed.

Lemma build_children_eq (r : XMLElement.t) (this : Sitemap.t) :
  Sitemap.build_children r this
  = XMLElement.mk (XMLElement.attribs r)
      (XMLElement.children r ++ map buildXML (JSMap.values (Sitemap.urls this)))
      (XMLElement.document r).
Proof.
  unfold Sitemap.build_children.
  generalize (JSMap.values (Sitemap.urls this)) as l. intros l. revert r.
  induction l as [|smi l IH]; intros r; cbn [fold_left map].
  - rewrite app_nil_r. now destruct r.
  - rewrite IH. unfold XMLElement.push_child.
    cbn [XMLElement.attribs XMLElement.children XMLElement.document].
    now rewrite <- app_assoc.
Qed.

(** The three ways a [toString] can go. *)
Lemma toString_cases (pretty : bool) (now now' : Z) (this : Sitemap.t) :
  (exists r e,
     Sitemap.prepare_root this = (r, Throw e)
     /\ stylesheet_legal this = false
     /\ Sitemap.toString pretty now now' this
        = (Sitemap.with_root r this, Throw e))
  \/ (exists r,
        Sitemap.prepare_root this = (r, Ok tt)
        /\ stylesheet_legal this = true
        /\ Sitemap.isCacheValid now this = true
        /\ Sitemap.toString pretty now now' this
           = (Sitemap.with_root r this, Ok (Sitemap.cache this)))
  \/ (exists r,
        Sitemap.prepare_root this = (r, Ok tt)
        /\ stylesheet_legal this = true
        /\ Sitemap.isCacheValid now this = false
        /\ Sitemap.toString pretty now now' this
           = (Sitemap.mk (Sitemap.limit this) (Sitemap.xmlNs this) now'
                (Sitemap.urls this) (Sitemap.cacheTime this)
                (XMLElement.end_ pretty (Sitemap.build_children r this))
                (Sitemap.build_children r this)
                (Sitemap.hostname this) (Sitemap.xslUrl this),
              Ok (XMLElement.end_ pretty (Sitemap.build_children r this)))).
Proof.
  pose proof (prepare_root_ok this) as Hok.
  destruct (Sitemap.prepare_root this) as [r [[]|e]] eqn:Hp; cbn in Hok.
  - destruct (Sitemap.isCacheValid now this) eqn:E.
    + right; left. exists r. repeat split; auto.
      now apply toString_cached.
    + right; right. exists r. repeat split; auto.
      now apply toString_fresh.
  - left. exists r, e. repeat split; auto. now apply toString_throw.
Qed.

(** The root [toString] leaves: the root of lines 337-351, with the
    entries built into it when the call got as far as building. *)
Lemma toString_root (pretty : bool) (now now' : Z) (this : Sitemap.t) :
  Sitemap.root (fst (Sitemap.toString pretty now now' this))
  = if stylesheet_legal this && negb (Sitemap.isCacheValid now this)
    then Sitemap.build_children (fst (Sitemap.prepare_root this)) this
    else fst (Sitemap.prepare_root this).
Proof.
  destruct (toString_cases pretty now now' this)
    as [(r & e & Hp & Hl & ->) | [(r & Hp & Hl & Hv & ->) | (r & Hp & Hl & Hv & ->)]];
    rewrite Hp, Hl; try rewrite Hv; reflexivity.
Qed.

Lemma prepare_root_attribs (this : Sitemap.t) :
  XMLElement.attribs (fst (Sitemap.prepare_root this))
  = (if truthy_string (Sitemap.xmlNs this)
     then XMLElement.attribs (Sitemap.root this)
     else default_namespace_attribs (XMLElement.attribs (Sitemap.root this)))
  /\ XMLElement.children (fst (Sitemap.prepare_root this)) = [].
Proof.
  rewrite prepare_root_eq. cbn zeta.
  destruct (truthy_ostring (Sitemap.xslUrl this)); [|split; reflexivity].
  destruct (XMLElement.insValue _); split; reflexivity.
Qed.

(** No path of [toString] touches the collection. *)
Lemma toString_urls (pretty : bool) (now now' : Z) (this : Sitemap.t) :
  Sitemap.urls (fst (Sitemap.toString pretty now now' this)) = Sitemap.urls this.
Proof.
  destruct (toString_cases pretty now now' this)
    as [(r & e & _ & _ & ->) | [(r & _ & _ & _ & ->) | (r & _ & _ & _ & ->)]];
    reflexivity.
Qed.

(** A [toString] returns exactly when the stylesheet URL, if there is one,
    passes xmlbuilder's checks. *)
Lemma toString_ok (pretty : bool) (now now' : Z) (this : Sitemap.t) :
  is_ok (snd (Sitemap.toString pretty now now' this)) = stylesheet_legal this.
Proof.
  destruct (toString_cases pretty now now' this)
    as [(r & e & _ & Hl & ->) | [(r & _ & Hl & _ & ->) | (r & _ & Hl & _ & ->)]];
    now rewrite Hl.
Qed.


(** Cache rule, first part: within the TTL the cached string is returned as
    it is, whatever the pretty flag, and the cache slot stays as it was. *)
Lemma toString_within_ttl (pretty : bool) (now now' : Z) (this : Sitemap.t) :
  stylesheet_legal this = true ->
  truthy_number (Sitemap.cacheTime this) = true ->
  truthy_string (Sitemap.cache this) = true ->
  now <= Sitemap.cacheSetTimestamp this + Sitemap.cacheTime this ->
  snd (Sitemap.toString pretty now now' this) = Ok (Sitemap.cache this)
  /\ cache_slot (fst (Sitemap.toString pretty now now' this)) = cache_slot this.
Proof.
  intros Hl Ht Hc Hle.
  assert (Sitemap.isCacheValid now this = true) as Hv.
  { unfold Sitemap.isCacheValid. rewrite Ht, Hc, Z.geb_leb. cbn.
    now apply Z.leb_le. }
  destruct (toString_cases pretty now now' this)
    as [(r & e & _ & Hl' & _) | [(r & _ & _ & _ & ->) | (r & _ & _ & Hv' & _)]];
    [congruence | split; reflexivity | congruence].
Qed.

Lemma splice_at_root_last (pre : list XMLElement.DocNode) :
  forallb (fun n => negb (XMLElement.is_root n)) pre = true ->
  XMLElement.splice_at_root (pre ++ [XMLElement.RootElement])
  = Some (pre, [XMLElement.RootElement]).
Proof.
  induction pre as [|n pre IH]; cbn; [reflexivity|].
  intros H. apply andb_true_iff in H as [Hn Hpre].
  apply negb_true_iff in Hn. rewrite Hn, (IH Hpre). reflexivity.
Qed.

Lemma splice_intact (r : XMLElement.t) :
  intact r ->
  XMLElement.splice (XMLElement.document r)
  = (XMLElement.XMLDeclaration
     :: map (fun pi => XMLElement.XMLProcessingInstruction (fst pi) (snd pi))
          (XMLElement.instructions r),
     [XMLElement.RootElement]).
Proof.
  unfold intact, XMLElement.splice. intros ->.
  rewrite app_comm_cons, splice_at_root_last; [reflexivity|].
  cbn. generalize (XMLElement.instructions r) as pis.
  induction pis as [|pi pis IH]; cbn; auto.
Qed.

Lemma instructions_of_nodes (pis : list (string * string)) :
  flat_map XMLElement.instruction_of
    (map (fun pi => XMLElement.XMLProcessingInstruction (fst pi) (snd pi)) pis)
  = pis.
Proof.
  induction pis as [|[t v] pis IH]; cbn; [reflexivity|]. now rewrite IH.
Qed.

Lemma intact_of_instructions (r : XMLElement.t) (pis : list (string * string)) :
  XMLElement.document r
  = (XMLElement.XMLDeclaration
     :: map (fun pi => XMLElement.XMLProcessingInstruction (fst pi) (snd pi)) pis
     ++ [XMLElement.RootElement])%list ->
  intact r /\ XMLElement.instructions r = pis.
Proof.
  intros Hd.
  assert (XMLElement.instructions r = pis) as Hi.
  { unfold XMLElement.instructions. rewrite Hd. cbn.
    rewrite flat_map_app, instructions_of_nodes. cbn. apply app_nil_r. }
  split; [|exact Hi]. unfold intact. now rewrite Hi.
Qed.

(** Lines 337-351 on an intact document that they do not throw on: the
    document stays intact, with the stylesheet instruction added after the
    instructions that were there when the document has a stylesheet URL. *)
Lemma prepare_root_intact (this : Sitemap.t) (r : XMLElement.t) :
  intact (Sitemap.root this) ->
  Sitemap.prepare_root this = (r, Ok tt) ->
  intact r
  /\ XMLElement.instructions r
     = (XMLElement.instructions (Sitemap.root this)
        ++ if truthy_ostring (Sitemap.xslUrl this)
           then [stylesheet_instruction (string_of (Sitemap.xslUrl this))]
           else [])%list.
Proof.
  intros Hin Hp. rewrite prepare_root_eq in Hp. cbn zeta in Hp.
  destruct (truthy_ostring (Sitemap.xslUrl this)).
  - destruct (XMLElement.insValue _) as [[]|e]; [|discriminate].
    rewrite (splice_intact _ Hin) in Hp. cbn [fst snd] in Hp.
    inversion Hp as [Hr]. apply intact_of_instructions. cbn.
    rewrite map_app. cbn. now rewrite <- app_assoc.
  - inversion Hp as [Hr]. rewrite app_nil_r.
    apply intact_of_instructions. cbn. exact Hin.
Qed.

Lemma build_children_intact (r : XMLElement.t) (this : Sitemap.t) :
  intact r -> intact (Sitemap.build_children r this).
Proof.
  rewrite build_children_eq. unfold intact, XMLElement.instructions. cbn.
  auto.
Qed.

(** The text of a document that starts with the declaration is not empty. *)
Lemma end_truthy (pretty : bool) (r : XMLElement.t) :
  intact r -> truthy_string (XMLElement.end_ pretty r) = true.
Proof.
  unfold intact, XMLElement.end_. intros ->. cbn [map String.concat].
  destruct (map _ _ ++ _)%list eqn:E at 1.
  - destruct (map _ (XMLElement.instructions r)); discriminate.
  - destruct (map (XMLElement.write_node pretty r) _); reflexivity.
Qed.


(** Two serializations within the TTL are the same string. *)
Lemma toString_twice_within_ttl
    (p1 p2 : bool) (t1 t1' t2 t2' : Z) (this : Sitemap.t) :
  intact (Sitemap.root this) ->
  stylesheet_legal this = true ->
  truthy_number (Sitemap.cacheTime this) = true ->
  Sitemap.isCacheValid t1 this = false ->
  t2 <= t1' + Sitemap.cacheTime this ->
  is_ok (snd (Sitemap.toString p1 t1 t1' this)) = true
  /\ snd (Sitemap.toString p2 t2 t2' (fst (Sitemap.toString p1 t1 t1' this)))
     = snd (Sitemap.toString p1 t1 t1' this).
Proof.
  intros Hin Hl Ht Hinv Hle.
  destruct (toString_cases p1 t1 t1' this)
    as [(r & e & _ & Hl' & _) | [(r & _ & _ & Hv & _) | (r & Hp & _ & _ & ->)]];
    [congruence | congruence |].
  cbn [fst snd is_ok]. split; [reflexivity|].
  apply toString_within_ttl; cbn; auto.
  apply end_truthy, build_children_intact.
  now apply (prepare_root_intact this).
Qed.

(** Cache rule, second part: with a TTL of 0 every call serializes. *)
Lemma toString_ttl_zero (pretty : bool) (now now' : Z) (this : Sitemap.t) :
  Sitemap.cacheTime this = 0 ->
  snd (Sitemap.toString pretty now now' this) = fresh_xml pretty this
  /\ Sitemap.cacheTime (fst (Sitemap.toString pretty now now' this)) = 0.
Proof.
  intros H0.
  assert (Sitemap.isCacheValid now this = false) as Hinv
    by (unfold Sitemap.isCacheValid; now rewrite H0).
  split; [now apply toString_not_cached|].
  destruct (toString_cases pretty now now' this)
    as [(r & e & _ & _ & ->) | [(r & _ & _ & _ & ->) | (r & _ & _ & _ & ->)]];
    exact H0.
Qed.





(** C9. A document is constructed with [limit] 5000, not 50000. *)
Theorem Sitemap_limit_default :
  (forall opts,
     match snd (Sitemap.new opts) with
     | Ok this => Sitemap.limit this = 5000
     | Throw _ => True
     end)
  /\ exists this,
       snd (Sitemap.new (Options.mk None None None None None None)) = Ok this
       /\ Sitemap.limit this = 5000
       /\ Sitemap.limit this <> 50000.
Proof.
  split.
  - intros opts. unfold Sitemap.new.
    destruct (if truthy_string _ then _ else _); [|exact Logic.I].
    destruct (normalizeURLs _ _) as [urls1 [m|e]]; [|exact Logic.I].
    destruct (Sitemap.validate_all _ _); [reflexivity|exact Logic.I].
  - eexists. split; [reflexivity|]. cbn. split; [reflexivity|discriminate].
Qed.
End Serialization.

Section SerializationExamples.
Import Sample.

(** C3, where the code departs from it. A document with one entry, a TTL of
    1000 ms and a stylesheet URL is serialized at time 0, again at 500
    (within the TTL) and again at 2000 (after it), with no add or delete in
    between. The second string is the first; the third is not: it carries
    the stylesheet instruction three times, once per call of [toString]. *)
Theorem toString_after_ttl_repeats_stylesheet :
  let sm := Sample.styled_sitemap 1000 in
  let r1 := Sitemap.toString false 0 0 sm in
  let r2 := Sitemap.toString false 500 500 (fst r1) in
  let r3 := Sitemap.toString false 2000 2000 (fst r2) in
  let pi := XMLElement.write_instruction EmptyString
              (stylesheet_instruction "/style.xsl") in
  snd (Sitemap.new (Sample.sitemap_options [ElemStr "/a"] 1000
                      (Some "/style.xsl"))) = Ok sm
  /\ snd r2 = snd r1
  /\ Sitemap.urls (fst r2) = Sitemap.urls sm
  /\ snd r3 <> snd r1
  /\ exists body,
       snd r1 = Ok (XMLElement.xml_declaration ++ pi ++ body)
       /\ snd r3 = Ok (XMLElement.xml_declaration ++ pi ++ pi ++ pi ++ body).
Proof.
  cbn zeta. split; [reflexivity|]. split; [reflexivity|].
  split; [reflexivity|]. split.
  - intros H. apply (f_equal returned_length) in H. vm_compute in H.
    discriminate H.
  - eexists. split; vm_compute; reflexivity.
Qed.

(** The same with a TTL of 0, where every call serializes: the second of two
    calls in a row returns a longer document than the first. *)
Example toString_ttl_zero_repeats_stylesheet :
  let sm := Sample.styled_sitemap 0 in
  let r1 := Sitemap.toString false 0 0 sm in
  let r2 := Sitemap.toString false 1 1 (fst r1) in
  (returned_length (snd r2) > returned_length (snd r1))%nat
  /\ is_ok (snd r1) = true
  /\ List.length (XMLElement.instructions (Sitemap.root (fst r2))) = 2%nat.
Proof. cbn zeta. split; [vm_compute; lia|]. split; reflexivity. Qed.

(** Without the stylesheet URL the third serialization is the first. *)
Example toString_after_ttl_plain :
  let sm := match snd (Sitemap.new (Sample.sitemap_options [ElemStr "/a"] 1000
                                      None)) with
            | Ok sm => sm
            | Throw _ => Sample.empty_sitemap
            end in
  let r1 := Sitemap.toString false 0 0 sm in
  let r2 := Sitemap.toString false 500 500 (fst r1) in
  let r3 := Sitemap.toString false 2000 2000 (fst r2) in
  snd r2 = snd r1 /\ snd r3 = snd r1.
Proof. cbn zeta. split; reflexivity. Qed.
End SerializationExamples.

(* ================================================================== *)
(** ** StreamingEmitter *)

Section Streaming.
Context {T : JSTypes} {I : Imports}.

Lemma _transform_ok (item : Elem) (this : SitemapStream.t) (fragment : string) :
  SitemapStream.fragment_of (SitemapStream.hostname this)
    (SitemapStream.level this) item = Ok fragment ->
  SitemapStream._transform item this
  = (fst (normalizeURL item (SitemapStream.hostname this)),
     SitemapStream.mk (SitemapStream.hostname this) (SitemapStream.level this)
       true
       ((if SitemapStream.hasHeadOutput this
         then SitemapStream.pushed this
         else SitemapStream.pushed this ++ [preamble]) ++ [fragment]),
     Ok tt).
Proof.
  unfold SitemapStream.fragment_of, SitemapStream._transform.
  destruct this as [h lvl head out]. cbn [SitemapStream.hostname
    SitemapStream.level SitemapStream.hasHeadOutput SitemapStream.pushed].
  destruct head; cbn [negb SitemapStream.hostname SitemapStream.level
    SitemapStream.push SitemapStream.set_hasHeadOutput
    SitemapStream.hasHeadOutput SitemapStream.pushed];
    destruct (normalizeURL item h) as [item' [smi|e]]; cbn [snd fst result_bind];
    intros H; try discriminate; rewrite H; reflexivity.
Qed.

Lemma _transform_throw (item : Elem) (this : SitemapStream.t) (e : exn) :
  SitemapStream.fragment_of (SitemapStream.hostname this)
    (SitemapStream.level this) item = Throw e ->
  snd (SitemapStream._transform item this) = Throw e.
Proof.
  unfold SitemapStream.fragment_of, SitemapStream._transform.
  destruct this as [h lvl head out].
  destruct head; cbn [negb SitemapStream.hostname SitemapStream.level
    SitemapStream.push SitemapStream.set_hasHeadOutput
    SitemapStream.hasHeadOutput SitemapStream.pushed];
    destruct (normalizeURL item h) as [item' [smi|e']]; cbn [snd fst result_bind];
    intros H; try (rewrite H); try reflexivity; now inversion H.
Qed.

(** Entries written to a stream that has put out its head: one fragment
    each, in order, appended to what was pushed before. *)
Lemma write_all_pushed (items : list Elem) :
  forall (this : SitemapStream.t) (fragments : list string),
  SitemapStream.hasHeadOutput this = true ->
  mapR (SitemapStream.fragment_of (SitemapStream.hostname this)
          (SitemapStream.level this)) items = Ok fragments ->
  snd (SitemapStream.write_all items this) = Ok tt
  /\ snd (fst (SitemapStream.write_all items this))
     = SitemapStream.mk (SitemapStream.hostname this)
         (SitemapStream.level this) true
         (SitemapStream.pushed this ++ fragments).
Proof.
  induction items as [|item items IH]; intros this fragments Hhead Hm.
  - cbn in Hm. inversion Hm; subst. cbn. rewrite app_nil_r.
    destruct this; cbn in *. now subst.
  - cbn [mapR] in Hm.
    destruct (SitemapStream.fragment_of _ _ item) as [f|e] eqn:Ef;
      cbn [result_bind] in Hm; [|discriminate].
    destruct (mapR _ items) as [fs|e] eqn:Efs; cbn [result_bind] in Hm;
      [|discriminate].
    inversion Hm; subst fragments.
    cbn [SitemapStream.write_all]. rewrite (_transform_ok _ _ _ Ef), Hhead.
    specialize (IH (SitemapStream.mk (SitemapStream.hostname this)
                      (SitemapStream.level this) true
                      (SitemapStream.pushed this ++ [f])) fs eq_refl Efs).
    destruct (SitemapStream.write_all items _) as [[rest' this2] r].
    cbn [fst snd] in IH |- *. destruct IH as [-> ->].
    cbn [SitemapStream.hostname SitemapStream.level SitemapStream.pushed].
    now rewrite <- app_assoc.
Qed.

(** Whether the run ends well is whether every entry yields its fragment:
    the first entry that does not normalize stops the stream. *)
Lemma write_all_result (items : list Elem) :
  forall (this : SitemapStream.t),
  snd (SitemapStream.write_all items this)
  = result_bind (mapR (SitemapStream.fragment_of (SitemapStream.hostname this)
                         (SitemapStream.level this)) items)
      (fun _ => Ok tt).
Proof.
  induction items as [|item items IH]; intros this; [reflexivity|].
  cbn [SitemapStream.write_all mapR].
  destruct (SitemapStream.fragment_of _ _ item) as [f|e] eqn:Ef.
  - rewrite (_transform_ok _ _ _ Ef). cbn [result_bind].
    specialize (IH (SitemapStream.mk (SitemapStream.hostname this)
                      (SitemapStream.level this) true
                      ((if SitemapStream.hasHeadOutput this
                        then SitemapStream.pushed this
                        else SitemapStream.pushed this ++ [preamble]) ++ [f]))).
    destruct (SitemapStream.write_all items _) as [[rest' this2] r].
    cbn [fst snd SitemapStream.hostname SitemapStream.level] in IH |- *.
    rewrite IH. destruct (mapR _ items); reflexivity.
  - pose proof (_transform_throw _ _ _ Ef) as Ht.
    destruct (SitemapStream._transform item this) as [[item' this1] r].
    cbn in Ht. subst r. reflexivity.
Qed.

(** A run ends well exactly when every entry yields its fragment; otherwise
    it ends with the exception of the first entry that does not. *)
Lemma run_result (items : list Elem) (this : SitemapStream.t) :
  snd (SitemapStream.run items this)
  = result_bind (mapR (SitemapStream.fragment_of (SitemapStream.hostname this)
                         (SitemapStream.level this)) items)
      (fun _ => Ok tt).
Proof.
  unfold SitemapStream.run. rewrite <- write_all_result.
  destruct (SitemapStream.write_all items this) as [[items' this1] [[]|e]];
    reflexivity.
Qed.

(** C2. A stream that ends with no entry written has pushed the closing tag
    and nothing else. A stream that took one entry or more, each yielding
    its fragment, has pushed the preamble first, then the fragments of the
    entries in the order written, then the closing tag: the preamble comes
    once, in front of every fragment. *)
Theorem stream_output (h : option string) (lvl : option ErrorLevel) :
  let s0 := SitemapStream.new h lvl in
  SitemapStream.run [] s0
  = ([], SitemapStream.mk h (SitemapStream.level s0) false [closetag], Ok tt)
  /\ forall (items : list Elem) (fragments : list string),
       items <> [] ->
       mapR (SitemapStream.fragment_of h (SitemapStream.level s0)) items
       = Ok fragments ->
       snd (SitemapStream.run items s0) = Ok tt
       /\ SitemapStream.pushed (snd (fst (SitemapStream.run items s0)))
          = (preamble :: fragments ++ [closetag])%list
       /\ List.length fragments = List.length items.
Proof.
  cbn zeta. split; [reflexivity|].
  intros items fragments Hne Hm.
  assert (List.length fragments = List.length items) as Hlen.
  { apply mapR_Forall2 in Hm. symmetry. eapply Forall2_length; eassumption. }
  destruct items as [|item items]; [contradiction|].
  cbn [mapR] in Hm.
  destruct (SitemapStream.fragment_of _ _ item) as [f|e] eqn:Ef;
    cbn [result_bind] in Hm; [|discriminate].
  destruct (mapR _ items) as [fs|e] eqn:Efs; cbn [result_bind] in Hm;
    [|discriminate].
  inversion Hm; subst fragments.
  unfold SitemapStream.run. cbn [SitemapStream.write_all].
  rewrite (_transform_ok item (SitemapStream.new h lvl) f Ef).
  cbn [SitemapStream.new SitemapStream.hasHeadOutput SitemapStream.pushed
       SitemapStream.hostname SitemapStream.level app].
  pose proof (write_all_pushed items
                (SitemapStream.mk h (match lvl with Some l => l | None => WARN end)
                   true [preamble; f]) fs eq_refl Efs) as [Hr Hs].
  destruct (SitemapStream.write_all items _) as [[rest' this2] r].
  cbn [fst snd] in Hr, Hs |- *. subst r this2.
  cbn [SitemapStream._flush SitemapStream.push SitemapStream.pushed
       SitemapStream.hostname SitemapStream.level SitemapStream.hasHeadOutput
       fst snd].
  split; [reflexivity|]. split; [|assumption].
  cbn [app]. reflexivity.
Qed.
End Streaming.

Section StreamingExamples.
Import Sample.

Lemma stream_output_witness :
  snd (SitemapStream.run [ElemStr "/a"; Sample.page_with_clip]
         (SitemapStream.new Sample.host None)) = Ok tt
  /\ SitemapStream.pushed
       (snd (fst (SitemapStream.run [ElemStr "/a"; Sample.page_with_clip]
                    (SitemapStream.new Sample.host None))))
     = [preamble; Sample.loc_element "http://example.com/a";
        Sample.loc_element "http://example.com/a"; closetag]
  /\ List.length [Sample.loc_element "http://example.com/a";
                  Sample.loc_element "http://example.com/a"]
     = List.length [ElemStr "/a"; Sample.page_with_clip].
Proof.
  assert ([ElemStr "/a"; Sample.page_with_clip] <> []) as Hne by discriminate.
  exact (proj2 (stream_output Sample.host None)
           [ElemStr "/a"; Sample.page_with_clip]
           [Sample.loc_element "http://example.com/a";
            Sample.loc_element "http://example.com/a"]
           Hne eq_refl).
Defined.
End StreamingExamples.

(* ================================================================== *)
(** ** IndexOrchestrator *)

Section Index.
Context {T : JSTypes} {I : Imports}.
Variable gzipSync : string -> string.
Variable buildSitemapIndex : list string -> option string -> string.

(** The configuration error is the only error of its kind. *)
Lemma BadConfiguration_only (e : exn) :
  error_kind e = BadConfiguration <-> e = UndefinedTargetFolder.
Proof. destruct e; cbn; split; intros H; try discriminate; reflexivity. Qed.

(** Writing the chunks never removes a file and never touches the set of
    directories. *)
Lemma write_chunks_extends (c : SitemapIndex.conf) (dir : string) (now : Z)
    (chunks : list (list Elem)) :
  forall (index : nat) (fs : FileSystem.t),
  let fs' := fst (SitemapIndex.write_chunks gzipSync c dir now index chunks fs) in
  FileSystem.directories fs' = FileSystem.directories fs
  /\ exists written, FileSystem.files fs' = (FileSystem.files fs ++ written)%list.
Proof.
  induction chunks as [|ch rest IH]; intros index fs; cbn zeta.
  - cbn. split; [reflexivity|]. exists []. now rewrite app_nil_r.
  - cbn [SitemapIndex.write_chunks].
    destruct (Sitemap.new _) as [urls' [sm|e]];
      [destruct (snd (Sitemap.toString false now now sm)) as [xml|e]|].
    + match goal with
      | |- context [SitemapIndex.write_chunks _ _ _ _ ?i _ ?f] =>
          specialize (IH i f)
      end.
      cbn zeta in IH.
      destruct (SitemapIndex.write_chunks _ _ _ _ _ rest _) as [fs2 [names|e]];
        cbn [fst] in IH |- *; destruct IH as [Hd [w Hw]];
        (split; [exact Hd|]); rewrite Hw; cbn [FileSystem.writeFile
          FileSystem.files]; rewrite <- app_assoc; eauto.
    + cbn. split; [reflexivity|]. exists []. now rewrite app_nil_r.
    + cbn. split; [reflexivity|]. exists []. now rewrite app_nil_r.
Qed.

(** C10. Called without a target location that is there, the orchestrator
    returns the configuration error and the file system it was given: no
    chunk is cut, no document written. The error is of the configuration
    kind, and no other error is. *)
Theorem createSitemapIndex_fails_fast
    (c : SitemapIndex.conf) (now : Z) (fs : FileSystem.t) :
  SitemapIndex.target_configured c fs = false ->
  SitemapIndex.createSitemapIndex gzipSync buildSitemapIndex c now fs
  = (fs, Throw UndefinedTargetFolder)
  /\ error_kind UndefinedTargetFolder = BadConfiguration
  /\ (forall e, e <> UndefinedTargetFolder -> error_kind e <> BadConfiguration).
Proof.
  intros H. unfold SitemapIndex.createSitemapIndex. rewrite H. cbn [negb].
  split; [reflexivity|]. split; [reflexivity|].
  intros e Hne Hk. now apply BadConfiguration_only in Hk.
Qed.

(** With the target location there, the index document is written, and it
    is written last. *)
Lemma createSitemapIndex_writes_index
    (c : SitemapIndex.conf) (now : Z) (fs fs' : FileSystem.t) :
  SitemapIndex.createSitemapIndex gzipSync buildSitemapIndex c now fs
  = (fs', Ok true) ->
  SitemapIndex.target_configured c fs = true
  /\ exists fs1 names,
       fs' = FileSystem.writeFile
               (string_of (SitemapIndex.targetFolder c) ++ "/"
                ++ SitemapIndex.sitemapName c ++ "-index.xml")
               (buildSitemapIndex names (SitemapIndex.xslUrl c)) fs1.
Proof.
  unfold SitemapIndex.createSitemapIndex.
  destruct (SitemapIndex.target_configured c fs); cbn [negb]; [|discriminate].
  destruct (SitemapIndex.write_chunks _ _ _ _ _ _ _) as [fs1 [names|e]];
    [|discriminate].
  intros H. inversion H; subst. eauto.
Qed.
End Index.

Section IndexExamples.
Import Sample.

Lemma createSitemapIndex_fails_fast_witness :
  SitemapIndex.createSitemapIndex (fun s => s) Sample.index_document
    (Sample.index_conf (Some "/tmp2")) 0 Sample.disk
  = (Sample.disk, Throw UndefinedTargetFolder)
  /\ error_kind UndefinedTargetFolder = BadConfiguration
  /\ (forall e, e <> UndefinedTargetFolder -> error_kind e <> BadConfiguration).
Proof.
  exact (createSitemapIndex_fails_fast (fun s => s) Sample.index_document
           (Sample.index_conf (Some "/tmp2")) 0 Sample.disk eq_refl).
Defined.

(** The two calls of the test: /tmp2 is not there and nothing is written;
    /tmp is there and the two documents and the index are written, in that
    order. *)
Example createSitemapIndex_evaluated :
  map fst (FileSystem.files
             (fst (SitemapIndex.createSitemapIndex (fun s => s)
                     Sample.index_document (Sample.index_conf (Some "/tmp2"))
                     0 Sample.disk))) = []
  /\ snd (SitemapIndex.createSitemapIndex (fun s => s) Sample.index_document
            (Sample.index_conf (Some "/tmp")) 0 Sample.disk) = Ok true
  /\ map fst (FileSystem.files
                (fst (SitemapIndex.createSitemapIndex (fun s => s)
                        Sample.index_document (Sample.index_conf (Some "/tmp"))
                        0 Sample.disk)))
     = ["/tmp/sm-test-0.xml"; "/tmp/sm-test-1.xml"; "/tmp/sm-test-index.xml"].
Proof. repeat split; reflexivity. Qed.
End IndexExamples.

(* ================================================================== *)
(** * Further properties *)

(** ** EntryNormalizer *)

Section NormalizerMore.
Context {T : JSTypes} {I : Imports}.

Lemma Loose_after_img_idem (o : Loose.t) :
  Loose_after_img (Loose_after_img o) = Loose_after_img o.
Proof.
  unfold Loose_after_img; cbn. now rewrite img_as_array_idem.
Qed.

Lemma normalizeURL_object (o : Loose.t) (h : option string) :
  normalizeURL (ElemObj o) h
  = (ElemObj (fst (normalizeURL_obj h o)), snd (normalizeURL_obj h o)).
Proof. unfold normalizeURL. now destruct (normalizeURL_obj h o). Qed.

(** X1. Normalizing an entry a second time, on the object as the first call
    left it, ends as the first call did, with the same strict entry or the
    same exception, and writes nothing more to the object. *)
Theorem normalizeURL_idempotent (elem : Elem) (h : option string) :
  normalizeURL (fst (normalizeURL elem h)) h
  = (fst (normalizeURL elem h), snd (normalizeURL elem h)).
Proof.
  destruct elem as [s|o]; [reflexivity|].
  rewrite (normalizeURL_object o). cbn [fst snd].
  rewrite normalizeURL_object.
  rewrite (normalizeURL_obj_eq h o).
  destruct (URL_toString (Loose.url o) h) as [u|e] eqn:Eu.
  2:{ cbn [fst snd]. now rewrite normalizeURL_obj_eq, Eu. }
  destruct (mapR (resolve_img h) (loose_images (Loose.img o))) as [imgs|e] eqn:Ei.
  2:{ cbn [fst snd]. rewrite normalizeURL_obj_eq.
      change (Loose.url (Loose_after_img o)) with (Loose.url o).
      change (Loose.img (Loose_after_img o)) with (img_as_array (Loose.img o)).
      now rewrite Eu, loose_images_as_array, Ei, Loose_after_img_idem. }
  destruct (mapR (resolve_link h) (loose_links (Loose.links o))) as [links|e] eqn:El.
  2:{ cbn [fst snd]. rewrite normalizeURL_obj_eq.
      change (Loose.url (Loose_after_img o)) with (Loose.url o).
      change (Loose.img (Loose_after_img o)) with (img_as_array (Loose.img o)).
      change (Loose.links (Loose_after_img o)) with (Loose.links o).
      now rewrite Eu, loose_images_as_array, Ei, El, Loose_after_img_idem. }
  destruct (computed_lastmod o) as [lm|e] eqn:Em; cbn [fst snd];
    rewrite normalizeURL_obj_eq;
    rewrite computed_lastmod_after;
    change (Loose.url (Loose_after o)) with (Loose.url o);
    change (Loose.img (Loose_after o)) with (img_as_array (Loose.img o));
    change (Loose.video (Loose_after o)) with (video_as_array (Loose.video o));
    change (Loose.links (Loose_after o)) with (Loose.links o);
    change (Loose.lastmod (Loose_after o)) with (Loose.lastmod o);
    change (Loose.lastmodISO (Loose_after o)) with (Loose.lastmodISO o);
    change (Loose.lastmodfile (Loose_after o)) with (Loose.lastmodfile o);
    change (Loose.ext (Loose_after o)) with (Loose.ext o);
    rewrite Eu, loose_images_as_array, Ei, El, Em, ?loose_videos_as_array,
      Loose_after_idem; reflexivity.
Qed.

(** X2. What a normalization that throws leaves behind in the caller's
    object depends on where it throws: on the entry's own URL, nothing has
    been written; on an image URL or a link URL, [img] has been put in array
    form and [video] has not; on the last-modified source, both have. *)
Theorem normalizeURL_failure_writes (o : Loose.t) (h : option string) (e : exn) :
  snd (normalizeURL (ElemObj o) h) = Throw e ->
  (URL_toString (Loose.url o) h = Throw e
   /\ fst (normalizeURL (ElemObj o) h) = ElemObj o)
  \/ (is_ok (URL_toString (Loose.url o) h) = true
      /\ (mapR (resolve_img h) (loose_images (Loose.img o)) = Throw e
          \/ (is_ok (mapR (resolve_img h) (loose_images (Loose.img o))) = true
              /\ mapR (resolve_link h) (loose_links (Loose.links o)) = Throw e))
      /\ fst (normalizeURL (ElemObj o) h) = ElemObj (Loose_after_img o))
  \/ (is_ok (URL_toString (Loose.url o) h) = true
      /\ is_ok (mapR (resolve_img h) (loose_images (Loose.img o))) = true
      /\ is_ok (mapR (resolve_link h) (loose_links (Loose.links o))) = true
      /\ computed_lastmod o = Throw e
      /\ fst (normalizeURL (ElemObj o) h) = ElemObj (Loose_after o)).
Proof.
  unfold normalizeURL. rewrite normalizeURL_obj_eq.
  destruct (URL_toString (Loose.url o) h) as [u|e1].
  2:{ cbn. intros H. inversion H. now left. }
  destruct (mapR (resolve_img h) _) as [imgs|e1].
  2:{ cbn. intros H. inversion H. right; left. auto. }
  destruct (mapR (resolve_link h) _) as [links|e1].
  2:{ cbn. intros H. inversion H. right; left. auto. }
  destruct (computed_lastmod o) as [lm|e1]; cbn; intros H; inversion H.
  right; right. auto.
Qed.

(** X3. A video descriptor that is already strict is left as it is by the
    normalization of videos; in particular normalizing the outcome of a
    normalization changes nothing. *)
Theorem normalize_video_fixed_point (v : Video.t) (l : VideoLoose.t) :
  normalize_video (Video_as_loose v) = v
  /\ normalize_video (Video_as_loose (normalize_video l)) = normalize_video l.
Proof.
  assert (forall w, normalize_video (Video_as_loose w) = w) as Hfix.
  { intros [th ti de co pl ff li rs tg ra vc ex].
    unfold normalize_video, Video_as_loose; cbn.
    destruct ff, li, rs, ra, vc; reflexivity. }
  split; apply Hfix.
Qed.

(** X4. Which last-modified source can make normalization throw: when
    every URL of the entry resolves, a [lastmodfile] that cannot be statted
    throws the file system's exception; a readable [lastmodfile] makes
    normalization return whatever [lastmodISO] and [lastmod] hold; without
    [lastmodfile], a [lastmodISO] that is no date throws the RangeError of
    [toISOString], even beside a valid [lastmod]. *)
Theorem normalizeURL_lastmod_failure (o : Loose.t) (h : option string) :
  is_ok (URL_toString (Loose.url o) h) = true ->
  is_ok (mapR (resolve_img h) (loose_images (Loose.img o))) = true ->
  is_ok (mapR (resolve_link h) (loose_links (Loose.links o))) = true ->
  (forall e, given (Loose.lastmodfile o) ->
     statSync_mtime (string_of (Loose.lastmodfile o)) = Throw e ->
     snd (normalizeURL (ElemObj o) h) = Throw e)
  /\ (forall mtime, given (Loose.lastmodfile o) ->
     statSync_mtime (string_of (Loose.lastmodfile o)) = Ok mtime ->
     is_ok (snd (normalizeURL (ElemObj o) h)) = true)
  /\ (~ given (Loose.lastmodfile o) -> given (Loose.lastmodISO o) ->
     Date_parse (string_of (Loose.lastmodISO o)) = None ->
     snd (normalizeURL (ElemObj o) h) = Throw RangeError_InvalidTime).
Proof.
  intros Hu Hi Hl. unfold normalizeURL. rewrite normalizeURL_obj_eq.
  destruct (URL_toString (Loose.url o) h) as [u|?]; [|discriminate].
  destruct (mapR (resolve_img h) _) as [imgs|?]; [|discriminate].
  destruct (mapR (resolve_link h) _) as [links|?]; [|discriminate].
  rewrite computed_lastmod_cases. unfold given.
  repeat split.
  - intros e Hf Hs. now rewrite Hf, Hs.
  - intros mtime Hf Hs. now rewrite Hf, Hs.
  - intros Hf Hiso Hp. apply not_true_is_false in Hf.
    now rewrite Hf, Hiso, Hp.
Qed.
End NormalizerMore.

Section NormalizerMoreExamples.
Import Sample.

Lemma normalizeURL_failure_writes_witness :
  (URL_toString "http://example.com/a" None
   = Throw (TypeError_InvalidURL "/pic.jpg")
   /\ fst (normalizeURL page_relative_image None) = page_relative_image)
  \/ (is_ok (URL_toString "http://example.com/a" None) = true
      /\ (mapR (resolve_img None) [Img.of_url "/pic.jpg"]
          = Throw (TypeError_InvalidURL "/pic.jpg")
          \/ (is_ok (mapR (resolve_img None) [Img.of_url "/pic.jpg"]) = true
              /\ mapR (resolve_link None) []
                 = Throw (TypeError_InvalidURL "/pic.jpg")))
      /\ fst (normalizeURL page_relative_image None)
         = ElemObj (Loose.mk "http://example.com/a"
                      (Some (ImgMany [ImgObj (Img.of_url "/pic.jpg")]))
                      (Some (VideoOne Sample.clip)) None None None None None))
  \/ (is_ok (URL_toString "http://example.com/a" None) = true
      /\ is_ok (mapR (resolve_img None) [Img.of_url "/pic.jpg"]) = true
      /\ is_ok (mapR (resolve_link None) []) = true
      /\ computed_lastmod
           (Loose.mk "http://example.com/a" (Some (ImgOne (ImgStr "/pic.jpg")))
              (Some (VideoOne Sample.clip)) None None None None None)
         = Throw (TypeError_InvalidURL "/pic.jpg")
      /\ fst (normalizeURL page_relative_image None)
         = ElemObj (Loose.mk "http://example.com/a"
                      (Some (ImgMany [ImgObj (Img.of_url "/pic.jpg")]))
                      (Some (VideoMany [Sample.clip])) None None None None None)).
Proof.
  exact (normalizeURL_failure_writes
           (Loose.mk "http://example.com/a" (Some (ImgOne (ImgStr "/pic.jpg")))
              (Some (VideoOne Sample.clip)) None None None None None)
           None (TypeError_InvalidURL "/pic.jpg") eq_refl).
Defined.

Lemma normalizeURL_lastmod_failure_witness :
  snd (normalizeURL
         (ElemObj (Loose.mk "http://example.com/a" None None None
                     (Some "2018-11-26") (Some "yesterday") None None)) None)
  = Throw RangeError_InvalidTime.
Proof.
  assert (~ given (@None string)) as Hf by (intros H; discriminate H).
  exact (proj2 (proj2 (normalizeURL_lastmod_failure
           (Loose.mk "http://example.com/a" None None None
              (Some "2018-11-26") (Some "yesterday") None None)
           None eq_refl eq_refl eq_refl)) Hf eq_refl eq_refl).
Defined.
End NormalizerMoreExamples.

(** ** The batch normalizer and the keyed collection *)

Section BatchNormalizer.
Context {T : JSTypes} {I : Imports}.

Lemma normalizeURL_fst_ok (elem : Elem) (h : option string) (smi : Smi.t) :
  snd (normalizeURL elem h) = Ok smi ->
  normalizeURL elem h = (Elem_after elem, Ok smi).
Proof.
  destruct (normalizeURL elem h) as [e' r] eqn:E. cbn. intros ->.
  now apply normalizeURL_ok_inv in E as [-> _].
Qed.

Lemma normalizeURLs_into_app (l1 l2 : list Elem) (h : option string) :
  forall m : JSMap.t Smi.t,
  normalizeURLs_into m (l1 ++ l2) h
  = match normalizeURLs_into m l1 h with
    | (l1', Ok m1) =>
        let (l2', r) := normalizeURLs_into m1 l2 h in ((l1' ++ l2')%list, r)
    | (l1', Throw e) => ((l1' ++ l2)%list, Throw e)
    end.
Proof.
  induction l1 as [|x l1 IH]; intros m; cbn [app normalizeURLs_into].
  - now destruct (normalizeURLs_into m l2 h).
  - destruct (normalizeURL x h) as [x' [smi|e]]; [|reflexivity].
    rewrite IH.
    destruct (normalizeURLs_into _ l1 h) as [l1' [m1|e]]; [|reflexivity].
    now destruct (normalizeURLs_into m1 l2 h).
Qed.

Lemma normalizeURLs_into_ok (urls : list Elem) (h : option string) :
  forall (m : JSMap.t Smi.t) (smis : list Smi.t),
  strict_entries urls h = Ok smis ->
  normalizeURLs_into m urls h = (map Elem_after urls, Ok (collect smis m)).
Proof.
  unfold strict_entries.
  induction urls as [|x urls IH]; intros m smis H; cbn in H.
  - inversion H. reflexivity.
  - destruct (snd (normalizeURL x h)) as [smi|e] eqn:Ex; cbn in H; [|discriminate].
    destruct (mapR _ urls) as [rest|e] eqn:Er; cbn in H; [|discriminate].
    inversion H; subst smis.
    cbn [normalizeURLs_into map]. rewrite (normalizeURL_fst_ok _ _ _ Ex).
    now rewrite (IH _ rest eq_refl).
Qed.

Lemma normalizeURLs_into_ok_inv (urls : list Elem) (h : option string) :
  forall (m m' : JSMap.t Smi.t) (urls' : list Elem),
  normalizeURLs_into m urls h = (urls', Ok m') ->
  exists smis,
    strict_entries urls h = Ok smis
    /\ urls' = map Elem_after urls
    /\ m' = collect smis m.
Proof.
  unfold strict_entries.
  induction urls as [|x urls IH]; intros m m' urls' H; cbn in H.
  - inversion H; subst. exists []. auto.
  - destruct (normalizeURL x h) as [x' [smi|e]] eqn:Ex; [|discriminate].
    destruct (normalizeURLs_into _ urls h) as [rest' r] eqn:Er.
    inversion H; subst.
    apply IH in Er as (smis & Hs & -> & ->).
    exists (smi :: smis). cbn [mapR map]. rewrite Ex. cbn.
    rewrite Hs. cbn.
    apply normalizeURL_ok_inv in Ex as [-> _]. auto.
Qed.

Lemma find_last (f : Smi.t -> bool) (l : list Smi.t) (x : Smi.t) :
  find f (l ++ [x])
  = match find f l with
    | Some y => Some y
    | None => if f x then Some x else None
    end.
Proof.
  induction l as [|y l IH]; cbn; [reflexivity|].
  destruct (f y); [reflexivity | exact IH].
Qed.

Lemma JSMap_get_set (k k' : string) (v : Smi.t) (m : JSMap.t Smi.t) :
  JSMap.get k (JSMap.set k' v m)
  = if String.eqb k k' then Some v else JSMap.get k m.
Proof.
  destruct (String.eqb k k') eqn:E.
  - apply String.eqb_eq in E. subst. apply JSMap_get_set_same.
  - apply String.eqb_neq in E. now apply JSMap_get_set_other.
Qed.

(** Looking a key up in a collection filled entry by entry finds the last
    entry stored under that key. *)
Lemma collect_get (smis : list Smi.t) :
  forall (m : JSMap.t Smi.t) (k : string),
  JSMap.get k (collect smis m)
  = match find (fun smi => String.eqb k (Smi.url smi)) (rev smis) with
    | Some smi => Some smi
    | None => JSMap.get k m
    end.
Proof.
  unfold collect.
  induction smis as [|smi smis IH]; intros m k; cbn [fold_left rev find];
    [reflexivity|].
  rewrite IH, find_last, JSMap_get_set.
  destruct (find _ (rev smis)); [reflexivity|].
  now destruct (String.eqb k (Smi.url smi)).
Qed.

Lemma keyed_by_url_set (smi : Smi.t) (m : JSMap.t Smi.t) :
  keyed_by_url m -> keyed_by_url (JSMap.set (Smi.url smi) smi m).
Proof.
  unfold keyed_by_url. induction m as [|[k v] m IH]; cbn; intros H.
  - repeat constructor.
  - inversion H; subst.
    destruct (String.eqb (Smi.url smi) k); constructor; auto.
Qed.

Lemma keyed_by_url_remove (k : string) (m : JSMap.t Smi.t) :
  keyed_by_url m -> keyed_by_url (JSMap.remove k m).
Proof.
  unfold keyed_by_url, JSMap.remove. intros H.
  apply Forall_forall. intros kv Hin. apply filter_In in Hin as [Hin _].
  revert kv Hin. now apply Forall_forall.
Qed.

Lemma collect_invariant (smis : list Smi.t) :
  forall m : JSMap.t Smi.t,
  JSMap.wf m -> keyed_by_url m ->
  JSMap.wf (collect smis m) /\ keyed_by_url (collect smis m).
Proof.
  unfold collect.
  induction smis as [|smi smis IH]; intros m Hwf Hk; cbn [fold_left]; [auto|].
  apply IH; [now apply JSMap_wf_set | now apply keyed_by_url_set].
Qed.

Lemma collect_size (smis : list Smi.t) :
  forall m : JSMap.t Smi.t,
  JSMap.size (collect smis m) <= JSMap.size m + Z.of_nat (List.length smis).
Proof.
  unfold collect.
  induction smis as [|smi smis IH]; intros m; cbn [fold_left List.length].
  - lia.
  - specialize (IH (JSMap.set (Smi.url smi) smi m)).
    assert (JSMap.size (JSMap.set (Smi.url smi) smi m) <= JSMap.size m + 1).
    { destruct (JSMap.has (Smi.url smi) m) eqn:E.
      - rewrite JSMap_size_set_present by assumption. lia.
      - rewrite JSMap_size_set_absent by assumption. lia. }
    lia.
Qed.

(** X5. When [normalizeURLs] returns, every entry has been normalized, in
    order; the collection holds, under each resolved URL, the strict entry
    of the last entry of the list with that URL; its keys are distinct,
    each the URL of the entry stored under it; and it has at most as many
    entries as the list. *)
Theorem normalizeURLs_last_wins
    (urls urls' : list Elem) (h : option string) (m : JSMap.t Smi.t) :
  normalizeURLs urls h = (urls', Ok m) ->
  exists smis,
    strict_entries urls h = Ok smis
    /\ urls' = map Elem_after urls
    /\ (forall k, JSMap.get k m
                  = find (fun smi => String.eqb k (Smi.url smi)) (rev smis))
    /\ JSMap.wf m
    /\ keyed_by_url m
    /\ JSMap.size m <= Z.of_nat (List.length urls).
Proof.
  unfold normalizeURLs. intros H.
  apply normalizeURLs_into_ok_inv in H as (smis & Hs & -> & ->).
  exists smis. split; [assumption|]. split; [reflexivity|].
  split.
  { intros k. rewrite collect_get. now destruct (find _ (rev smis)). }
  destruct (collect_invariant smis JSMap.empty) as [Hwf Hk];
    [apply JSMap_wf_empty | constructor |].
  split; [assumption|]. split; [assumption|].
  pose proof (collect_size smis JSMap.empty) as Hsz.
  assert (List.length smis = List.length urls) as <-.
  { unfold strict_entries in Hs. apply mapR_Forall2 in Hs.
    symmetry. eapply Forall2_length; eassumption. }
  cbn in Hsz. exact Hsz.
Qed.

(** X6. [normalizeURLs] stops at the first entry that does not normalize:
    it throws that entry's exception, no collection is returned, the
    entries before have been normalized, and the entries after have not
    been touched. *)
Theorem normalizeURLs_stops_at_first_failure
    (l1 l2 : list Elem) (x : Elem) (h : option string)
    (smis : list Smi.t) (e : exn) :
  strict_entries l1 h = Ok smis ->
  snd (normalizeURL x h) = Throw e ->
  normalizeURLs (l1 ++ x :: l2) h
  = ((map Elem_after l1 ++ fst (normalizeURL x h) :: l2)%list, Throw e).
Proof.
  intros Hs Hx. unfold normalizeURLs.
  rewrite normalizeURLs_into_app, (normalizeURLs_into_ok _ _ _ _ Hs).
  cbn [normalizeURLs_into].
  destruct (normalizeURL x h) as [x' r]. cbn in Hx |- *. now subst r.
Qed.

(** X7. Adding an entry to a document gives the collection the batch
    normalizer gives for the list with that entry at its end: a document
    built from a list and then added to holds what a document built from
    the longer list holds. *)
Theorem add_is_normalizeURLs_append
    (l l' : list Elem) (x x' : Elem) (level : option ErrorLevel)
    (this this1 : Sitemap.t) (n : Z) :
  normalizeURLs l (Sitemap.hostname this) = (l', Ok (Sitemap.urls this)) ->
  Sitemap.add x level this = (x', this1, Ok n) ->
  normalizeURLs (l ++ [x]) (Sitemap.hostname this)
  = ((l' ++ [x'])%list, Ok (Sitemap.urls this1)).
Proof.
  intros Hl Hadd. unfold normalizeURLs in *.
  apply add_ok_inv in Hadd as (smi & Hn & _ & -> & _).
  rewrite normalizeURLs_into_app, Hl. cbn [normalizeURLs_into].
  rewrite Hn. reflexivity.
Qed.
End BatchNormalizer.

Section BatchNormalizerExamples.
Import Sample.

Lemma normalizeURLs_last_wins_witness :
  exists smis,
    strict_entries [ElemStr "/a"; ElemStr "/b"; Sample.page_with_clip]
      Sample.host = Ok smis
    /\ [ElemStr "/a"; ElemStr "/b"; Elem_after Sample.page_with_clip]
       = map Elem_after [ElemStr "/a"; ElemStr "/b"; Sample.page_with_clip]
    /\ (forall k,
          JSMap.get k
            [("http://example.com/a", Sample.strict_of Sample.page_with_clip);
             ("http://example.com/b", Sample.strict_of (ElemStr "/b"))]
          = find (fun smi => String.eqb k (Smi.url smi)) (rev smis))
    /\ JSMap.wf
         [("http://example.com/a", Sample.strict_of Sample.page_with_clip);
          ("http://example.com/b", Sample.strict_of (ElemStr "/b"))]
    /\ keyed_by_url
         [("http://example.com/a", Sample.strict_of Sample.page_with_clip);
          ("http://example.com/b", Sample.strict_of (ElemStr "/b"))]
    /\ JSMap.size
         [("http://example.com/a", Sample.strict_of Sample.page_with_clip);
          ("http://example.com/b", Sample.strict_of (ElemStr "/b"))]
       <= Z.of_nat (List.length [ElemStr "/a"; ElemStr "/b"; Sample.page_with_clip]).
Proof.
  assert (normalizeURLs [ElemStr "/a"; ElemStr "/b"; Sample.page_with_clip]
            Sample.host
          = ([ElemStr "/a"; ElemStr "/b"; Elem_after Sample.page_with_clip],
             Ok [("http://example.com/a", Sample.strict_of Sample.page_with_clip);
                 ("http://example.com/b", Sample.strict_of (ElemStr "/b"))]))
    as H by reflexivity.
  exact (normalizeURLs_last_wins _ _ _ _ H).
Defined.

Lemma normalizeURLs_stops_at_first_failure_witness :
  normalizeURLs ([ElemStr "http://example.com/a"]
                 ++ page_relative_image :: [Sample.page_with_clip]) None
  = ((map Elem_after [ElemStr "http://example.com/a"]
      ++ fst (normalizeURL page_relative_image None)
         :: [Sample.page_with_clip])%list,
     Throw (TypeError_InvalidURL "/pic.jpg")).
Proof.
  exact (normalizeURLs_stops_at_first_failure
           [ElemStr "http://example.com/a"] [Sample.page_with_clip]
           page_relative_image None
           [Smi.mk "http://example.com/a" [] [] [] None None None None]
           (TypeError_InvalidURL "/pic.jpg") eq_refl eq_refl).
Defined.

Lemma add_is_normalizeURLs_append_witness :
  normalizeURLs ([ElemStr "/a"; ElemStr "/b"] ++ [Sample.page_with_clip])
    (Sitemap.hostname two_pages)
  = (([ElemStr "/a"; ElemStr "/b"] ++ [Elem_after Sample.page_with_clip])%list,
     Ok (Sitemap.urls
           (snd (fst (Sitemap.add Sample.page_with_clip None two_pages))))).
Proof.
  assert (normalizeURLs [ElemStr "/a"; ElemStr "/b"] (Sitemap.hostname two_pages)
          = ([ElemStr "/a"; ElemStr "/b"], Ok (Sitemap.urls two_pages))) as Hl
    by reflexivity.
  assert (Sitemap.add Sample.page_with_clip None two_pages
          = (Elem_after Sample.page_with_clip,
             snd (fst (Sitemap.add Sample.page_with_clip None two_pages)),
             Ok 2)) as Hadd by reflexivity.
  exact (add_is_normalizeURLs_append _ _ _ _ _ _ _ _ Hl Hadd).
Defined.
End BatchNormalizerExamples.

(** ** DocumentBuilder: entries *)

Section DocumentEntriesMore.
Context {T : JSTypes} {I : Imports}.

Lemma JSMap_keys_remove {V} (k : string) (m : JSMap.t V) :
  JSMap.keys (JSMap.remove k m)
  = filter (fun k' => negb (String.eqb k k')) (JSMap.keys m).
Proof.
  unfold JSMap.keys, JSMap.remove.
  induction m as [|[k' v'] m IH]; cbn; [reflexivity|].
  destruct (String.eqb k k'); cbn; now rewrite IH.
Qed.

Lemma JSMap_remove_absent {V} (k : string) (m : JSMap.t V) :
  JSMap.has k m = false -> JSMap.remove k m = m.
Proof.
  unfold JSMap.has, JSMap.remove.
  induction m as [|[k' v'] m IH]; cbn; [reflexivity|].
  destruct (String.eqb k k'); cbn; [discriminate|].
  intros H. now rewrite IH.
Qed.

(** X8. An [add] that throws, whether in normalization or in validation,
    leaves the document as it was; so does a [del] that throws; and
    [contains] leaves the document as it was in every case. *)
Theorem throwing_calls_leave_document
    (x : Elem) (level : option ErrorLevel) (this : Sitemap.t) :
  (is_ok (snd (Sitemap.add x level this)) = false ->
   snd (fst (Sitemap.add x level this)) = this)
  /\ (is_ok (snd (Sitemap.del x this)) = false ->
      snd (fst (Sitemap.del x this)) = this)
  /\ snd (fst (Sitemap.contains x this)) = this
  /\ (is_ok (snd (Sitemap.add x level this)) = false <->
      is_ok (snd (normalizeURL x (Sitemap.hostname this))) = false
      \/ exists smi, snd (normalizeURL x (Sitemap.hostname this)) = Ok smi
                     /\ is_ok (validateSMIOptions smi level) = false).
Proof.
  unfold Sitemap.add, Sitemap.del, Sitemap.contains, Sitemap._normalizeURL.
  destruct (normalizeURL x (Sitemap.hostname this)) as [x' [smi|e]]; cbn.
  - destruct (validateSMIOptions smi level) as [[]|e] eqn:Ev; cbn.
    + repeat split; try discriminate.
      intros [H|(smi' & Hs & Hv)]; [discriminate|].
      inversion Hs; subst smi'. rewrite Ev in Hv. discriminate.
    + repeat split; try discriminate. intros _. right. exists smi.
      rewrite Ev. auto.
  - repeat split; auto.
Qed.

(** X9. Adding an entry whose resolved URL is not in the document puts it
    after all the others and returns the previous count plus one; every
    other entry is found as before, and nothing of the document but the
    collection changes. *)
Theorem add_new_url_appends
    (x x' : Elem) (level : option ErrorLevel)
    (this this' : Sitemap.t) (n : Z) (smi : Smi.t) :
  normalizeURL x (Sitemap.hostname this) = (x', Ok smi) ->
  JSMap.has (Smi.url smi) (Sitemap.urls this) = false ->
  Sitemap.add x level this = (x', this', Ok n) ->
  n = JSMap.size (Sitemap.urls this) + 1
  /\ JSMap.keys (Sitemap.urls this')
     = (JSMap.keys (Sitemap.urls this) ++ [Smi.url smi])%list
  /\ JSMap.get (Smi.url smi) (Sitemap.urls this') = Some smi
  /\ (forall k, k <> Smi.url smi ->
        JSMap.get k (Sitemap.urls this') = JSMap.get k (Sitemap.urls this))
  /\ this' = Sitemap.with_urls (Sitemap.urls this') this.
Proof.
  intros Hn Hhas Hadd.
  destruct (add_absent_appends _ _ _ _ _ _ _ Hn Hhas Hadd) as [Hsz Hk].
  apply add_ok_inv in Hadd as (smi' & Hn' & _ & -> & _).
  rewrite Hn in Hn'. inversion Hn'; subst smi'.
  split; [assumption|]. split; [assumption|].
  unfold Sitemap.with_urls; cbn [Sitemap.urls].
  split; [apply JSMap_get_set_same|].
  split; [|reflexivity].
  intros k Hne. now apply JSMap_get_set_other.
Qed.

(** X10. [del] takes the entry with the resolved URL out and nothing else:
    the other keys keep their order and their entries, the count goes down
    by one when the answer is true, and when the answer is false the
    collection is what it was. *)
Theorem del_removes_one
    (x x' : Elem) (this this' : Sitemap.t) (existed : bool) (smi : Smi.t) :
  JSMap.wf (Sitemap.urls this) ->
  normalizeURL x (Sitemap.hostname this) = (x', Ok smi) ->
  Sitemap.del x this = (x', this', Ok existed) ->
  JSMap.keys (Sitemap.urls this')
  = filter (fun k => negb (String.eqb (Smi.url smi) k))
      (JSMap.keys (Sitemap.urls this))
  /\ (forall k, k <> Smi.url smi ->
        JSMap.get k (Sitemap.urls this') = JSMap.get k (Sitemap.urls this))
  /\ JSMap.get (Smi.url smi) (Sitemap.urls this') = None
  /\ JSMap.size (Sitemap.urls this')
     = JSMap.size (Sitemap.urls this) - (if existed then 1 else 0)
  /\ (existed = false -> Sitemap.urls this' = Sitemap.urls this)
  /\ JSMap.wf (Sitemap.urls this').
Proof.
  intros Hwf Hn Hdel.
  unfold Sitemap.del, Sitemap._normalizeURL, JSMap.delete in Hdel.
  rewrite Hn in Hdel. inversion Hdel; subst this' existed. clear Hdel.
  unfold Sitemap.with_urls; cbn [Sitemap.urls].
  split; [apply JSMap_keys_remove|].
  split; [intros k Hne; now apply JSMap_get_remove_other|].
  split; [apply JSMap_get_remove_same|].
  split.
  { rewrite JSMap_size_remove by assumption.
    destruct (JSMap.has _ _); lia. }
  split; [apply JSMap_remove_absent | now apply JSMap_wf_remove].
Qed.

(** X11. Insertion order under [del] and [add]: an entry that is deleted
    and added again comes last, whereas an entry added again without a
    delete stays where it was. *)
Theorem del_then_add_moves_last
    (x x' : Elem) (level : option ErrorLevel) (this : Sitemap.t) (smi : Smi.t) :
  JSMap.wf (Sitemap.urls this) ->
  normalizeURL x (Sitemap.hostname this) = (x', Ok smi) ->
  validateSMIOptions smi level = Ok tt ->
  JSMap.has (Smi.url smi) (Sitemap.urls this) = true ->
  let deleted := snd (fst (Sitemap.del x this)) in
  let readded := snd (fst (Sitemap.add x' level deleted)) in
  let added := snd (fst (Sitemap.add x level this)) in
  JSMap.keys (Sitemap.urls readded)
  = (filter (fun k => negb (String.eqb (Smi.url smi) k))
       (JSMap.keys (Sitemap.urls this)) ++ [Smi.url smi])%list
  /\ JSMap.keys (Sitemap.urls added) = JSMap.keys (Sitemap.urls this)
  /\ JSMap.get (Smi.url smi) (Sitemap.urls readded) = Some smi
  /\ JSMap.get (Smi.url smi) (Sitemap.urls added) = Some smi.
Proof.
  intros Hwf Hn Hv Hhas. cbn zeta.
  pose proof (normalizeURL_again _ _ _ _ Hn) as Hn'.
  unfold Sitemap.del, Sitemap._normalizeURL, JSMap.delete.
  rewrite Hn. cbn [fst snd].
  rewrite (add_ok x x' level this smi Hn Hv). cbn [fst snd].
  rewrite (add_ok x' x' level
             (Sitemap.with_urls (JSMap.remove (Smi.url smi) (Sitemap.urls this))
                this) smi Hn' Hv).
  cbn [fst snd]. unfold Sitemap.with_urls; cbn [Sitemap.urls].
  rewrite JSMap_keys_set_absent by apply JSMap_has_remove_same.
  rewrite JSMap_keys_remove, JSMap_keys_set_present by assumption.
  rewrite !JSMap_get_set_same. auto.
Qed.

(** X12. The collection of a document keeps its invariant: a constructed
    document has distinct keys, each the resolved URL of the entry stored
    under it, and [add], [del], [contains], [toString] and [clearCache]
    keep it so, whether they return or throw. *)
Theorem urls_invariant_kept :
  (forall opts urls' this,
     Sitemap.new opts = (urls', Ok this) -> urls_invariant this)
  /\ (forall this, urls_invariant this ->
      (forall x level, urls_invariant (snd (fst (Sitemap.add x level this))))
      /\ (forall x, urls_invariant (snd (fst (Sitemap.del x this))))
      /\ (forall x, urls_invariant (snd (fst (Sitemap.contains x this))))
      /\ (forall pretty now now',
            urls_invariant (fst (Sitemap.toString pretty now now' this)))
      /\ urls_invariant (Sitemap.clearCache this)).
Proof.
  split.
  - intros opts urls' this H. unfold Sitemap.new in H.
    destruct (if truthy_string _ then _ else _) as [root0|e]; [|discriminate].
    destruct (normalizeURLs _ _) as [urls1 [m|e]] eqn:E; [|discriminate].
    destruct (Sitemap.validate_all _ _); [|discriminate].
    inversion H; subst. unfold urls_invariant; cbn [Sitemap.urls].
    apply normalizeURLs_last_wins in E as (smis & _ & _ & _ & Hwf & Hk & _).
    auto.
  - intros this [Hwf Hk]. repeat split.
    + now apply add_preserves_wf.
    + unfold Sitemap.add.
      destruct (Sitemap._normalizeURL x this) as [x' [smi|e]]; [|exact Hk].
      destruct (validateSMIOptions smi level); [|exact Hk].
      cbn. now apply keyed_by_url_set.
    + now apply del_preserves_wf.
    + unfold Sitemap.del.
      destruct (Sitemap._normalizeURL x this) as [x' [smi|e]]; [|exact Hk].
      cbn. now apply keyed_by_url_remove.
    + now rewrite contains_state.
    + now rewrite contains_state.
    + now rewrite toString_urls.
    + now rewrite toString_urls.
    + exact Hwf.
    + exact Hk.
Qed.
End DocumentEntriesMore.

Section DocumentEntriesMoreExamples.
Import Sample.

Lemma add_new_url_appends_witness :
  3 = JSMap.size (Sitemap.urls two_pages) + 1
  /\ JSMap.keys (Sitemap.urls (snd (fst (Sitemap.add (ElemStr "/c") None two_pages))))
     = (JSMap.keys (Sitemap.urls two_pages) ++ ["http://example.com/c"])%list.
Proof.
  assert (normalizeURL (ElemStr "/c") (Sitemap.hostname two_pages)
          = (ElemStr "/c", Ok (Sample.strict_of (ElemStr "/c")))) as Hn
    by reflexivity.
  assert (Sitemap.add (ElemStr "/c") None two_pages
          = (ElemStr "/c",
             snd (fst (Sitemap.add (ElemStr "/c") None two_pages)), Ok 3))
    as Hadd by reflexivity.
  destruct (add_new_url_appends _ _ _ _ _ _ _ Hn eq_refl Hadd)
    as (Hsz & Hk & _).
  split; [exact Hsz | exact Hk].
Defined.

Lemma two_pages_wf : JSMap.wf (Sitemap.urls two_pages).
Proof.
  repeat constructor; cbn; intros H; repeat destruct H as [H|H];
    try discriminate H; exact H.
Defined.

Lemma del_removes_one_witness :
  JSMap.keys (Sitemap.urls (snd (fst (Sitemap.del (ElemStr "/a") two_pages))))
  = filter (fun k => negb (String.eqb "http://example.com/a" k))
      (JSMap.keys (Sitemap.urls two_pages))
  /\ JSMap.size (Sitemap.urls (snd (fst (Sitemap.del (ElemStr "/a") two_pages))))
     = JSMap.size (Sitemap.urls two_pages) - 1.
Proof.
  assert (normalizeURL (ElemStr "/a") (Sitemap.hostname two_pages)
          = (ElemStr "/a", Ok (Sample.strict_of (ElemStr "/a")))) as Hn
    by reflexivity.
  assert (Sitemap.del (ElemStr "/a") two_pages
          = (ElemStr "/a", snd (fst (Sitemap.del (ElemStr "/a") two_pages)),
             Ok true)) as Hdel by reflexivity.
  destruct (del_removes_one _ _ _ _ _ _ two_pages_wf Hn Hdel)
    as (Hk & _ & _ & Hsz & _).
  split; [exact Hk | exact Hsz].
Defined.

Lemma del_then_add_moves_last_witness :
  JSMap.keys (Sitemap.urls
                (snd (fst (Sitemap.add (ElemStr "/a") None
                             (snd (fst (Sitemap.del (ElemStr "/a") two_pages)))))))
  = ["http://example.com/b"; "http://example.com/a"]
  /\ JSMap.keys (Sitemap.urls (snd (fst (Sitemap.add (ElemStr "/a") None two_pages))))
     = ["http://example.com/a"; "http://example.com/b"].
Proof.
  assert (normalizeURL (ElemStr "/a") (Sitemap.hostname two_pages)
          = (ElemStr "/a", Ok (Sample.strict_of (ElemStr "/a")))) as Hn
    by reflexivity.
  destruct (del_then_add_moves_last (ElemStr "/a") (ElemStr "/a") None
              two_pages _ two_pages_wf Hn eq_refl eq_refl)
    as (Hre & Hadd & _).
  split; [exact Hre | exact Hadd].
Defined.

Lemma urls_invariant_kept_witness :
  urls_invariant two_pages
  /\ urls_invariant (snd (fst (Sitemap.add Sample.page_with_clip None two_pages))).
Proof.
  assert (Sitemap.new (Sample.sitemap_options [ElemStr "/a"; ElemStr "/b"]
                         1000 None)
          = ([ElemStr "/a"; ElemStr "/b"], Ok two_pages)) as Hnew by reflexivity.
  pose proof (proj1 urls_invariant_kept _ _ _ Hnew) as Hinv.
  split; [exact Hinv|].
  exact (proj1 (proj2 urls_invariant_kept two_pages Hinv)
           Sample.page_with_clip None).
Defined.
End DocumentEntriesMoreExamples.

(** ** DocumentBuilder: construction and the namespace attributes *)

Section ConstructionMore.
Context {T : JSTypes} {I : Imports}.

Lemma split_not_nil (c : ascii) (s : string) : split c s <> [].
Proof.
  destruct s as [|c' s]; cbn; [discriminate|].
  destruct (Ascii.eqb c' c); [discriminate|].
  destruct (split c s); discriminate.
Qed.

Lemma split_absent (c : ascii) (s : string) :
  occurs c s = false -> split c s = [s].
Proof.
  induction s as [|c' s IH]; cbn; [reflexivity|].
  destruct (Ascii.eqb c' c); cbn; [discriminate|].
  intros H. now rewrite IH.
Qed.

Lemma split_app (c : ascii) (a b : string) :
  occurs c a = false ->
  split c (a ++ String c b) = a :: split c b.
Proof.
  induction a as [|c' a IH]; cbn.
  - intros _. now rewrite Ascii.eqb_refl.
  - destruct (Ascii.eqb c' c); cbn; [discriminate|].
    intros H. now rewrite IH.
Qed.

Lemma split_present (c : ascii) (s : string) :
  occurs c s = true -> exists a b rest, split c s = a :: b :: rest.
Proof.
  induction s as [|c' s IH]; cbn; [discriminate|].
  destruct (Ascii.eqb c' c); cbn.
  - intros _. pose proof (split_not_nil c s) as Hne.
    destruct (split c s) as [|b rest]; [contradiction|]. eauto.
  - intros H. destruct (IH H) as (a & b & rest & ->). eauto.
Qed.

Lemma strip_trailing_quote_cons_dq (v : string) :
  forall c, strip_trailing_quote (String c (v ++ dq)) = String c v.
Proof.
  induction v as [|c' v IH]; intros c; [reflexivity|].
  change (strip_trailing_quote (String c (String c' v ++ dq)))
    with (String c (strip_trailing_quote (String c' (v ++ dq)))).
  now rewrite IH.
Qed.

Lemma strip_trailing_quote_app_dq (v : string) :
  strip_trailing_quote (v ++ dq) = v.
Proof.
  destruct v as [|c v]; [reflexivity|]. apply strip_trailing_quote_cons_dq.
Qed.

Lemma strip_quotes_quoted (v : string) : strip_quotes (quoted v) = v.
Proof. unfold quoted. cbn. apply strip_trailing_quote_app_dq. Qed.

Lemma occurs_app (c : ascii) (a b : string) :
  occurs c (a ++ b) = occurs c a || occurs c b.
Proof.
  induction a as [|c' a IH]; cbn; [reflexivity|].
  now rewrite IH, orb_assoc.
Qed.

(** The loop over the items of [xmlNs] throws when an item has no equals
    sign, at that item or at an earlier one whose name or value xmlbuilder
    does not take. *)
Lemma xmlNs_attributes_throw (ns : list string) (root : XMLElement.t) :
  forallb (occurs "=") ns = false ->
  is_ok (Sitemap.xmlNs_attributes ns root) = false.
Proof.
  revert root. induction ns as [|attr ns IH]; intros root; cbn [forallb];
    [discriminate|].
  cbn [Sitemap.xmlNs_attributes].
  destruct (occurs "=" attr) eqn:E; cbn [andb].
  - destruct (split_present _ _ E) as (k & v & rest & ->). intros H.
    destruct (XMLElement.att k (strip_quotes v) root) as [root1 [[]|e]];
      [now apply IH | reflexivity].
  - intros _. now rewrite (split_absent _ _ E).
Qed.

(** X13. An [xmlNs] with an item that has no equals sign (as after a
    doubled or a trailing space) makes the constructor throw before any
    entry is normalized: no document is made and the caller's entries are
    untouched. *)
Theorem new_xmlNs_without_equals (opts : Options.t) (ns : string) :
  Options.xmlNs opts = Some ns ->
  truthy_string ns = true ->
  forallb (occurs "=") (split " " ns) = false ->
  is_ok (snd (Sitemap.new opts)) = false
  /\ fst (Sitemap.new opts)
     = match Options.urls opts with Some l => l | None => [] end.
Proof.
  intros Hns Ht Hf. unfold Sitemap.new. rewrite Hns, Ht, Ht.
  pose proof (xmlNs_attributes_throw _ XMLElement.create Hf) as Hthrow.
  destruct (Sitemap.xmlNs_attributes _ _); [discriminate|].
  split; reflexivity.
Qed.

Lemma all_chars_occurs (p : ascii -> bool) (c : ascii) (s : string) :
  p c = false -> all_chars p s = true -> occurs c s = false.
Proof.
  intros Hc. induction s as [|c' s IH]; cbn; [reflexivity|].
  intros H. apply andb_true_iff in H as [Hp Hs].
  rewrite (IH Hs), orb_false_r.
  destruct (Ascii.eqb c' c) eqn:E; [|reflexivity].
  apply Ascii.eqb_eq in E. subst. congruence.
Qed.

Lemma all_chars_impl (p q : ascii -> bool) (s : string) :
  (forall c, p c = true -> q c = true) ->
  all_chars p s = true -> all_chars q s = true.
Proof.
  intros Hpq. induction s as [|c s IH]; cbn; [reflexivity|].
  intros H. apply andb_true_iff in H as [Hp Hs].
  now rewrite (Hpq _ Hp), IH.
Qed.

Lemma name_char_plain (c : ascii) : name_char c = true -> plain_char c = true.
Proof.
  destruct c as [[] [] [] [] [] [] [] []]; cbn; intros H;
    first [reflexivity | discriminate H].
Qed.

Lemma xml_name_plain (k : string) : xml_name k = true -> plain k = true.
Proof.
  destruct k as [|c k]; cbn; [discriminate|].
  intros H. apply andb_true_iff in H as [Hc Hk].
  unfold plain. cbn. rewrite (all_chars_impl _ _ _ name_char_plain Hk).
  rewrite name_char_plain; [reflexivity|].
  unfold name_char. now rewrite Hc.
Qed.

Lemma plain_no_separator (s : string) :
  plain s = true -> occurs " " s = false /\ occurs "=" s = false.
Proof.
  intros H. split; eapply all_chars_occurs; try exact H; reflexivity.
Qed.

Lemma xmlNs_item (k v : string) :
  plain k = true -> plain v = true ->
  occurs " " (k ++ "=" ++ quoted v) = false
  /\ split "=" (k ++ "=" ++ quoted v) = [k; quoted v].
Proof.
  intros Hk Hv.
  apply plain_no_separator in Hk as [Hk1 Hk2], Hv as [Hv1 Hv2].
  split.
  - unfold quoted. rewrite !occurs_app, Hk1, Hv1. reflexivity.
  - change (k ++ "=" ++ quoted v) with (k ++ String "=" (quoted v)).
    rewrite split_app by assumption. f_equal.
    apply split_absent. unfold quoted. rewrite !occurs_app, Hv2. reflexivity.
Qed.

Lemma legal_chars_app (a b : string) :
  XMLElement.legal_chars (a ++ b)
  = XMLElement.legal_chars a && XMLElement.legal_chars b.
Proof.
  induction a as [|c a IH]; cbn; [reflexivity|]. now rewrite IH, andb_assoc.
Qed.

Lemma name_start_char_legal (c : ascii) :
  name_start_char c = true -> XMLElement.legal_name_start c = true.
Proof.
  destruct c as [[] [] [] [] [] [] [] []]; vm_compute; intros H;
    first [reflexivity | discriminate H].
Qed.

Lemma name_char_legal (c : ascii) :
  name_char c = true ->
  XMLElement.legal_name_part c = true /\ XMLElement.legal_char c = true.
Proof.
  destruct c as [[] [] [] [] [] [] [] []]; vm_compute; intros H;
    first [split; reflexivity | discriminate H].
Qed.

Lemma plain_char_escaped (c : ascii) :
  plain_char c = true ->
  XMLElement.legal_chars (XMLElement.escape_char c) = true.
Proof.
  destruct c as [[] [] [] [] [] [] [] []]; vm_compute; intros H;
    first [reflexivity | discriminate H].
Qed.

Lemma name_chars_legal (s : string) :
  all_chars name_char s = true ->
  XMLElement.legal_name_rest s = true /\ XMLElement.legal_chars s = true.
Proof.
  induction s as [|c s IH]; cbn; [auto|].
  intros H. apply andb_true_iff in H as [Hc Hs].
  destruct (name_char_legal c Hc) as [-> ->].
  destruct (IH Hs) as [-> ->]. auto.
Qed.

(** xmlbuilder takes an XML name in ASCII as the name of an attribute. *)
Lemma xml_name_legal (k : string) :
  xml_name k = true -> XMLElement.assertLegalName k = Ok tt.
Proof.
  destruct k as [|c k]; cbn [xml_name]; [discriminate|].
  intros H. apply andb_true_iff in H as [Hc Hk].
  destruct (name_chars_legal k Hk) as [Hrest Hchars].
  assert (name_char c = true) as Hc' by (unfold name_char; now rewrite Hc).
  destruct (name_char_legal c Hc') as [_ Hlc].
  unfold XMLElement.assertLegalName, XMLElement.assertLegalChar.
  cbn [XMLElement.legal_chars]. rewrite Hlc, Hchars. cbn [andb result_bind].
  now rewrite (name_start_char_legal c Hc), Hrest.
Qed.

(** And a value of visible ASCII characters as the value. *)
Lemma plain_value_legal (v : string) :
  plain v = true -> XMLElement.assertLegalChar (XMLElement.attEscape v) = Ok tt.
Proof.
  unfold XMLElement.assertLegalChar. intros H.
  assert (XMLElement.legal_chars (XMLElement.attEscape v) = true) as ->;
    [|reflexivity].
  induction v as [|c v IH]; cbn [XMLElement.attEscape]; [reflexivity|].
  unfold plain in H. cbn [all_chars] in H.
  apply andb_true_iff in H as [Hc Hv].
  now rewrite legal_chars_app, (plain_char_escaped c Hc), (IH Hv).
Qed.

Lemma att_ok (k v : string) (root : XMLElement.t) :
  xml_name k = true -> plain v = true ->
  XMLElement.att k v root
  = (XMLElement.mk (JSMap.set k v (XMLElement.attribs root))
       (XMLElement.children root) (XMLElement.document root), Ok tt).
Proof.
  intros Hk Hv. unfold XMLElement.att.
  now rewrite (xml_name_legal k Hk), (plain_value_legal v Hv).
Qed.

Lemma xmlNs_attributes_of (kvs : list (string * string)) :
  forall root : XMLElement.t,
  kvs <> [] ->
  Forall (fun kv => xml_name (fst kv) = true /\ plain (snd kv) = true) kvs ->
  Sitemap.xmlNs_attributes (split " " (xmlNs_of kvs)) root
  = Ok (with_attributes kvs root).
Proof.
  unfold xmlNs_of, with_attributes.
  induction kvs as [|[k v] kvs IH]; intros root Hne Hall; [contradiction|].
  inversion Hall as [|? ? [Hk Hv] Hrest]; subst. cbn [fst snd] in Hk, Hv.
  destruct (xmlNs_item k v (xml_name_plain k Hk) Hv) as [Hsp Heq].
  destruct kvs as [|kv' kvs].
  - cbn [map String.concat fst snd fold_left].
    rewrite (split_absent _ _ Hsp). cbn [Sitemap.xmlNs_attributes].
    rewrite Heq, strip_quotes_quoted, (att_ok k v root Hk Hv). reflexivity.
  - cbn [map String.concat fst snd fold_left] in IH |- *.
    change (" " ++ ?s) with (String " " s).
    rewrite (split_app _ _ _ Hsp). cbn [Sitemap.xmlNs_attributes].
    rewrite Heq, strip_quotes_quoted, (att_ok k v root Hk Hv). cbn [fst].
    apply IH; [discriminate | assumption].
Qed.

(** X14. Round trip of the namespace override: constructed with [xmlNs]
    written as [k1=dq v1 dq k2=dq v2 dq ...], the names XML names and the
    values visible characters with no equals sign, a document has those
    attributes on its root, with the quotes taken off and later names
    overwriting earlier equal ones, and remembers the string as given. *)
Theorem new_xmlNs_round_trip
    (kvs : list (string * string)) (hostname : option string)
    (cacheTime : option Z) (xslUrl : option string) (level : option ErrorLevel) :
  kvs <> [] ->
  Forall (fun kv => xml_name (fst kv) = true /\ plain (snd kv) = true) kvs ->
  exists this,
    Sitemap.new (Options.mk None hostname cacheTime xslUrl
                   (Some (xmlNs_of kvs)) level) = ([], Ok this)
    /\ Sitemap.root this = with_attributes kvs XMLElement.create
    /\ Sitemap.xmlNs this = xmlNs_of kvs.
Proof.
  intros Hne Hall. unfold Sitemap.new. cbn [Options.xmlNs Options.urls
    Options.cacheTime Options.level Options.hostname Options.xslUrl].
  assert (truthy_string (xmlNs_of kvs) = true) as Ht.
  { destruct kvs as [|[k v] kvs]; [contradiction|].
    unfold xmlNs_of. cbn [map fst snd String.concat].
    destruct kvs; destruct k; reflexivity. }
  rewrite Ht, Ht, (xmlNs_attributes_of kvs _ Hne Hall).
  cbn. eexists. split; [reflexivity|]. split; reflexivity.
Qed.

(** X15. The namespace rule of [toString]: on a document with an [xmlNs]
    the attributes of the root are left as the constructor set them, and
    none of the default declarations is added; on a document without, the
    six default declarations are set, each once, however often [toString]
    runs. *)
Theorem toString_namespace_attributes
    (pretty : bool) (now now' : Z) (this : Sitemap.t) :
  let this' := fst (Sitemap.toString pretty now now' this) in
  (truthy_string (Sitemap.xmlNs this) = true ->
   XMLElement.attribs (Sitemap.root this') = XMLElement.attribs (Sitemap.root this))
  /\ (truthy_string (Sitemap.xmlNs this) = false ->
      XMLElement.attribs (Sitemap.root this')
      = default_namespace_attribs (XMLElement.attribs (Sitemap.root this))
      /\ forall p t t',
           XMLElement.attribs
             (Sitemap.root (fst (Sitemap.toString p t t' this')))
           = XMLElement.attribs (Sitemap.root this')).
Proof.
  cbn zeta.
  assert (forall p t t' (s : Sitemap.t),
            XMLElement.attribs (Sitemap.root (fst (Sitemap.toString p t t' s)))
            = (if truthy_string (Sitemap.xmlNs s)
               then XMLElement.attribs (Sitemap.root s)
               else default_namespace_attribs (XMLElement.attribs (Sitemap.root s)))
            /\ Sitemap.xmlNs (fst (Sitemap.toString p t t' s)) = Sitemap.xmlNs s)
    as Hatt.
  { intros p t t' s. split.
    - rewrite toString_root. destruct (prepare_root_attribs s) as [<- _].
      destruct (_ && _); [|reflexivity]. now rewrite build_children_eq.
    - destruct (toString_cases p t t' s)
        as [(r & e & _ & _ & ->) | [(r & _ & _ & _ & ->) | (r & _ & _ & _ & ->)]];
        reflexivity. }
  split.
  - intros Ht. destruct (Hatt pretty now now' this) as [-> _]. now rewrite Ht.
  - intros Hf. destruct (Hatt pretty now now' this) as [Ha Hx].
    rewrite Hf in Ha. split; [exact Ha|].
    intros p t t'.
    destruct (Hatt p t t' (fst (Sitemap.toString pretty now now' this)))
      as [-> _].
    rewrite Hx, Hf, Ha. apply default_namespace_attribs_idem.
Qed.


End ConstructionMore.

Section ConstructionMoreExamples.
Import Sample.

Lemma new_xmlNs_without_equals_witness :
  is_ok (snd (Sitemap.new
                (Options.mk (Some [Sample.page_with_clip]) Sample.host None None
                   (Some ("xmlns="
                          ++ quoted "http://www.sitemaps.org/schemas/sitemap/0.9"
                          ++ " ")) None))) = false
  /\ fst (Sitemap.new
            (Options.mk (Some [Sample.page_with_clip]) Sample.host None None
               (Some ("xmlns="
                      ++ quoted "http://www.sitemaps.org/schemas/sitemap/0.9"
                      ++ " ")) None))
     = [Sample.page_with_clip].
Proof.
  exact (new_xmlNs_without_equals
           (Options.mk (Some [Sample.page_with_clip]) Sample.host None None
              (Some ("xmlns=" ++ quoted "http://www.sitemaps.org/schemas/sitemap/0.9"
                     ++ " ")) None)
           _ eq_refl eq_refl eq_refl).
Defined.

Lemma new_xmlNs_round_trip_witness :
  exists this,
    Sitemap.new (Options.mk None Sample.host None None
                   (Some (xmlNs_of
                            [("xmlns", "http://www.sitemaps.org/schemas/sitemap/0.9");
                             ("xmlns:xhtml", "http://www.w3.org/1999/xhtml")]))
                   None) = ([], Ok this)
    /\ Sitemap.root this
       = with_attributes
           [("xmlns", "http://www.sitemaps.org/schemas/sitemap/0.9");
            ("xmlns:xhtml", "http://www.w3.org/1999/xhtml")] XMLElement.create
    /\ Sitemap.xmlNs this
       = xmlNs_of [("xmlns", "http://www.sitemaps.org/schemas/sitemap/0.9");
                   ("xmlns:xhtml", "http://www.w3.org/1999/xhtml")].
Proof.
  assert ([("xmlns", "http://www.sitemaps.org/schemas/sitemap/0.9");
           ("xmlns:xhtml", "http://www.w3.org/1999/xhtml")]
          <> @nil (string * string)) as Hne by discriminate.
  assert (Forall (fun kv => xml_name (fst kv) = true /\ plain (snd kv) = true)
            [("xmlns", "http://www.sitemaps.org/schemas/sitemap/0.9");
             ("xmlns:xhtml", "http://www.w3.org/1999/xhtml")]) as Hall
    by (repeat constructor).
  exact (new_xmlNs_round_trip _ Sample.host None None None Hne Hall).
Defined.


(** The same call on a document whose stylesheet URL holds the closing mark
    of a processing instruction: the constructor takes the URL, the first
    [toString] throws. *)
Example new_then_toString_throws :
  Sitemap.new (Sample.sitemap_options [ElemStr "/a"] 1000 (Some "a?>b"))
  = ([ElemStr "/a"], Ok broken_stylesheet_sitemap)
  /\ snd (Sitemap.toString false 500 500 broken_stylesheet_sitemap)
     = Throw (XMLBuilderError InvalidInstructionValue)
  /\ cache_slot (fst (Sitemap.toString false 500 500 broken_stylesheet_sitemap))
     = (EmptyString, 0, 1000).
Proof. repeat split; reflexivity. Qed.
End ConstructionMoreExamples.

(** ** DocumentBuilder: the cache and what [toString] touches *)

Section CacheMore.
Context {T : JSTypes} {I : Imports}.
Variable gzipSync : string -> string.


(** X17. [setCache] returns the string it is given and primes the cache
    with it: on a document with a TTL whose stylesheet URL, if any, passes
    xmlbuilder's checks, a [toString] no later than the TTL after the call
    returns that string, whatever the entries of the document and whatever
    the pretty flag. Where the stylesheet URL does not pass, the
    [toString] throws, primed cache or not. [setCache] of the empty string
    makes the next [toString] build the document. *)
Theorem setCache_primes (newCache : string) (t0 : Z) (this : Sitemap.t)
    (pretty : bool) (now now' : Z) :
  let primed := fst (Sitemap.setCache newCache t0 this) in
  snd (Sitemap.setCache newCache t0 this) = newCache
  /\ (stylesheet_legal this = true ->
      truthy_number (Sitemap.cacheTime this) = true ->
      truthy_string newCache = true ->
      now <= t0 + Sitemap.cacheTime this ->
      snd (Sitemap.toString pretty now now' primed) = Ok newCache)
  /\ (stylesheet_legal this = false ->
      is_ok (snd (Sitemap.toString pretty now now' primed)) = false)
  /\ (newCache = EmptyString ->
      snd (Sitemap.toString pretty now now' primed) = fresh_xml pretty this).
Proof.
  cbn zeta. split; [reflexivity|]. split; [|split].
  - intros Hl Ht Hc Hle.
    apply (toString_within_ttl pretty now now'
             (fst (Sitemap.setCache newCache t0 this))); assumption.
  - intros Hl. rewrite toString_ok. exact Hl.
  - intros ->.
    apply (toString_not_cached pretty now now'
             (fst (Sitemap.setCache EmptyString t0 this))).
    unfold Sitemap.isCacheValid; cbn. now rewrite andb_false_r.
Qed.


End CacheMore.

Section CacheMoreExamples.
Import Sample.

Lemma setCache_primes_witness :
  snd (Sitemap.toString true 1500 1500
         (fst (Sitemap.setCache "<urlset/>" 1000 two_pages)))
  = Ok "<urlset/>".
Proof.
  assert (1500 <= 1000 + Sitemap.cacheTime two_pages) as Hle
    by (vm_compute; discriminate).
  assert (stylesheet_legal two_pages = true) as Hl by reflexivity.
  exact (proj1 (proj2 (setCache_primes "<urlset/>" 1000 two_pages true 1500 1500))
           Hl eq_refl eq_refl Hle).
Defined.

(** A primed cache does not keep [toString] from throwing. *)
Example setCache_then_toString_throws :
  snd (Sitemap.toString true 1500 1500
         (fst (Sitemap.setCache "<urlset/>" 1000 broken_stylesheet_sitemap)))
  = Throw (XMLBuilderError InvalidInstructionValue).
Proof. reflexivity. Qed.

End CacheMoreExamples.

(** ** StreamingEmitter *)

Section StreamingMore.
Context {T : JSTypes} {I : Imports}.

Lemma _transform_throw_state (item : Elem) (this : SitemapStream.t) (e : exn) :
  SitemapStream.fragment_of (SitemapStream.hostname this)
    (SitemapStream.level this) item = Throw e ->
  SitemapStream._transform item this
  = (fst (normalizeURL item (SitemapStream.hostname this)),
     SitemapStream.mk (SitemapStream.hostname this) (SitemapStream.level this)
       true
       (if SitemapStream.hasHeadOutput this
        then SitemapStream.pushed this
        else SitemapStream.pushed this ++ [preamble]),
     Throw e).
Proof.
  unfold SitemapStream.fragment_of, SitemapStream._transform.
  destruct this as [h lvl head out]. cbn [SitemapStream.hostname
    SitemapStream.level SitemapStream.hasHeadOutput SitemapStream.pushed].
  destruct head; cbn [negb SitemapStream.hostname SitemapStream.level
    SitemapStream.push SitemapStream.set_hasHeadOutput
    SitemapStream.hasHeadOutput SitemapStream.pushed];
    destruct (normalizeURL item h) as [item' [smi|e']]; cbn [snd fst result_bind];
    intros H; try (rewrite H); try reflexivity; inversion H; reflexivity.
Qed.

Lemma write_all_app (l1 l2 : list Elem) :
  forall this : SitemapStream.t,
  SitemapStream.write_all (l1 ++ l2) this
  = match SitemapStream.write_all l1 this with
    | (l1', this1, Ok _) =>
        match SitemapStream.write_all l2 this1 with
        | (l2', this2, r) => ((l1' ++ l2')%list, this2, r)
        end
    | (l1', this1, Throw e) => ((l1' ++ l2)%list, this1, Throw e)
    end.
Proof.
  induction l1 as [|x l1 IH]; intros this; cbn [app SitemapStream.write_all].
  - now destruct (SitemapStream.write_all l2 this) as [[l2' this2] r].
  - destruct (SitemapStream._transform x this) as [[x' this1] [[]|e]];
      [|reflexivity].
    rewrite IH.
    destruct (SitemapStream.write_all l1 this1) as [[l1' this2] [[]|e]];
      [|reflexivity].
    now destruct (SitemapStream.write_all l2 this2) as [[l2' this3] r].
Qed.

(** X20. An entry that does not yield its fragment stops the stream: the
    run ends with that entry's exception, the closing tag is not pushed,
    the entries after it are not touched, and what has been pushed is the
    preamble followed by the fragments of the entries before it; the
    preamble is there even when the very first entry fails. *)
Theorem stream_stops_at_failure
    (h : option string) (lvl : option ErrorLevel)
    (l1 l2 : list Elem) (x : Elem) (fragments : list string) (e : exn) :
  let s0 := SitemapStream.new h lvl in
  mapR (SitemapStream.fragment_of h (SitemapStream.level s0)) l1 = Ok fragments ->
  SitemapStream.fragment_of h (SitemapStream.level s0) x = Throw e ->
  exists l1',
    SitemapStream.run (l1 ++ x :: l2) s0
    = ((l1' ++ fst (normalizeURL x h) :: l2)%list,
       SitemapStream.mk h (SitemapStream.level s0) true (preamble :: fragments),
       Throw e).
Proof.
  cbn zeta. intros Hm Hx. unfold SitemapStream.run.
  rewrite write_all_app.
  destruct l1 as [|y l1].
  - cbn in Hm. inversion Hm; subst fragments.
    cbn [SitemapStream.write_all].
    rewrite (_transform_throw_state x (SitemapStream.new h lvl) e Hx).
    exists []. reflexivity.
  - cbn [mapR] in Hm.
    destruct (SitemapStream.fragment_of _ _ y) as [f|e1] eqn:Ef;
      cbn [result_bind] in Hm; [|discriminate].
    destruct (mapR _ l1) as [fs|e1] eqn:Efs; cbn [result_bind] in Hm;
      [|discriminate].
    inversion Hm; subst fragments.
    cbn [SitemapStream.write_all].
    rewrite (_transform_ok y (SitemapStream.new h lvl) f Ef).
    cbn [SitemapStream.new SitemapStream.hasHeadOutput SitemapStream.pushed
         SitemapStream.hostname SitemapStream.level app].
    pose proof (write_all_pushed l1
                  (SitemapStream.mk h (match lvl with Some l => l | None => WARN end)
                     true [preamble; f]) fs eq_refl Efs) as [Hr Hs].
    destruct (SitemapStream.write_all l1 _) as [[rest' this2] r].
    cbn [fst snd] in Hr, Hs. subst r this2.
    cbn [SitemapStream.write_all SitemapStream.hostname SitemapStream.level
         SitemapStream.pushed app].
    rewrite (_transform_throw_state x
               (SitemapStream.mk h (match lvl with Some l => l | None => WARN end)
                  true (preamble :: f :: fs)) e Hx).
    cbn [SitemapStream.hasHeadOutput SitemapStream.pushed
         SitemapStream.hostname SitemapStream.level app].
    eexists (_ :: rest'). reflexivity.
Qed.

Lemma _transform_extends (item : Elem) (this : SitemapStream.t) :
  is_prefix (SitemapStream.pushed this)
    (SitemapStream.pushed (snd (fst (SitemapStream._transform item this))))
  /\ SitemapStream.hasHeadOutput (snd (fst (SitemapStream._transform item this)))
     = true
  /\ SitemapStream.hostname (snd (fst (SitemapStream._transform item this)))
     = SitemapStream.hostname this
  /\ SitemapStream.level (snd (fst (SitemapStream._transform item this)))
     = SitemapStream.level this.
Proof.
  destruct (SitemapStream.fragment_of (SitemapStream.hostname this)
              (SitemapStream.level this) item) as [f|e] eqn:Ef.
  - rewrite (_transform_ok _ _ _ Ef). cbn. repeat split.
    destruct (SitemapStream.hasHeadOutput this).
    + now exists [f].
    + exists [preamble; f]. now rewrite <- app_assoc.
  - rewrite (_transform_throw_state _ _ _ Ef). cbn. repeat split.
    destruct (SitemapStream.hasHeadOutput this).
    + exists []. now rewrite app_nil_r.
    + now exists [preamble].
Qed.

Lemma is_prefix_trans {A} (l1 l2 l3 : list A) :
  is_prefix l1 l2 -> is_prefix l2 l3 -> is_prefix l1 l3.
Proof.
  intros [r1 ->] [r2 ->]. exists (r1 ++ r2)%list. now rewrite app_assoc.
Qed.

(** X21. The emitter only ever appends: whatever has been pushed stays
    pushed, unchanged and in place, through every further entry and through
    the end of the stream, whether the entries yield their fragments or
    not; and the hostname and level of the stream never change. *)
Theorem stream_only_appends (items : list Elem) (this : SitemapStream.t) :
  is_prefix (SitemapStream.pushed this)
    (SitemapStream.pushed (snd (fst (SitemapStream.write_all items this))))
  /\ is_prefix (SitemapStream.pushed this)
       (SitemapStream.pushed (snd (fst (SitemapStream.run items this))))
  /\ SitemapStream.hostname (snd (fst (SitemapStream.run items this)))
     = SitemapStream.hostname this
  /\ SitemapStream.level (snd (fst (SitemapStream.run items this)))
     = SitemapStream.level this.
Proof.
  assert (forall l s,
            is_prefix (SitemapStream.pushed s)
              (SitemapStream.pushed (snd (fst (SitemapStream.write_all l s))))
            /\ SitemapStream.hostname (snd (fst (SitemapStream.write_all l s)))
               = SitemapStream.hostname s
            /\ SitemapStream.level (snd (fst (SitemapStream.write_all l s)))
               = SitemapStream.level s) as Hw.
  { induction l as [|x l IH]; intros s; cbn [SitemapStream.write_all].
    - cbn. repeat split. exists []. now rewrite app_nil_r.
    - pose proof (_transform_extends x s) as (Hp & _ & Hh & Hl).
      destruct (SitemapStream._transform x s) as [[x' s1] [[]|e]];
        cbn [fst snd] in Hp, Hh, Hl |- *; [|auto].
      specialize (IH s1).
      destruct (SitemapStream.write_all l s1) as [[l' s2] r].
      cbn [fst snd] in IH |- *. destruct IH as (Hp2 & Hh2 & Hl2).
      split; [eapply is_prefix_trans; eassumption|]. split; congruence. }
  destruct (Hw items this) as (Hp & Hh & Hl).
  split; [exact Hp|].
  unfold SitemapStream.run.
  destruct (SitemapStream.write_all items this) as [[l' s1] [[]|e]];
    cbn [fst snd] in Hp, Hh, Hl |- *; [|auto].
  cbn. split; [|auto].
  destruct Hp as [rest ->]. exists (rest ++ [closetag])%list.
  now rewrite app_assoc.
Qed.
End StreamingMore.

Section StreamingMoreExamples.
Import Sample.

Lemma stream_stops_at_failure_witness :
  exists l1',
    SitemapStream.run ([ElemStr "http://example.com/a"]
                       ++ page_relative_image :: [Sample.page_with_clip])
      (SitemapStream.new None None)
    = ((l1' ++ fst (normalizeURL page_relative_image None)
            :: [Sample.page_with_clip])%list,
       SitemapStream.mk None WARN true
         [preamble; Sample.loc_element "http://example.com/a"],
       Throw (TypeError_InvalidURL "/pic.jpg")).
Proof.
  exact (stream_stops_at_failure None None [ElemStr "http://example.com/a"]
           [Sample.page_with_clip] page_relative_image
           [Sample.loc_element "http://example.com/a"]
           (TypeError_InvalidURL "/pic.jpg") eq_refl eq_refl).
Defined.
End StreamingMoreExamples.

(** ** DocumentBuilder: the cache rule and the stylesheet instruction *)

Section CacheRule.
Context {T : JSTypes} {I : Imports}.





(** X22. The cache rule of [toString], for a document whose stylesheet
    URL, if any, passes xmlbuilder's checks. While the cache answers, the
    cached string is returned as it is, whatever the pretty flag, and the
    cache slot stays as it was. A call that built an intact document at
    time [t1'] returns, and is followed, up to [t1'] plus the TTL, by calls
    that return the same string. With a TTL of 0, or with an empty cached
    string, every call builds the document. A document whose stylesheet URL
    does not pass makes every call throw, whatever the cache holds, and
    the cache slot stays as it was. *)
Theorem toString_cache_rule (this : Sitemap.t) :
  (forall pretty now now',
     stylesheet_legal this = true ->
     Sitemap.isCacheValid now this = true ->
     snd (Sitemap.toString pretty now now' this) = Ok (Sitemap.cache this)
     /\ cache_slot (fst (Sitemap.toString pretty now now' this)) = cache_slot this)
  /\ (forall p1 p2 t1 t1' t2 t2',
        stylesheet_legal this = true ->
        intact (Sitemap.root this) ->
        truthy_number (Sitemap.cacheTime this) = true ->
        Sitemap.isCacheValid t1 this = false ->
        t2 <= t1' + Sitemap.cacheTime this ->
        snd (Sitemap.toString p1 t1 t1' this) = fresh_xml p1 this
        /\ is_ok (fresh_xml p1 this) = true
        /\ snd (Sitemap.toString p2 t2 t2' (fst (Sitemap.toString p1 t1 t1' this)))
           = fresh_xml p1 this)
  /\ (forall pretty now now',
        Sitemap.cacheTime this = 0 \/ Sitemap.cache this = EmptyString ->
        snd (Sitemap.toString pretty now now' this) = fresh_xml pretty this
        /\ (forall xml, fresh_xml pretty this = Ok xml ->
              cache_slot (fst (Sitemap.toString pretty now now' this))
              = (xml, now', Sitemap.cacheTime this)))
  /\ (forall pretty now now',
        stylesheet_legal this = false ->
        is_ok (snd (Sitemap.toString pretty now now' this)) = false
        /\ cache_slot (fst (Sitemap.toString pretty now now' this))
           = cache_slot this).
Proof.
  split; [|split; [|split]].
  - intros pretty now now' Hl Hv.
    destruct (toString_cases pretty now now' this)
      as [(r & e & _ & Hl' & _) | [(r & _ & _ & _ & ->) | (r & _ & _ & Hv' & _)]];
      [congruence | split; reflexivity | congruence].
  - intros p1 p2 t1 t1' t2 t2' Hl Hin Ht Hinv Hle.
    destruct (toString_twice_within_ttl p1 p2 t1 t1' t2 t2' this
                Hin Hl Ht Hinv Hle) as [_ ->].
    destruct (toString_not_cached p1 t1 t1' this Hinv) as (-> & _).
    split; [reflexivity|]. split; [|reflexivity].
    now rewrite fresh_xml_ok.
  - intros pretty now now' H.
    assert (Sitemap.isCacheValid now this = false) as Hinv.
    { unfold Sitemap.isCacheValid.
      destruct H as [-> | ->]; [reflexivity | now rewrite andb_false_r]. }
    destruct (toString_not_cached pretty now now' this Hinv) as (Hs & Hok & _).
    split; assumption.
  - intros pretty now now' Hl. split; [now rewrite toString_ok|].
    destruct (toString_cases pretty now now' this)
      as [(r & e & _ & _ & ->) | [(r & _ & Hl' & _ & _) | (r & _ & Hl' & _ & _)]];
      [reflexivity | congruence | congruence].
Qed.

End CacheRule.

Section CacheRuleExamples.
Import Sample.

(** A stylesheet URL with the closing mark of a processing instruction in
    it: [toString] throws on the first call, which takes the root element
    out of the document, and on the next, which finds no root element and
    takes out the declaration. No call reaches the cache test. *)
Example toString_broken_stylesheet :
  let r1 := Sitemap.toString false 0 0 broken_stylesheet_sitemap in
  let r2 := Sitemap.toString false 1 1 (fst r1) in
  stylesheet_legal broken_stylesheet_sitemap = false
  /\ snd r1 = Throw (XMLBuilderError InvalidInstructionValue)
  /\ XMLElement.document (Sitemap.root (fst r1)) = [XMLElement.XMLDeclaration]
  /\ snd r2 = Throw (XMLBuilderError InvalidInstructionValue)
  /\ XMLElement.document (Sitemap.root (fst r2)) = []
  /\ cache_slot (fst r2) = cache_slot broken_stylesheet_sitemap.
Proof. cbn zeta. repeat split; reflexivity. Qed.
End CacheRuleExamples.
